(** * nodemcuload: the session layer that drives a NodeMCU Lua shell

    A shallow embedding of [nodemcuload.py] (class [NodeMCU]) and the
    properties of its protocol layer: line reads, command echo absorption,
    literal rendering, block transfers, directory listing, [dofile] and
    [restart]; then [get_version], [remove_file], [rename_file], [format]
    and, of [main], the version gate and the choice of the default port.

    Conventions of the embedding.
    - The program runs under Python 3.  A [str] (a file name, the data to
      write, a command, a decoded response) is a list of code points,
      [list N]; a [bytes] value (what goes over the serial port) is a
      [list byte]; an [int] is a [Z].  [str.encode("utf-8")] and
      [bytes.decode("utf-8")] go between the two.
    - The serial port is a record of the bytes the device will deliver and
      the log of the payloads written so far.  A method is a function from
      the port's state to an outcome and the next state.  An outcome is a
      returned value, a raised exception, or [Blocked]: the port was opened
      without a timeout, so a read past the delivered bytes never returns.
    - Loops of the source that wait on the device are defined by recursion
      on a bound computed from the bytes still to be delivered; the lemmas
      of section "Adequacy of the loop bounds" show the bound is never the
      reason a loop stops. *)

From Stdlib Require Import ZArith NArith List Lia Bool.
From Stdlib Require Import Strings.Byte Strings.String.
From stdpp Require Import base option list gmap.
Import ListNotations.
Local Open Scope Z_scope.

Abbreviation bytes := (list byte).
Abbreviation text := (list N).

(** ** Bytes and text *)

Definition bstr (s : string) : bytes := list_byte_of_string s.

Definition SQUOTE : byte := x27.
Definition DQUOTE : byte := x22.
Definition BACKSLASH : byte := x5c.
Definition TAB : byte := x09.
Definition LF : byte := x0a.
Definition CR : byte := x0d.
Definition CRLF : bytes := [CR; LF].

#[global] Instance byte_eq_dec : EqDecision byte := Byte.byte_eq_dec.

(** The text ASCII bytes stand for, character by character. *)
Definition ascii_text (l : bytes) : text := map Byte.to_N l.

(** The text of an ASCII literal of the program ("nil", "true"). *)
Definition ustr (s : string) : text := ascii_text (bstr s).

(** The characters the literals are about, and the default line ending
    ["\r\n"]. *)
Definition squote : N := 39.
Definition dquote : N := 34.
Definition backslash : N := 92.
Definition tab : N := 9.
Definition lf : N := 10.
Definition cr : N := 13.
Definition crlf : text := [cr; lf].

(** Python slice bounds: a negative bound counts from the end, and the
    result is clamped to the sequence. *)
Definition py_index {A} (l : list A) (i : Z) : nat :=
  let n := Z.of_nat (length l) in
  Z.to_nat (Z.min n (Z.max 0 (if i <? 0 then i + n else i))).

(** [l[:i]] *)
Definition slice_to {A} (l : list A) (i : Z) : list A := firstn (py_index l i) l.

(** [l[i:]] *)
Definition slice_from {A} (l : list A) (i : Z) : list A := skipn (py_index l i) l.

(** ** UTF-8 *)

Definition byte_of (n : N) : byte :=
  match Byte.of_N n with
  | Some b => b
  | None => x00
  end.

(** The bytes of one character. *)
Definition utf8_char (c : N) : bytes :=
  (if c <? 0x80 then [byte_of c]
   else if c <? 0x800 then
     [byte_of (0xC0 + c / 64); byte_of (0x80 + c mod 64)]
   else if c <? 0x10000 then
     [byte_of (0xE0 + c / 4096); byte_of (0x80 + (c / 64) mod 64);
      byte_of (0x80 + c mod 64)]
   else
     [byte_of (0xF0 + c / 262144); byte_of (0x80 + (c / 4096) mod 64);
      byte_of (0x80 + (c / 64) mod 64); byte_of (0x80 + c mod 64)])%N.

(** A character the strict encoder takes: no surrogate, nothing above
    U+10FFFF. *)
Definition encodable (c : N) : bool :=
  ((c <? 0xD800) || ((0xDFFF <? c) && (c <=? 0x10FFFF)))%N.

(** The bytes [s.encode("utf-8")] gives when it gives any. *)
Definition utf8 (s : text) : bytes := flat_map utf8_char s.

Definition continuation (b : byte) : bool :=
  (128 <=? Byte.to_N b)%N && (Byte.to_N b <? 192)%N.

Definition low6 (b : byte) : N := (Byte.to_N b - 128)%N.

(** [bytes.decode("utf-8")], strict: [None] stands for the
    [UnicodeDecodeError].  Overlong forms, lone continuation bytes,
    truncated sequences, surrogates and code points above U+10FFFF are
    rejected. *)
Fixpoint utf8_decode (l : bytes) : option text :=
  match l with
  | [] => Some []
  | b0 :: t =>
    let n0 := Byte.to_N b0 in
    if (n0 <? 0x80)%N then
      match utf8_decode t with Some r => Some (n0 :: r) | None => None end
    else if (n0 <? 0xC2)%N then None
    else if (n0 <? 0xE0)%N then
      match t with
      | b1 :: t1 =>
        if continuation b1 then
          match utf8_decode t1 with
          | Some r => Some (((n0 - 0xC0) * 64 + low6 b1)%N :: r)
          | None => None
          end
        else None
      | _ => None
      end
    else if (n0 <? 0xF0)%N then
      match t with
      | b1 :: b2 :: t2 =>
        if continuation b1 && continuation b2
           && negb ((n0 =? 0xE0)%N && (Byte.to_N b1 <? 0xA0)%N)
           && negb ((n0 =? 0xED)%N && (0x9F <? Byte.to_N b1)%N) then
          match utf8_decode t2 with
          | Some r =>
            Some (((n0 - 0xE0) * 4096 + low6 b1 * 64 + low6 b2)%N :: r)
          | None => None
          end
        else None
      | _ => None
      end
    else if (n0 <? 0xF5)%N then
      match t with
      | b1 :: b2 :: b3 :: t3 =>
        if continuation b1 && continuation b2 && continuation b3
           && negb ((n0 =? 0xF0)%N && (Byte.to_N b1 <? 0x90)%N)
           && negb ((n0 =? 0xF4)%N && (0x8F <? Byte.to_N b1)%N) then
          match utf8_decode t3 with
          | Some r =>
            Some (((n0 - 0xF0) * 262144 + low6 b1 * 4096
                   + low6 b2 * 64 + low6 b3)%N :: r)
          | None => None
          end
        else None
      | _ => None
      end
    else None
  end.

(** ** Printable characters

    [str.isprintable] on one character, which [repr] consults: below
    U+0080 the characters from the space to the tilde; from there on the
    ranges of the interpreter's character database (Unicode 14.0, as of
    Python 3.11), each with its first and last code point. *)

Definition PRINTABLE_RANGES : list (N * N) :=
  ([
   (0xa1, 0xac); (0xae, 0x377); (0x37a, 0x37f); (0x384, 0x38a);
   (0x38c, 0x38c); (0x38e, 0x3a1); (0x3a3, 0x52f); (0x531, 0x556);
   (0x559, 0x58a); (0x58d, 0x58f); (0x591, 0x5c7); (0x5d0, 0x5ea);
   (0x5ef, 0x5f4); (0x606, 0x61b); (0x61d, 0x6dc); (0x6de, 0x70d);
   (0x710, 0x74a); (0x74d, 0x7b1); (0x7c0, 0x7fa); (0x7fd, 0x82d);
   (0x830, 0x83e); (0x840, 0x85b); (0x85e, 0x85e); (0x860, 0x86a);
   (0x870, 0x88e); (0x898, 0x8e1); (0x8e3, 0x983); (0x985, 0x98c);
   (0x98f, 0x990); (0x993, 0x9a8); (0x9aa, 0x9b0); (0x9b2, 0x9b2);
   (0x9b6, 0x9b9); (0x9bc, 0x9c4); (0x9c7, 0x9c8); (0x9cb, 0x9ce);
   (0x9d7, 0x9d7); (0x9dc, 0x9dd); (0x9df, 0x9e3); (0x9e6, 0x9fe);
   (0xa01, 0xa03); (0xa05, 0xa0a); (0xa0f, 0xa10); (0xa13, 0xa28);
   (0xa2a, 0xa30); (0xa32, 0xa33); (0xa35, 0xa36); (0xa38, 0xa39);
   (0xa3c, 0xa3c); (0xa3e, 0xa42); (0xa47, 0xa48); (0xa4b, 0xa4d);
   (0xa51, 0xa51); (0xa59, 0xa5c); (0xa5e, 0xa5e); (0xa66, 0xa76);
   (0xa81, 0xa83); (0xa85, 0xa8d); (0xa8f, 0xa91); (0xa93, 0xaa8);
   (0xaaa, 0xab0); (0xab2, 0xab3); (0xab5, 0xab9); (0xabc, 0xac5);
   (0xac7, 0xac9); (0xacb, 0xacd); (0xad0, 0xad0); (0xae0, 0xae3);
   (0xae6, 0xaf1); (0xaf9, 0xaff); (0xb01, 0xb03); (0xb05, 0xb0c);
   (0xb0f, 0xb10); (0xb13, 0xb28); (0xb2a, 0xb30); (0xb32, 0xb33);
   (0xb35, 0xb39); (0xb3c, 0xb44); (0xb47, 0xb48); (0xb4b, 0xb4d);
   (0xb55, 0xb57); (0xb5c, 0xb5d); (0xb5f, 0xb63); (0xb66, 0xb77);
   (0xb82, 0xb83); (0xb85, 0xb8a); (0xb8e, 0xb90); (0xb92, 0xb95);
   (0xb99, 0xb9a); (0xb9c, 0xb9c); (0xb9e, 0xb9f); (0xba3, 0xba4);
   (0xba8, 0xbaa); (0xbae, 0xbb9); (0xbbe, 0xbc2); (0xbc6, 0xbc8);
   (0xbca, 0xbcd); (0xbd0, 0xbd0); (0xbd7, 0xbd7); (0xbe6, 0xbfa);
   (0xc00, 0xc0c); (0xc0e, 0xc10); (0xc12, 0xc28); (0xc2a, 0xc39);
   (0xc3c, 0xc44); (0xc46, 0xc48); (0xc4a, 0xc4d); (0xc55, 0xc56);
   (0xc58, 0xc5a); (0xc5d, 0xc5d); (0xc60, 0xc63); (0xc66, 0xc6f);
   (0xc77, 0xc8c); (0xc8e, 0xc90); (0xc92, 0xca8); (0xcaa, 0xcb3);
   (0xcb5, 0xcb9); (0xcbc, 0xcc4); (0xcc6, 0xcc8); (0xcca, 0xccd);
   (0xcd5, 0xcd6); (0xcdd, 0xcde); (0xce0, 0xce3); (0xce6, 0xcef);
   (0xcf1, 0xcf2); (0xd00, 0xd0c); (0xd0e, 0xd10); (0xd12, 0xd44);
   (0xd46, 0xd48); (0xd4a, 0xd4f); (0xd54, 0xd63); (0xd66, 0xd7f);
   (0xd81, 0xd83); (0xd85, 0xd96); (0xd9a, 0xdb1); (0xdb3, 0xdbb);
   (0xdbd, 0xdbd); (0xdc0, 0xdc6); (0xdca, 0xdca); (0xdcf, 0xdd4);
   (0xdd6, 0xdd6); (0xdd8, 0xddf); (0xde6, 0xdef); (0xdf2, 0xdf4);
   (0xe01, 0xe3a); (0xe3f, 0xe5b); (0xe81, 0xe82); (0xe84, 0xe84);
   (0xe86, 0xe8a); (0xe8c, 0xea3); (0xea5, 0xea5); (0xea7, 0xebd);
   (0xec0, 0xec4); (0xec6, 0xec6); (0xec8, 0xecd); (0xed0, 0xed9);
   (0xedc, 0xedf); (0xf00, 0xf47); (0xf49, 0xf6c); (0xf71, 0xf97);
   (0xf99, 0xfbc); (0xfbe, 0xfcc); (0xfce, 0xfda); (0x1000, 0x10c5);
   (0x10c7, 0x10c7); (0x10cd, 0x10cd); (0x10d0, 0x1248); (0x124a, 0x124d);
   (0x1250, 0x1256); (0x1258, 0x1258); (0x125a, 0x125d); (0x1260, 0x1288);
   (0x128a, 0x128d); (0x1290, 0x12b0); (0x12b2, 0x12b5); (0x12b8, 0x12be);
   (0x12c0, 0x12c0); (0x12c2, 0x12c5); (0x12c8, 0x12d6); (0x12d8, 0x1310);
   (0x1312, 0x1315); (0x1318, 0x135a); (0x135d, 0x137c); (0x1380, 0x1399);
   (0x13a0, 0x13f5); (0x13f8, 0x13fd); (0x1400, 0x167f); (0x1681, 0x169c);
   (0x16a0, 0x16f8); (0x1700, 0x1715); (0x171f, 0x1736); (0x1740, 0x1753);
   (0x1760, 0x176c); (0x176e, 0x1770); (0x1772, 0x1773); (0x1780, 0x17dd);
   (0x17e0, 0x17e9); (0x17f0, 0x17f9); (0x1800, 0x180d); (0x180f, 0x1819);
   (0x1820, 0x1878); (0x1880, 0x18aa); (0x18b0, 0x18f5); (0x1900, 0x191e);
   (0x1920, 0x192b); (0x1930, 0x193b); (0x1940, 0x1940); (0x1944, 0x196d);
   (0x1970, 0x1974); (0x1980, 0x19ab); (0x19b0, 0x19c9); (0x19d0, 0x19da);
   (0x19de, 0x1a1b); (0x1a1e, 0x1a5e); (0x1a60, 0x1a7c); (0x1a7f, 0x1a89);
   (0x1a90, 0x1a99); (0x1aa0, 0x1aad); (0x1ab0, 0x1ace); (0x1b00, 0x1b4c);
   (0x1b50, 0x1b7e); (0x1b80, 0x1bf3); (0x1bfc, 0x1c37); (0x1c3b, 0x1c49);
   (0x1c4d, 0x1c88); (0x1c90, 0x1cba); (0x1cbd, 0x1cc7); (0x1cd0, 0x1cfa);
   (0x1d00, 0x1f15); (0x1f18, 0x1f1d); (0x1f20, 0x1f45); (0x1f48, 0x1f4d);
   (0x1f50, 0x1f57); (0x1f59, 0x1f59); (0x1f5b, 0x1f5b); (0x1f5d, 0x1f5d);
   (0x1f5f, 0x1f7d); (0x1f80, 0x1fb4); (0x1fb6, 0x1fc4); (0x1fc6, 0x1fd3);
   (0x1fd6, 0x1fdb); (0x1fdd, 0x1fef); (0x1ff2, 0x1ff4); (0x1ff6, 0x1ffe);
   (0x2010, 0x2027); (0x2030, 0x205e); (0x2070, 0x2071); (0x2074, 0x208e);
   (0x2090, 0x209c); (0x20a0, 0x20c0); (0x20d0, 0x20f0); (0x2100, 0x218b);
   (0x2190, 0x2426); (0x2440, 0x244a); (0x2460, 0x2b73); (0x2b76, 0x2b95);
   (0x2b97, 0x2cf3); (0x2cf9, 0x2d25); (0x2d27, 0x2d27); (0x2d2d, 0x2d2d);
   (0x2d30, 0x2d67); (0x2d6f, 0x2d70); (0x2d7f, 0x2d96); (0x2da0, 0x2da6);
   (0x2da8, 0x2dae); (0x2db0, 0x2db6); (0x2db8, 0x2dbe); (0x2dc0, 0x2dc6);
   (0x2dc8, 0x2dce); (0x2dd0, 0x2dd6); (0x2dd8, 0x2dde); (0x2de0, 0x2e5d);
   (0x2e80, 0x2e99); (0x2e9b, 0x2ef3); (0x2f00, 0x2fd5); (0x2ff0, 0x2ffb);
   (0x3001, 0x303f); (0x3041, 0x3096); (0x3099, 0x30ff); (0x3105, 0x312f);
   (0x3131, 0x318e); (0x3190, 0x31e3); (0x31f0, 0x321e); (0x3220, 0xa48c);
   (0xa490, 0xa4c6); (0xa4d0, 0xa62b); (0xa640, 0xa6f7); (0xa700, 0xa7ca);
   (0xa7d0, 0xa7d1); (0xa7d3, 0xa7d3); (0xa7d5, 0xa7d9); (0xa7f2, 0xa82c);
   (0xa830, 0xa839); (0xa840, 0xa877); (0xa880, 0xa8c5); (0xa8ce, 0xa8d9);
   (0xa8e0, 0xa953); (0xa95f, 0xa97c); (0xa980, 0xa9cd); (0xa9cf, 0xa9d9);
   (0xa9de, 0xa9fe); (0xaa00, 0xaa36); (0xaa40, 0xaa4d); (0xaa50, 0xaa59);
   (0xaa5c, 0xaac2); (0xaadb, 0xaaf6); (0xab01, 0xab06); (0xab09, 0xab0e);
   (0xab11, 0xab16); (0xab20, 0xab26); (0xab28, 0xab2e); (0xab30, 0xab6b);
   (0xab70, 0xabed); (0xabf0, 0xabf9); (0xac00, 0xd7a3); (0xd7b0, 0xd7c6);
   (0xd7cb, 0xd7fb); (0xf900, 0xfa6d); (0xfa70, 0xfad9); (0xfb00, 0xfb06);
   (0xfb13, 0xfb17); (0xfb1d, 0xfb36); (0xfb38, 0xfb3c); (0xfb3e, 0xfb3e);
   (0xfb40, 0xfb41); (0xfb43, 0xfb44); (0xfb46, 0xfbc2); (0xfbd3, 0xfd8f);
   (0xfd92, 0xfdc7); (0xfdcf, 0xfdcf); (0xfdf0, 0xfe19); (0xfe20, 0xfe52);
   (0xfe54, 0xfe66); (0xfe68, 0xfe6b); (0xfe70, 0xfe74); (0xfe76, 0xfefc);
   (0xff01, 0xffbe); (0xffc2, 0xffc7); (0xffca, 0xffcf); (0xffd2, 0xffd7);
   (0xffda, 0xffdc); (0xffe0, 0xffe6); (0xffe8, 0xffee); (0xfffc, 0xfffd);
   (0x10000, 0x1000b); (0x1000d, 0x10026); (0x10028, 0x1003a);
   (0x1003c, 0x1003d); (0x1003f, 0x1004d); (0x10050, 0x1005d);
   (0x10080, 0x100fa); (0x10100, 0x10102); (0x10107, 0x10133);
   (0x10137, 0x1018e); (0x10190, 0x1019c); (0x101a0, 0x101a0);
   (0x101d0, 0x101fd); (0x10280, 0x1029c); (0x102a0, 0x102d0);
   (0x102e0, 0x102fb); (0x10300, 0x10323); (0x1032d, 0x1034a);
   (0x10350, 0x1037a); (0x10380, 0x1039d); (0x1039f, 0x103c3);
   (0x103c8, 0x103d5); (0x10400, 0x1049d); (0x104a0, 0x104a9);
   (0x104b0, 0x104d3); (0x104d8, 0x104fb); (0x10500, 0x10527);
   (0x10530, 0x10563); (0x1056f, 0x1057a); (0x1057c, 0x1058a);
   (0x1058c, 0x10592); (0x10594, 0x10595); (0x10597, 0x105a1);
   (0x105a3, 0x105b1); (0x105b3, 0x105b9); (0x105bb, 0x105bc);
   (0x10600, 0x10736); (0x10740, 0x10755); (0x10760, 0x10767);
   (0x10780, 0x10785); (0x10787, 0x107b0); (0x107b2, 0x107ba);
   (0x10800, 0x10805); (0x10808, 0x10808); (0x1080a, 0x10835);
   (0x10837, 0x10838); (0x1083c, 0x1083c); (0x1083f, 0x10855);
   (0x10857, 0x1089e); (0x108a7, 0x108af); (0x108e0, 0x108f2);
   (0x108f4, 0x108f5); (0x108fb, 0x1091b); (0x1091f, 0x10939);
   (0x1093f, 0x1093f); (0x10980, 0x109b7); (0x109bc, 0x109cf);
   (0x109d2, 0x10a03); (0x10a05, 0x10a06); (0x10a0c, 0x10a13);
   (0x10a15, 0x10a17); (0x10a19, 0x10a35); (0x10a38, 0x10a3a);
   (0x10a3f, 0x10a48); (0x10a50, 0x10a58); (0x10a60, 0x10a9f);
   (0x10ac0, 0x10ae6); (0x10aeb, 0x10af6); (0x10b00, 0x10b35);
   (0x10b39, 0x10b55); (0x10b58, 0x10b72); (0x10b78, 0x10b91);
   (0x10b99, 0x10b9c); (0x10ba9, 0x10baf); (0x10c00, 0x10c48);
   (0x10c80, 0x10cb2); (0x10cc0, 0x10cf2); (0x10cfa, 0x10d27);
   (0x10d30, 0x10d39); (0x10e60, 0x10e7e); (0x10e80, 0x10ea9);
   (0x10eab, 0x10ead); (0x10eb0, 0x10eb1); (0x10f00, 0x10f27);
   (0x10f30, 0x10f59); (0x10f70, 0x10f89); (0x10fb0, 0x10fcb);
   (0x10fe0, 0x10ff6); (0x11000, 0x1104d); (0x11052, 0x11075);
   (0x1107f, 0x110bc); (0x110be, 0x110c2); (0x110d0, 0x110e8);
   (0x110f0, 0x110f9); (0x11100, 0x11134); (0x11136, 0x11147);
   (0x11150, 0x11176); (0x11180, 0x111df); (0x111e1, 0x111f4);
   (0x11200, 0x11211); (0x11213, 0x1123e); (0x11280, 0x11286);
   (0x11288, 0x11288); (0x1128a, 0x1128d); (0x1128f, 0x1129d);
   (0x1129f, 0x112a9); (0x112b0, 0x112ea); (0x112f0, 0x112f9);
   (0x11300, 0x11303); (0x11305, 0x1130c); (0x1130f, 0x11310);
   (0x11313, 0x11328); (0x1132a, 0x11330); (0x11332, 0x11333);
   (0x11335, 0x11339); (0x1133b, 0x11344); (0x11347, 0x11348);
   (0x1134b, 0x1134d); (0x11350, 0x11350); (0x11357, 0x11357);
   (0x1135d, 0x11363); (0x11366, 0x1136c); (0x11370, 0x11374);
   (0x11400, 0x1145b); (0x1145d, 0x11461); (0x11480, 0x114c7);
   (0x114d0, 0x114d9); (0x11580, 0x115b5); (0x115b8, 0x115dd);
   (0x11600, 0x11644); (0x11650, 0x11659); (0x11660, 0x1166c);
   (0x11680, 0x116b9); (0x116c0, 0x116c9); (0x11700, 0x1171a);
   (0x1171d, 0x1172b); (0x11730, 0x11746); (0x11800, 0x1183b);
   (0x118a0, 0x118f2); (0x118ff, 0x11906); (0x11909, 0x11909);
   (0x1190c, 0x11913); (0x11915, 0x11916); (0x11918, 0x11935);
   (0x11937, 0x11938); (0x1193b, 0x11946); (0x11950, 0x11959);
   (0x119a0, 0x119a7); (0x119aa, 0x119d7); (0x119da, 0x119e4);
   (0x11a00, 0x11a47); (0x11a50, 0x11aa2); (0x11ab0, 0x11af8);
   (0x11c00, 0x11c08); (0x11c0a, 0x11c36); (0x11c38, 0x11c45);
   (0x11c50, 0x11c6c); (0x11c70, 0x11c8f); (0x11c92, 0x11ca7);
   (0x11ca9, 0x11cb6); (0x11d00, 0x11d06); (0x11d08, 0x11d09);
   (0x11d0b, 0x11d36); (0x11d3a, 0x11d3a); (0x11d3c, 0x11d3d);
   (0x11d3f, 0x11d47); (0x11d50, 0x11d59); (0x11d60, 0x11d65);
   (0x11d67, 0x11d68); (0x11d6a, 0x11d8e); (0x11d90, 0x11d91);
   (0x11d93, 0x11d98); (0x11da0, 0x11da9); (0x11ee0, 0x11ef8);
   (0x11fb0, 0x11fb0); (0x11fc0, 0x11ff1); (0x11fff, 0x12399);
   (0x12400, 0x1246e); (0x12470, 0x12474); (0x12480, 0x12543);
   (0x12f90, 0x12ff2); (0x13000, 0x1342e); (0x14400, 0x14646);
   (0x16800, 0x16a38); (0x16a40, 0x16a5e); (0x16a60, 0x16a69);
   (0x16a6e, 0x16abe); (0x16ac0, 0x16ac9); (0x16ad0, 0x16aed);
   (0x16af0, 0x16af5); (0x16b00, 0x16b45); (0x16b50, 0x16b59);
   (0x16b5b, 0x16b61); (0x16b63, 0x16b77); (0x16b7d, 0x16b8f);
   (0x16e40, 0x16e9a); (0x16f00, 0x16f4a); (0x16f4f, 0x16f87);
   (0x16f8f, 0x16f9f); (0x16fe0, 0x16fe4); (0x16ff0, 0x16ff1);
   (0x17000, 0x187f7); (0x18800, 0x18cd5); (0x18d00, 0x18d08);
   (0x1aff0, 0x1aff3); (0x1aff5, 0x1affb); (0x1affd, 0x1affe);
   (0x1b000, 0x1b122); (0x1b150, 0x1b152); (0x1b164, 0x1b167);
   (0x1b170, 0x1b2fb); (0x1bc00, 0x1bc6a); (0x1bc70, 0x1bc7c);
   (0x1bc80, 0x1bc88); (0x1bc90, 0x1bc99); (0x1bc9c, 0x1bc9f);
   (0x1cf00, 0x1cf2d); (0x1cf30, 0x1cf46); (0x1cf50, 0x1cfc3);
   (0x1d000, 0x1d0f5); (0x1d100, 0x1d126); (0x1d129, 0x1d172);
   (0x1d17b, 0x1d1ea); (0x1d200, 0x1d245); (0x1d2e0, 0x1d2f3);
   (0x1d300, 0x1d356); (0x1d360, 0x1d378); (0x1d400, 0x1d454);
   (0x1d456, 0x1d49c); (0x1d49e, 0x1d49f); (0x1d4a2, 0x1d4a2);
   (0x1d4a5, 0x1d4a6); (0x1d4a9, 0x1d4ac); (0x1d4ae, 0x1d4b9);
   (0x1d4bb, 0x1d4bb); (0x1d4bd, 0x1d4c3); (0x1d4c5, 0x1d505);
   (0x1d507, 0x1d50a); (0x1d50d, 0x1d514); (0x1d516, 0x1d51c);
   (0x1d51e, 0x1d539); (0x1d53b, 0x1d53e); (0x1d540, 0x1d544);
   (0x1d546, 0x1d546); (0x1d54a, 0x1d550); (0x1d552, 0x1d6a5);
   (0x1d6a8, 0x1d7cb); (0x1d7ce, 0x1da8b); (0x1da9b, 0x1da9f);
   (0x1daa1, 0x1daaf); (0x1df00, 0x1df1e); (0x1e000, 0x1e006);
   (0x1e008, 0x1e018); (0x1e01b, 0x1e021); (0x1e023, 0x1e024);
   (0x1e026, 0x1e02a); (0x1e100, 0x1e12c); (0x1e130, 0x1e13d);
   (0x1e140, 0x1e149); (0x1e14e, 0x1e14f); (0x1e290, 0x1e2ae);
   (0x1e2c0, 0x1e2f9); (0x1e2ff, 0x1e2ff); (0x1e7e0, 0x1e7e6);
   (0x1e7e8, 0x1e7eb); (0x1e7ed, 0x1e7ee); (0x1e7f0, 0x1e7fe);
   (0x1e800, 0x1e8c4); (0x1e8c7, 0x1e8d6); (0x1e900, 0x1e94b);
   (0x1e950, 0x1e959); (0x1e95e, 0x1e95f); (0x1ec71, 0x1ecb4);
   (0x1ed01, 0x1ed3d); (0x1ee00, 0x1ee03); (0x1ee05, 0x1ee1f);
   (0x1ee21, 0x1ee22); (0x1ee24, 0x1ee24); (0x1ee27, 0x1ee27);
   (0x1ee29, 0x1ee32); (0x1ee34, 0x1ee37); (0x1ee39, 0x1ee39);
   (0x1ee3b, 0x1ee3b); (0x1ee42, 0x1ee42); (0x1ee47, 0x1ee47);
   (0x1ee49, 0x1ee49); (0x1ee4b, 0x1ee4b); (0x1ee4d, 0x1ee4f);
   (0x1ee51, 0x1ee52); (0x1ee54, 0x1ee54); (0x1ee57, 0x1ee57);
   (0x1ee59, 0x1ee59); (0x1ee5b, 0x1ee5b); (0x1ee5d, 0x1ee5d);
   (0x1ee5f, 0x1ee5f); (0x1ee61, 0x1ee62); (0x1ee64, 0x1ee64);
   (0x1ee67, 0x1ee6a); (0x1ee6c, 0x1ee72); (0x1ee74, 0x1ee77);
   (0x1ee79, 0x1ee7c); (0x1ee7e, 0x1ee7e); (0x1ee80, 0x1ee89);
   (0x1ee8b, 0x1ee9b); (0x1eea1, 0x1eea3); (0x1eea5, 0x1eea9);
   (0x1eeab, 0x1eebb); (0x1eef0, 0x1eef1); (0x1f000, 0x1f02b);
   (0x1f030, 0x1f093); (0x1f0a0, 0x1f0ae); (0x1f0b1, 0x1f0bf);
   (0x1f0c1, 0x1f0cf); (0x1f0d1, 0x1f0f5); (0x1f100, 0x1f1ad);
   (0x1f1e6, 0x1f202); (0x1f210, 0x1f23b); (0x1f240, 0x1f248);
   (0x1f250, 0x1f251); (0x1f260, 0x1f265); (0x1f300, 0x1f6d7);
   (0x1f6dd, 0x1f6ec); (0x1f6f0, 0x1f6fc); (0x1f700, 0x1f773);
   (0x1f780, 0x1f7d8); (0x1f7e0, 0x1f7eb); (0x1f7f0, 0x1f7f0);
   (0x1f800, 0x1f80b); (0x1f810, 0x1f847); (0x1f850, 0x1f859);
   (0x1f860, 0x1f887); (0x1f890, 0x1f8ad); (0x1f8b0, 0x1f8b1);
   (0x1f900, 0x1fa53); (0x1fa60, 0x1fa6d); (0x1fa70, 0x1fa74);
   (0x1fa78, 0x1fa7c); (0x1fa80, 0x1fa86); (0x1fa90, 0x1faac);
   (0x1fab0, 0x1faba); (0x1fac0, 0x1fac5); (0x1fad0, 0x1fad9);
   (0x1fae0, 0x1fae7); (0x1faf0, 0x1faf6); (0x1fb00, 0x1fb92);
   (0x1fb94, 0x1fbca); (0x1fbf0, 0x1fbf9); (0x20000, 0x2a6df);
   (0x2a700, 0x2b738); (0x2b740, 0x2b81d); (0x2b820, 0x2cea1);
   (0x2ceb0, 0x2ebe0); (0x2f800, 0x2fa1d); (0x30000, 0x3134a);
   (0xe0100, 0xe01ef)
  ])%N.

Definition in_range (c : N) (r : N * N) : bool :=
  ((fst r <=? c) && (c <=? snd r))%N.

Definition isprintable (c : N) : bool :=
  if (c <? 0x80)%N then (32 <=? c)%N && (c <? 127)%N
  else existsb (in_range c) PRINTABLE_RANGES.

(** ** [repr] of a string

    [repr] picks the quote (a double quote when the string holds a single
    quote and no double quote), then escapes character by character: the
    quote and the backslash with a backslash; TAB, LF and CR by letter; the
    other ASCII controls as [\x] and two digits of ["0123456789abcdef"];
    the other ASCII characters as they are; beyond ASCII a printable
    character as it is, and one that is not printable as [\x] and two
    digits, [\u] and four or [\U] and eight, by its size. *)

Module Repr.

Definition hexdigit (n : N) : N :=
  nth (N.to_nat n) (ustr "0123456789abcdef") 48%N.

(** [width] digits, the most significant first. *)
Fixpoint hex (width : nat) (c : N) : text :=
  match width with
  | O => []
  | S w => hex w (c / 16) ++ [hexdigit (c mod 16)]
  end.

Definition quote_of (s : text) : N :=
  if existsb (N.eqb squote) s && negb (existsb (N.eqb dquote) s)
  then dquote else squote.

Definition escape (quote c : N) : text :=
  (if (c =? quote) || (c =? backslash) then [backslash; c]
   else if c =? tab then ustr "\t"
   else if c =? lf then ustr "\n"
   else if c =? cr then ustr "\r"
   else if (c <? 32) || (c =? 127) then ustr "\x" ++ hex 2 c
   else if c <? 127 then [c]
   else if negb (isprintable c) then
     if c <=? 0xff then ustr "\x" ++ hex 2 c
     else if c <=? 0xffff then ustr "\u" ++ hex 4 c
     else ustr "\U" ++ hex 8 c
   else [c])%N.

Definition repr (s : text) : text :=
  let quote := quote_of s in
  quote :: flat_map (escape quote) s ++ [quote].

End Repr.

(** ** The literal encoder as the specification words it

    Section 4.1: on bytes; printable bytes verbatim, the single quote and
    the backslash behind a backslash, every other byte as [\xHH] in upper
    case, the whole between single quotes.  A string is encoded as UTF-8
    first. *)

Module Spec.

Definition HEXDIGIT (n : N) : byte :=
  nth (N.to_nat n) (bstr "0123456789ABCDEF") "0"%byte.

Definition encode_byte (c : byte) : bytes :=
  if Byte.eqb c SQUOTE || Byte.eqb c BACKSLASH then [BACKSLASH; c]
  else if (32 <=? Byte.to_N c)%N && (Byte.to_N c <=? 126)%N then [c]
  else [BACKSLASH; "x"%byte;
        HEXDIGIT (Byte.to_N c / 16); HEXDIGIT (Byte.to_N c mod 16)].

Definition encode_literal (s : bytes) : bytes :=
  SQUOTE :: flat_map encode_byte s ++ [SQUOTE].

End Spec.

(** ** Reading a literal back

    Reversing the escapes of a quoted literal, as a reader of Python
    literals does. *)

Module Literal.

Definition hexval (c : N) : option N :=
  (if (48 <=? c) && (c <=? 57) then Some (c - 48)
   else if (97 <=? c) && (c <=? 102) then Some (c - 87)
   else if (65 <=? c) && (c <=? 70) then Some (c - 55)
   else None)%N.

Definition lower_hex (c : N) : bool :=
  (((48 <=? c) && (c <=? 57)) || ((97 <=? c) && (c <=? 102)))%N.

(** The number the digits spell, continuing from [acc]. *)
Fixpoint hex_value (acc : N) (digits : text) : option N :=
  match digits with
  | [] => Some acc
  | d :: r =>
    match hexval d with
    | Some v => hex_value (16 * acc + v) r
    | None => None
    end
  end.

(** The number of digits after [\x], [\u] and [\U]. *)
Definition hex_width (e : N) : option nat :=
  (if e =? 120 then Some 2%nat
   else if e =? 117 then Some 4%nat
   else if e =? 85 then Some 8%nat
   else None)%N.

Definition take_hex (width : nat) (l : text) : option (N * text) :=
  if (width <=? length l)%nat then
    match hex_value 0 (firstn width l) with
    | Some v => Some (v, skipn width l)
    | None => None
    end
  else None.

Definition unescape1 (e : N) : option N :=
  (if e =? 116 then Some tab
   else if e =? 110 then Some lf
   else if e =? 114 then Some cr
   else if (e =? backslash) || (e =? squote) || (e =? dquote) then Some e
   else None)%N.

(** The body of a literal opened by [quote], up to the closing quote, which
    must be the last character; [fuel] bounds the number of characters
    read back. *)
Fixpoint unescape (fuel : nat) (quote : N) (l : text) : option text :=
  match fuel with
  | O => None
  | S fuel' =>
    match l with
    | [] => None
    | c :: rest =>
      if (c =? backslash)%N then
        match rest with
        | [] => None
        | e :: rest1 =>
          match hex_width e with
          | Some width =>
            match take_hex width rest1 with
            | Some (v, rest2) =>
              match unescape fuel' quote rest2 with
              | Some s => Some (v :: s)
              | None => None
              end
            | None => None
            end
          | None =>
            match unescape1 e, unescape fuel' quote rest1 with
            | Some b, Some s => Some (b :: s)
            | _, _ => None
            end
          end
        end
      else if (c =? quote)%N then
        match rest with [] => Some [] | _ :: _ => None end
      else
        match unescape fuel' quote rest with
        | Some s => Some (c :: s)
        | None => None
        end
    end
  end.

Definition read_literal (l : text) : option text :=
  match l with
  | [] => None
  | q :: body =>
    if ((q =? squote) || (q =? dquote))%N
    then unescape (length body) q body
    else None
  end.

End Literal.

(** ** Text: [int], [partition], [str] of an integer *)

Definition text_eqb (a b : text) : bool := bool_decide (a = b).
Definition bytes_eqb (a b : bytes) : bool := bool_decide (a = b).

Definition is_space (c : N) : bool :=
  ((c =? 32) || ((9 <=? c) && (c <=? 13)))%N.

Fixpoint lstrip (t : text) : text :=
  match t with
  | [] => []
  | c :: r => if is_space c then lstrip r else t
  end.

Definition strip (t : text) : text := rev (lstrip (rev (lstrip t))).

Fixpoint digits_value (acc : Z) (t : text) : option Z :=
  match t with
  | [] => Some acc
  | c :: r =>
    if ((48 <=? c) && (c <=? 57))%N
    then digits_value (10 * acc + Z.of_N (c - 48)) r
    else None
  end.

(** [int(t)] on the decimal text the device prints: surrounding ASCII white
    space, an optional sign, at least one ASCII digit.  Whenever [py_int]
    gives an integer, that is the integer [int] returns.  The builtin takes
    more - the Unicode spaces and decimal digits, an underscore between two
    digits - and for such text [py_int] gives [None] where [int] returns.
    The statements below use [py_int] where it gives an integer; they take
    [None] for the [ValueError] only of text without any digit
    ([no_digit]) and of the empty text. *)
Definition py_int (t : text) : option Z :=
  let '(sign, ds) :=
    match strip t with
    | c :: r =>
      if (c =? 45)%N then (-1, r)
      else if (c =? 43)%N then (1, r)
      else (1, c :: r)
    | [] => (1, [])
    end in
  match ds with
  | [] => None
  | _ :: _ =>
    match digits_value 0 ds with
    | Some v => Some (sign * v)
    | None => None
    end
  end.

(** [t.partition(sep)] for a one-character separator. *)
Fixpoint partition (sep : N) (t : text) : text * text * text :=
  match t with
  | [] => ([], [], [])
  | c :: r =>
    if (c =? sep)%N then ([], [sep], r)
    else let '(before, s, after) := partition sep r in (c :: before, s, after)
  end.

(** [str(n)] of an integer, in decimal. *)
Fixpoint pos_digits (fuel : nat) (n : N) (acc : text) : text :=
  match fuel with
  | O => acc
  | S fuel' =>
    let d := Repr.hexdigit (n mod 10) in
    if (n <? 10)%N then d :: acc else pos_digits fuel' (n / 10) (d :: acc)
  end.

Definition str_of_int (z : Z) : text :=
  let n := Z.to_N (Z.abs z) in
  let ds := pos_digits (S (N.to_nat (N.log2 n))) n [] in
  if z <? 0 then 45%N :: ds else ds.

(** ** The serial port and the outcome of a method *)

(** The exceptions the session raises.  An [IOError] carries the message
    template of the source and the values formatted into it (through
    [repr]): ["Write failed! (Return value: {})"] carries the response. *)
Inductive exn : Type :=
| IOError (template : string) (args : list text)
| ValueError
| UnicodeDecodeError
| UnicodeEncodeError
| AttributeError.

Inductive outcome (A : Type) : Type :=
| Ok (a : A)
| Raise (e : exn)
| Blocked.
Arguments Ok {A} a.
Arguments Raise {A} e.
Arguments Blocked {A}.

(** [in_buf]: the bytes the device delivers, in order; [sent]: the payloads
    of the [write] calls so far, oldest first. *)
Record serial : Type := Serial { in_buf : bytes; sent : list bytes }.

Definition M (A : Type) : Type := serial -> outcome A * serial.

Definition ret {A} (a : A) : M A := fun s => (Ok a, s).

Definition bind {A B} (c : M A) (k : A -> M B) : M B :=
  fun s =>
    match c s with
    | (Ok a, s') => k a s'
    | (Raise e, s') => (Raise e, s')
    | (Blocked, s') => (Blocked, s')
    end.

Definition raise {A} (e : exn) : M A := fun s => (Raise e, s).
Definition blocked {A} : M A := fun s => (Blocked, s).

Notation "x <- c ;; k" := (bind c (fun x => k))
  (at level 60, c at next level, right associativity).

(** A loop that waits on the device, bounded by the bytes still to come. *)
Definition bounded {A} (loop : nat -> M A) : M A :=
  fun s => loop (S (length (in_buf s))) s.

(** [try: c  except UnicodeDecodeError: pass] *)
Definition except_UnicodeDecodeError_pass (c : M unit) : M unit :=
  fun s =>
    match c s with
    | (Raise UnicodeDecodeError, s') => (Ok tt, s')
    | r => r
    end.

(** [self.serial.read(n)]: the next [n] bytes; with fewer to come the call
    never returns. *)
Definition serial_read (n : Z) : M bytes :=
  fun s =>
    let k := Z.to_nat n in
    if (k <=? length (in_buf s))%nat
    then (Ok (firstn k (in_buf s)), Serial (skipn k (in_buf s)) (sent s))
    else (Blocked, s).

(** [self.serial.write(data)] *)
Definition serial_write (data : bytes) : M Z :=
  fun s => (Ok (Z.of_nat (length data)), Serial (in_buf s) (sent s ++ [data])).

(** What a caller may pass where a string is expected. *)
Inductive pyobj : Type :=
| PyStr (s : text)
| PySet (items : list text).

Definition is_ascii (c : byte) : bool := (Byte.to_N c <? 128)%N.

(** [s.encode("utf-8")] of a string: a surrogate cannot be encoded. *)
Definition str_encode (s : text) : M bytes :=
  if forallb encodable s then ret (utf8 s) else raise UnicodeEncodeError.

(** [o.encode("utf-8")]: a set has no such method. *)
Definition encode (o : pyobj) : M bytes :=
  match o with
  | PyStr s => str_encode s
  | PySet _ => raise AttributeError
  end.

(** [data.decode("utf-8")] *)
Definition decode (data : bytes) : M text :=
  match utf8_decode data with
  | Some t => ret t
  | None => raise UnicodeDecodeError
  end.

(** [int(t)] *)
Definition int (t : text) : M Z :=
  match py_int t with
  | Some z => ret z
  | None => raise ValueError
  end.

(** ** The session: [class NodeMCU] *)

(** [while data[-2:] != line_ending: data += self.serial.read(1)] *)
Fixpoint read_line_loop (fuel : nat) (line_ending data : bytes) : M bytes :=
  if bytes_eqb (slice_from data (-2)) line_ending then ret data
  else
    match fuel with
    | O => blocked
    | S fuel' =>
      c <- serial_read 1 ;;
      read_line_loop fuel' line_ending (data ++ c)
    end.

Definition read_line (line_ending : pyobj) : M text :=
  let data := [] in
  line_ending <- encode line_ending ;;
  data <- bounded (fun fuel => read_line_loop fuel line_ending data) ;;
  decode (slice_to data (-2)).

Definition send_command (cmd : text) : M unit :=
  cmd <- str_encode (cmd ++ crlf) ;;
  _ <- serial_write cmd ;;
  _ <- read_line (PyStr crlf) ;;
  ret tt.

(** The prompt of the shell, as the device sends it. *)
Definition PROMPT : bytes := bstr "> ".

(** [while data: ...] of [write_file] *)
Fixpoint write_file_loop (fuel : nat) (data : text) (block_size : Z) : M unit :=
  match data with
  | [] => ret tt
  | _ :: _ =>
    match fuel with
    | O => blocked
    | S fuel' =>
      let block := slice_to data block_size in
      let data := slice_from data block_size in
      _ <- send_command (ustr "=file.write(" ++ Repr.repr block ++ ustr ")") ;;
      response <- read_line (PyStr crlf) ;;
      if negb (text_eqb response (ustr "true"))
      then raise (IOError "Write failed! (Return value: {})" [response])
      else write_file_loop fuel' data block_size
    end
  end.

Definition write_file (filename data : text) (block_size : Z) : M unit :=
  _ <- send_command (ustr "file.close()") ;;
  _ <- send_command (ustr "=file.open(" ++ Repr.repr filename ++ ustr ", 'w')") ;;
  opened <- read_line (PyStr crlf) ;;
  if text_eqb opened (ustr "nil")
  then raise (IOError "Could not open file for writing!" [])
  else
    _ <- bounded (fun fuel => write_file_loop fuel data block_size) ;;
    send_command (ustr "file.close()").

(** [while size: ...] of [read_file] *)
Fixpoint read_file_loop (fuel : nat) (size block_size : Z) (data : bytes)
  : M bytes :=
  if size =? 0 then ret data
  else
    match fuel with
    | O => blocked
    | S fuel' =>
      let block := Z.max size block_size in
      let size := size - block in
      _ <- send_command
             (ustr "uart.write(0, file.read(" ++ str_of_int block
              ++ ustr "))") ;;
      chunk <- serial_read block ;;
      read_file_loop fuel' size block_size (data ++ chunk)
    end.

Definition read_file (filename : text) (block_size : Z) : M text :=
  _ <- send_command (ustr "file.close()") ;;
  _ <- send_command (ustr "=file.list()[" ++ Repr.repr filename ++ ustr "]") ;;
  size <- read_line (PyStr crlf) ;;
  if text_eqb size (ustr "nil")
  then raise (IOError "File does not exist!" [])
  else
    size <- int size ;;
    _ <- send_command (ustr "=file.open(" ++ Repr.repr filename ++ ustr ", 'r')") ;;
    opened <- read_line (PyStr crlf) ;;
    if negb (text_eqb opened (ustr "true"))
    then raise (IOError "Could not open file!" [])
    else
      data <- bounded (fun fuel => read_file_loop fuel size block_size []) ;;
      decode data.

Definition COUNT_FILES : text :=
  ustr "do local cnt = 0;" ++ ustr "for k, v in pairs(file.list()) do"
  ++ ustr "    cnt = cnt + 1 end;" ++ ustr "    print(cnt);" ++ ustr "end".

Definition PRINT_FILES : text :=
  ustr "for f,s in pairs(file.list()) do" ++ ustr "    print(#f, f, s);"
  ++ ustr "end".

(** [for file in range(num_files): ...] of [list_files] *)
Fixpoint list_files_loop (n : nat) (files : gmap text Z) : M (gmap text Z) :=
  match n with
  | O => ret files
  | S n' =>
    line <- read_line (PyStr crlf) ;;
    let '(filename_length, _, line) := partition tab line in
    filename_length <- int filename_length ;;
    let filename := slice_to line filename_length in
    size <- int (slice_from line (filename_length + 1)) ;;
    list_files_loop n' (<[filename := size]> files)
  end.

Definition list_files : M (gmap text Z) :=
  _ <- send_command COUNT_FILES ;;
  num_files <- read_line (PyStr crlf) ;;
  num_files <- int num_files ;;
  _ <- send_command PRINT_FILES ;;
  list_files_loop (Z.to_nat num_files) ∅.

Definition dofile (filename : text) : M text :=
  _ <- send_command (ustr "=file.list()[" ++ Repr.repr filename ++ ustr "]") ;;
  exists_ <- read_line (PyStr crlf) ;;
  if text_eqb exists_ (ustr "nil")
  then raise (IOError "File does not exist!" [])
  else
    _ <- send_command (ustr "dofile(" ++ Repr.repr filename ++ ustr ")") ;;
    read_line (PySet [ustr "> "]).

Definition restart : M unit :=
  _ <- send_command (ustr "node.restart()") ;;
  _ <- read_line (PyStr (ustr "> ")) ;;
  except_UnicodeDecodeError_pass (_ <- read_line (PyStr (ustr "> ")) ;; ret tt).

(** ** Vocabulary of the statements *)

(** [occurs a b l]: the two bytes [a], [b] stand next to each other in [l]. *)
Fixpoint occurs (a b : byte) (l : bytes) : bool :=
  match l with
  | [] => false
  | x :: r =>
    match r with
    | [] => false
    | y :: _ => (Byte.eqb x a && Byte.eqb y b) || occurs a b r
    end
  end.

(** A line the device sends before the terminator [a; b]: the terminator
    does not show up earlier, not even across the line's end. *)
Definition clean (a b : byte) (line : bytes) : bool :=
  negb (occurs a b (line ++ [a])).

(** A clean line that is valid UTF-8. *)
Definition framed (a b : byte) (line : bytes) : bool :=
  clean a b line && bool_decide (utf8_decode line <> None).

(** The characters of a string are code points: none is above U+10FFFF. *)
Definition code_points (s : text) : bool :=
  forallb (fun c => (c <=? 0x10FFFF)%N) s.

(** The quote [repr] puts around [s]. *)
Definition quote_rule (s : text) (q : N) : Prop :=
  (In squote s /\ ~ In dquote s -> q = dquote) /\
  (~ (In squote s /\ ~ In dquote s) -> q = squote).

(** [width] lower-case hex digits that spell [c]. *)
Definition spells (width : nat) (c : N) (digits : text) : Prop :=
  length digits = width /\
  forallb Literal.lower_hex digits = true /\
  Literal.hex_value 0 digits = Some c.

(** How [repr] renders one character between quotes [quote]. *)
Inductive rendered (quote c : N) : text -> Prop :=
| rendered_verbatim :
    isprintable c = true -> c <> quote -> c <> backslash ->
    rendered quote c [c]
| rendered_backslash :
    c = quote \/ c = backslash -> rendered quote c [backslash; c]
| rendered_tab : c = tab -> rendered quote c (ustr "\t")
| rendered_lf : c = lf -> rendered quote c (ustr "\n")
| rendered_cr : c = cr -> rendered quote c (ustr "\r")
| rendered_x digits :
    isprintable c = false -> c <> tab -> c <> lf -> c <> cr ->
    (c <= 0xff)%N -> spells 2 c digits ->
    rendered quote c (ustr "\x" ++ digits)
| rendered_u digits :
    isprintable c = false -> (0xff < c <= 0xffff)%N -> spells 4 c digits ->
    rendered quote c (ustr "\u" ++ digits)
| rendered_U digits :
    isprintable c = false -> (0xffff < c)%N -> spells 8 c digits ->
    rendered quote c (ustr "\U" ++ digits).

(** A character that is printable and not ASCII. *)
Definition wide (c : N) : bool := (0x80 <=? c)%N && isprintable c.

(** Text that holds no digit, and ASCII only: [int] refuses it whatever
    else it holds. *)
Definition no_digit (t : text) : bool :=
  forallb (fun c => (c <? 0x80)%N && negb ((48 <=? c)%N && (c <=? 57)%N)) t.

(** ** Scripted ports

    A port that delivers the given pieces one after the other and has
    nothing written to it yet; the scripts are those of [tests.py]. *)
Definition port (parts : list bytes) : serial := Serial (concat parts) [].

(** [test_read_line]: the terminator [bar] within the delivered bytes. *)
Definition port_read_line : serial := port [bstr "ba-ba-black sheep bar baz"].

(** [test_dofile]: the file exists and prints [hello!] before the prompt. *)
Definition port_dofile : serial :=
  port [bstr "=file.list()['test.lua']"; CRLF; bstr "123"; CRLF;
        bstr "dofile('test.lua')"; CRLF; bstr "hello!"; CRLF; PROMPT].

(** [test_read_file]: a file of three bytes; the device is scripted to
    answer two block requests, of two bytes and of one. *)
Definition port_read_file : serial :=
  port [bstr "file.close()"; CRLF;
        bstr "=file.list()['test.txt']"; CRLF; bstr "3"; CRLF;
        bstr "=file.open('test.txt', 'r')"; CRLF; bstr "true"; CRLF;
        bstr "uart.write(0, file.read(2))"; CRLF; [x01; x02];
        bstr "uart.write(0, file.read(1))"; CRLF; [x03]].

(** The same file on a device that answers the request it is sent. *)
Definition port_read_file_answered : serial :=
  port [bstr "file.close()"; CRLF;
        bstr "=file.list()['test.txt']"; CRLF; bstr "3"; CRLF;
        bstr "=file.open('test.txt', 'r')"; CRLF; bstr "true"; CRLF;
        bstr "uart.write(0, file.read(3))"; CRLF; [x01; x02; x03]].

(** [test_restart]: the prompt, garbage and the banner of the reboot, the
    prompt again. *)
Definition restart_garbage : bytes :=
  [xde; xad; xbe; xef; xff] ++ CRLF ++ CRLF
  ++ bstr "NodeMCU [some version]" ++ CRLF
  ++ bstr "        some info: here" ++ CRLF
  ++ bstr " build built on: 1990-12-11 19:56" ++ CRLF
  ++ bstr " powered by Lua 5.1.4 on SDK 1.4.0" ++ CRLF.


(** Writing [123] in blocks of two to a device that answers the first
    block with the byte 0xFF. *)
Definition port_write_file_ff : serial :=
  port [bstr "file.close()"; CRLF;
        bstr "=file.open('test.txt', 'w')"; CRLF; bstr "true"; CRLF;
        bstr "=file.write('12')"; CRLF; [xff]; CRLF].

(** A device that answers the open-for-write with the byte 0xFF, and would
    acknowledge a block. *)
Definition port_write_file_open_ff : serial :=
  port [bstr "file.close()"; CRLF;
        bstr "=file.open('test.txt', 'w')"; CRLF; [xff]; CRLF;
        bstr "=file.write('12')"; CRLF; bstr "true"; CRLF].

(** The integer a response line spells, if it decodes and [int] takes it. *)
Definition int_line (line : bytes) : option Z :=
  match utf8_decode line with
  | Some t => py_int t
  | None => None
  end.

(** One line of the listing the device prints for [print(#f, f, s)]: the
    three fields, as bytes, and the size the last field spells. *)
Record listed : Type := Listed {
  length_field : bytes;
  name : bytes;
  size_field : bytes;
  size_value : Z
}.

(** The line itself: the fields with a TAB between them. *)
Definition line_bytes (e : listed) : bytes :=
  length_field e ++ [TAB] ++ name e ++ [TAB] ++ size_field e.

(** The line is clean and ASCII; the length field has no TAB of its own and
    spells the number of bytes of the name; the size field spells
    [size_value]. *)
Definition well_printed (e : listed) : bool :=
  clean CR LF (line_bytes e)
  && forallb is_ascii (line_bytes e)
  && negb (existsb (Byte.eqb TAB) (length_field e))
  && bool_decide (py_int (ascii_text (length_field e))
                  = Some (Z.of_nat (length (name e))))
  && bool_decide (py_int (ascii_text (size_field e)) = Some (size_value e)).

(** The listing of the specification's scenario: two lines, no TAB between
    a name and its size. *)
Definition port_list_files_untabbed : serial :=
  port [utf8 COUNT_FILES; CRLF; bstr "2"; CRLF; utf8 PRINT_FILES; CRLF;
        bstr "7" ++ [TAB] ++ bstr "foo.txt123"; CRLF;
        bstr "5" ++ [TAB] ++ [TAB] ++ bstr ".tab0"; CRLF].

(** The line [print(#f, f, s)] prints for a file of 10 bytes whose name,
    [e-acute.txt], takes six bytes. *)
Definition port_list_files_accented : serial :=
  port [utf8 COUNT_FILES; CRLF; bstr "1"; CRLF; utf8 PRINT_FILES; CRLF;
        bstr "6" ++ [TAB] ++ [xc3; xa9] ++ bstr ".txt" ++ [TAB] ++ bstr "10";
        CRLF].

(** The same two files as [print(#f, f, s)] prints them. *)
Definition foo_txt : listed :=
  Listed (bstr "7") (bstr "foo.txt") (bstr "123") 123.

Definition tab_tab : listed :=
  Listed (bstr "5") (TAB :: bstr ".tab") (bstr "0") 0.

(** The device's side of [n] successful block writes: for each the echo of
    the request and the response [true]. *)
Definition acknowledged (echoes : list bytes) : bytes :=
  concat (map (fun e => e ++ CRLF ++ bstr "true" ++ CRLF) echoes).

(** The payloads of the first [n] write-block requests for [data]. *)
Fixpoint write_requests (n : nat) (data : text) (block_size : Z)
  : list bytes :=
  match n with
  | O => []
  | S n' =>
    (utf8 (ustr "=file.write(" ++ Repr.repr (slice_to data block_size)
           ++ ustr ")")
     ++ CRLF)
    :: write_requests n' (slice_from data block_size) block_size
  end.

Definition OPEN_ERROR : exn := IOError "Could not open file for writing!" [].


(** What every method of the session does to the port: it appends to the
    log of payloads, it does not put bytes back, and the exceptions it
    raises are among [P]. *)
Definition steady {A} (P : exn -> Prop) (c : M A) : Prop :=
  forall s,
    (exists more, sent (snd (c s)) = sent s ++ more) /\
    (length (in_buf (snd (c s))) <= length (in_buf s))%nat /\
    (forall e, fst (c s) = Raise e -> P e).


Definition codec_error (e : exn) : Prop :=
  e = UnicodeDecodeError \/ e = UnicodeEncodeError \/ e = AttributeError.

Definition write_error (e : exn) : Prop :=
  codec_error e \/
  exists response, e = IOError "Write failed! (Return value: {})" [response].

(** ** The rest of the session and of [main] *)

(** [t.split(sep)] for a one-character separator: always at least one
    field. *)
Fixpoint split (sep : N) (t : text) : list text :=
  match t with
  | [] => [[]]
  | c :: r =>
    if (c =? sep)%N then [] :: split sep r
    else
      match split sep r with
      | f :: fs => (c :: f) :: fs
      | [] => [[c]]
      end
  end.

(** [list(map(int, fields))]: the first field [int] refuses raises. *)
Fixpoint map_int (fields : list text) : M (list Z) :=
  match fields with
  | [] => ret []
  | f :: r =>
    z <- int f ;;
    zs <- map_int r ;;
    ret (z :: zs)
  end.

(** The outcome of [(info[0], info[1])]: the pair, or the [IndexError] of
    an index past the end, which no other method of the session can raise
    and which is kept apart from [exn]. *)
Inductive indexed (A : Type) : Type :=
| Item (a : A)
| IndexError.
Arguments Item {A} a.
Arguments IndexError {A}.

Definition get_version : M (indexed (Z * Z)) :=
  _ <- send_command (ustr "=node.info()") ;;
  line <- read_line (PyStr crlf) ;;
  info <- map_int (split tab line) ;;
  ret (match info with
       | major :: minor :: _ => Item (major, minor)
       | _ => IndexError
       end).

Definition remove_file (filename : text) : M unit :=
  _ <- send_command (ustr "=file.list()[" ++ Repr.repr filename ++ ustr "]") ;;
  found <- read_line (PyStr crlf) ;;
  if text_eqb found (ustr "nil")
  then raise (IOError "File does not exist!" [])
  else send_command (ustr "file.remove(" ++ Repr.repr filename ++ ustr ")").

Definition rename_file (old new : text) : M unit :=
  _ <- send_command (ustr "=file.rename(" ++ Repr.repr old ++ ustr ", "
                     ++ Repr.repr new ++ ustr ")") ;;
  renamed <- read_line (PyStr crlf) ;;
  if negb (text_eqb renamed (ustr "true"))
  then raise (IOError "Rename failed!" [])
  else ret tt.

Definition format : M unit := send_command (ustr "file.format()").

(** Tuples of two integers compare lexicographically. *)
Definition tuple_le (a b : Z * Z) : bool :=
  (fst a <? fst b) || ((fst a =? fst b) && (snd a <=? snd b)).

Definition tuple_lt (a b : Z * Z) : bool :=
  (fst a <? fst b) || ((fst a =? fst b) && (snd a <? snd b)).

(** The gate of [main]: [(1, 4) <= n.get_version() < (2, 0)]. *)
Definition compatible (version : Z * Z) : bool :=
  tuple_le (1, 4) version && tuple_lt version (2, 0).

(** *** The default serial port of [main] *)

Fixpoint starts_with (sub s : text) : bool :=
  match sub, s with
  | [], _ => true
  | _ :: _, [] => false
  | a :: sub', b :: s' => (a =? b)%N && starts_with sub' s'
  end.

(** [sub in s] *)
Fixpoint contains (sub s : text) : bool :=
  starts_with sub s
  || match s with
     | [] => false
     | _ :: s' => contains sub s'
     end.

(** [a <= b] on strings: the first character that differs decides, and a
    prefix comes first. *)
Fixpoint str_le (a b : text) : bool :=
  match a, b with
  | [], _ => true
  | _ :: _, [] => false
  | x :: a', y :: b' => (x <? y)%N || ((x =? y)%N && str_le a' b')
  end.

(** The sort key [("ttyUSB" not in p, p)]. *)
Definition port_key (p : text) : bool * text :=
  (negb (contains (ustr "ttyUSB") p), p).

(** The order of the keys: [False] before [True], then the names. *)
Definition key_le (a b : bool * text) : bool :=
  match fst a, fst b with
  | false, true => true
  | true, false => false
  | _, _ => str_le (snd a) (snd b)
  end.

(** [sorted(ports, key=...)]: the stable sort, by insertion. *)
Fixpoint insert_port (p : text) (sorted : list text) : list text :=
  match sorted with
  | [] => [p]
  | q :: r =>
    if key_le (port_key p) (port_key q) then p :: q :: r
    else q :: insert_port p r
  end.

Definition sorted_ports (ports : list text) : list text :=
  fold_right insert_port [] ports.

(** The first element of each port description, sorted; the first of them,
    or [None] when there is no port. *)
Definition default_port (comports : list (text * text * text))
  : option text :=
  let ports := map (fun info => fst (fst info)) comports in
  let ports := sorted_ports ports in
  match ports with
  | p :: _ => Some p
  | [] => None
  end.

(** ** Vocabulary of the further statements *)

(** The fields of a line put back together around the separator. *)
Fixpoint join (sep : N) (fields : list text) : text :=
  match fields with
  | [] => []
  | f :: r =>
    match r with
    | [] => f
    | _ :: _ => f ++ sep :: join sep r
    end
  end.

(** The integers the fields spell, if every one spells one. *)
Fixpoint ints (fields : list text) : option (list Z) :=
  match fields with
  | [] => Some []
  | f :: r =>
    match py_int f, ints r with
    | Some z, Some zs => Some (z :: zs)
    | _, _ => None
    end
  end.

(** The first [n] blocks [write_file] cuts [data] into. *)
Fixpoint blocks (n : nat) (data : text) (block_size : Z) : list text :=
  match n with
  | O => []
  | S n' =>
    slice_to data block_size
    :: blocks n' (slice_from data block_size) block_size
  end.

(** The payload that asks the device to write one block. *)
Definition write_request (block : text) : bytes :=
  utf8 (ustr "=file.write(" ++ Repr.repr block ++ ustr ")") ++ CRLF.

(** A byte that is no ASCII control character. *)
Definition plain (b : byte) : bool :=
  (32 <=? Byte.to_N b)%N && negb (Byte.to_N b =? 127)%N.

(** A payload that is one line: the UTF-8 bytes of printable characters,
    none of them an ASCII control, then CRLF. *)
Definition line_payload (p : bytes) : Prop :=
  exists cmd : text,
    p = utf8 cmd ++ CRLF /\
    forallb isprintable cmd = true /\
    forallb plain (utf8 cmd) = true.

(** A method keeps the property [I] of the port. *)
Definition keeps {A} (I : serial -> Prop) (c : M A) : Prop :=
  forall s, I s -> I (snd (c s)).

Definition writes_lines (s : serial) : Prop := Forall line_payload (sent s).

(** * Properties *)

(** ** Python slices at the bounds the session uses *)

Lemma py_index_m2 {A} (l : list A) : py_index l (-2) = (length l - 2)%nat.
Proof. unfold py_index. simpl. lia. Qed.

Lemma slice_from_m2 {A} (l : list A) :
  slice_from l (-2) = skipn (length l - 2) l.
Proof. unfold slice_from. now rewrite py_index_m2. Qed.

Lemma slice_to_m2 {A} (l : list A) :
  slice_to l (-2) = firstn (length l - 2) l.
Proof. unfold slice_to. now rewrite py_index_m2. Qed.

Lemma slice_from_m2_app {A} (l : list A) (a b : A) :
  slice_from (l ++ [a; b]) (-2) = [a; b].
Proof.
  rewrite slice_from_m2.
  assert (E : (length (l ++ [a; b]) - 2 = length l)%nat)
    by (rewrite length_app; cbn [length]; lia).
  rewrite E. apply drop_app_length.
Qed.

Lemma slice_to_m2_app {A} (l : list A) (a b : A) :
  slice_to (l ++ [a; b]) (-2) = l.
Proof.
  rewrite slice_to_m2.
  assert (E : (length (l ++ [a; b]) - 2 = length l)%nat)
    by (rewrite length_app; cbn [length]; lia).
  rewrite E. apply take_app_length.
Qed.

Lemma py_index_nat {A} (l : list A) (n : nat) :
  py_index l (Z.of_nat n) = Nat.min n (length l).
Proof.
  unfold py_index.
  destruct (Z.ltb_spec (Z.of_nat n) 0); lia.
Qed.

Lemma slice_to_app_length {A} (l r : list A) :
  slice_to (l ++ r) (Z.of_nat (length l)) = l.
Proof.
  unfold slice_to. rewrite py_index_nat.
  assert (E : Nat.min (length l) (length (l ++ r)) = length l)
    by (rewrite length_app; lia).
  rewrite E. apply take_app_length.
Qed.

Lemma slice_from_app_succ {A} (l : list A) (x : A) (r : list A) :
  slice_from (l ++ x :: r) (Z.of_nat (length l) + 1) = r.
Proof.
  unfold slice_from.
  replace (Z.of_nat (length l) + 1) with (Z.of_nat (S (length l))) by lia.
  rewrite py_index_nat.
  assert (E : Nat.min (S (length l)) (length (l ++ x :: r))
              = (length l + 1)%nat)
    by (rewrite length_app; cbn [length]; lia).
  rewrite E, drop_app_add. reflexivity.
Qed.

(** ** Characters and their bytes *)

(** Linear arithmetic with division by a constant. *)
Ltac dlia := zify; Z.to_euclidean_division_equations; lia.

(** A property checked on every ASCII character holds of each. *)
Lemma ascii_cases (f : N -> bool) :
  forallb f (map N.of_nat (seq 0 128)) = true ->
  forall c, (c < 128)%N -> f c = true.
Proof.
  intros H c Hc. rewrite forallb_forall in H. apply H.
  rewrite <- (N2Nat.id c). apply in_map, in_seq. lia.
Qed.

Lemma to_N_byte_of (n : N) : (n < 256)%N -> Byte.to_N (byte_of n) = n.
Proof.
  intros H. unfold byte_of. destruct (Byte.of_N n) as [b |] eqn:E.
  - now apply Byte.to_of_N.
  - apply Byte.of_N_None_iff in E. lia.
Qed.

Lemma byte_of_to_N (b : byte) : byte_of (Byte.to_N b) = b.
Proof. unfold byte_of. now rewrite Byte.of_to_N. Qed.

Lemma utf8_app (a b : text) : utf8 (a ++ b) = utf8 a ++ utf8 b.
Proof. apply flat_map_app. Qed.

(** ASCII bytes are the UTF-8 encoding of the text they stand for. *)
Lemma utf8_ascii_text (l : bytes) :
  forallb is_ascii l = true -> utf8 (ascii_text l) = l.
Proof.
  induction l as [| b l IH]; [reflexivity |]. cbn [forallb].
  intros H. apply andb_prop in H as [Hb Hl]. unfold is_ascii in Hb.
  cbn [ascii_text map utf8 flat_map]. fold (ascii_text l). fold (utf8 (ascii_text l)).
  rewrite (IH Hl). unfold utf8_char.
  replace (Byte.to_N b <? 0x80)%N with true by (symmetry; exact Hb).
  now rewrite byte_of_to_N.
Qed.

Lemma utf8_decode_ascii (l : bytes) :
  forallb is_ascii l = true -> utf8_decode l = Some (ascii_text l).
Proof.
  induction l as [| b l IH]; [reflexivity |]. cbn [forallb].
  intros H. apply andb_prop in H as [Hb Hl]. unfold is_ascii in Hb.
  cbn [utf8_decode]. cbv zeta.
  replace (Byte.to_N b <? 0x80)%N with true by (symmetry; exact Hb).
  now rewrite (IH Hl).
Qed.

Lemma ascii_text_app (a b : bytes) :
  ascii_text (a ++ b) = ascii_text a ++ ascii_text b.
Proof. apply map_app. Qed.

(** Every printable character can be encoded: no range of the table
    reaches into the surrogates or beyond U+10FFFF. *)
Lemma isprintable_encodable (c : N) :
  isprintable c = true -> encodable c = true.
Proof.
  unfold isprintable, encodable.
  destruct (N.ltb_spec c 0x80) as [L | L].
  - intros _. apply orb_true_iff. left. apply N.ltb_lt. lia.
  - intros H. apply existsb_exists in H as [[lo hi] [Hin Hr]].
    assert (T : forallb (fun r => (snd r <? 0xD800)
                                  || ((0xDFFF <? fst r)
                                      && (snd r <=? 0x10FFFF)))%N
                        PRINTABLE_RANGES = true)
      by (vm_compute; reflexivity).
    rewrite forallb_forall in T. specialize (T _ Hin). cbn [fst snd] in T.
    unfold in_range in Hr. cbn [fst snd] in Hr.
    apply andb_prop in Hr as [H1 H2].
    apply N.leb_le in H1, H2.
    apply orb_prop in T as [T | T].
    + apply N.ltb_lt in T. apply orb_true_iff. left. apply N.ltb_lt. lia.
    + apply andb_prop in T as [T1 T2].
      apply N.ltb_lt in T1. apply N.leb_le in T2.
      apply orb_true_iff. right. apply andb_true_iff.
      split; [apply N.ltb_lt | apply N.leb_le]; lia.
Qed.

Lemma isprintable_ascii (c : N) :
  (c < 0x80)%N -> isprintable c = (32 <=? c)%N && (c <? 127)%N.
Proof.
  intros H. unfold isprintable.
  now replace (c <? 0x80)%N with true by (symmetry; now apply N.ltb_lt).
Qed.

Lemma plain_byte_of (n : N) :
  (32 <= n < 256)%N -> n <> 127%N -> plain (byte_of n) = true.
Proof.
  intros H1 H2. unfold plain. rewrite to_N_byte_of by lia.
  apply andb_true_iff. split; [apply N.leb_le; lia |].
  apply negb_true_iff, N.eqb_neq. exact H2.
Qed.

(** The bytes of a printable character hold no ASCII control: the
    character itself below U+0080, bytes from 0x80 up beyond. *)
Lemma isprintable_plain (c : N) :
  isprintable c = true -> forallb plain (utf8_char c) = true.
Proof.
  intros H. pose proof (isprintable_encodable c H) as E.
  unfold utf8_char. destruct (N.ltb_spec c 0x80) as [L | L].
  - rewrite isprintable_ascii in H by exact L.
    apply andb_prop in H as [H1 H2]. apply N.leb_le in H1.
    apply N.ltb_lt in H2. cbn [forallb].
    rewrite plain_byte_of by lia. reflexivity.
  - assert (B : (c <= 0x10FFFF)%N).
    { unfold encodable in E. apply orb_prop in E as [E | E].
      - apply N.ltb_lt in E. lia.
      - apply andb_prop in E as [_ E]. now apply N.leb_le in E. }
    destruct (N.ltb_spec c 0x800); [| destruct (N.ltb_spec c 0x10000)];
      cbn [forallb]; rewrite !plain_byte_of by dlia; reflexivity.
Qed.

(** ** The literal [repr] embeds in a command *)

Section Literal.

Import Repr.

Lemma quote_of_cases (s : text) : quote_of s = squote \/ quote_of s = dquote.
Proof. unfold quote_of. destruct (_ && _); auto. Qed.

Lemma existsb_eqb_In (c : N) (s : text) :
  existsb (N.eqb c) s = true <-> In c s.
Proof.
  rewrite existsb_exists. split.
  - intros [x [Hin Heq]]. apply N.eqb_eq in Heq. now subst.
  - intros Hin. exists c. split; [assumption | apply N.eqb_refl].
Qed.

Lemma quote_of_rule (s : text) : quote_rule s (quote_of s).
Proof.
  unfold quote_rule, quote_of.
  destruct (existsb (N.eqb squote) s) eqn:E1;
    destruct (existsb (N.eqb dquote) s) eqn:E2; simpl; split; intros H;
    try reflexivity.
  - destruct H as [_ H]. exfalso. apply H. now apply existsb_eqb_In.
  - exfalso. apply H. split; [now apply existsb_eqb_In |].
    intros Hin. apply existsb_eqb_In in Hin. congruence.
  - destruct H as [H _]. apply existsb_eqb_In in H. congruence.
  - destruct H as [H _]. apply existsb_eqb_In in H. congruence.
Qed.

(** *** Hex digits *)

Lemma hexdigit_digit (n : N) :
  (n < 16)%N ->
  Literal.hexval (hexdigit n) = Some n /\
  Literal.lower_hex (hexdigit n) = true.
Proof.
  intros H.
  pose proof (ascii_cases
                (fun n => negb (n <? 16)%N
                          || (match Literal.hexval (hexdigit n) with
                              | Some v => (v =? n)%N
                              | None => false
                              end
                              && Literal.lower_hex (hexdigit n)))
                ltac:(vm_compute; reflexivity) n ltac:(lia)) as C.
  cbv beta in C. apply N.ltb_lt in H. rewrite H in C. cbn [negb orb] in C.
  apply andb_prop in C as [C1 C2].
  destruct (Literal.hexval (hexdigit n)) as [v |]; [| discriminate].
  apply N.eqb_eq in C1. now subst.
Qed.

(** A digit is one of the sixteen, whatever the number. *)
Lemma hexdigit_In (n : N) : In (hexdigit n) (ustr "0123456789abcdef").
Proof.
  unfold hexdigit.
  destruct (nth_in_or_default (N.to_nat n) (ustr "0123456789abcdef") 48%N)
    as [H | ->]; [exact H | now left].
Qed.

Lemma hexdigit_printable (n : N) :
  isprintable (hexdigit n) = true /\ (hexdigit n <? 0x80)%N = true.
Proof.
  pose proof (hexdigit_In n) as H. set (d := hexdigit n) in *. clearbody d.
  cbn in H.
  repeat (destruct H as [H | H]; [subst d; split; reflexivity |]).
  destruct H.
Qed.

Lemma length_hex (w : nat) : forall c, length (hex w c) = w.
Proof.
  induction w as [| w IH]; intros c; [reflexivity |].
  cbn [hex]. rewrite length_app, IH. cbn [length]. lia.
Qed.

Lemma hex_lower (w : nat) :
  forall c, forallb Literal.lower_hex (hex w c) = true.
Proof.
  induction w as [| w IH]; intros c; [reflexivity |].
  cbn [hex]. rewrite forallb_app, IH. cbn [forallb].
  destruct (hexdigit_digit (c mod 16)) as [_ ->]; [dlia | reflexivity].
Qed.

Lemma hex_printable (w : nat) :
  forall c, forallb isprintable (hex w c) = true /\
            forallb (fun x => x <? 0x80)%N (hex w c) = true.
Proof.
  induction w as [| w IH]; intros c; [split; reflexivity |].
  cbn [hex]. rewrite !forallb_app. cbn [forallb].
  destruct (IH (c / 16)%N) as [-> ->].
  destruct (hexdigit_printable (c mod 16)) as [-> ->]. split; reflexivity.
Qed.

Lemma hex_value_app (a b : text) :
  forall acc,
    Literal.hex_value acc (a ++ b)
    = match Literal.hex_value acc a with
      | Some v => Literal.hex_value v b
      | None => None
      end.
Proof.
  induction a as [| d a IH]; intros acc; [reflexivity |].
  cbn [app Literal.hex_value]. destruct (Literal.hexval d); [apply IH | reflexivity].
Qed.

(** The digits of [hex] spell the number, up to the width. *)
Lemma hex_value_hex (w : nat) :
  forall c acc,
    Literal.hex_value acc (hex w c)
    = Some (acc * 16 ^ N.of_nat w + c mod 16 ^ N.of_nat w)%N.
Proof.
  induction w as [| w IH]; intros c acc.
  - cbn [hex Literal.hex_value]. f_equal. cbn. rewrite N.mod_1_r. lia.
  - cbn [hex]. rewrite hex_value_app, IH. cbn [Literal.hex_value].
    destruct (hexdigit_digit (c mod 16)) as [-> _]; [dlia |].
    f_equal. rewrite Nat2N.inj_succ, N.pow_succ_r'.
    rewrite (N.Div0.mod_mul_r c 16). set (p := (16 ^ N.of_nat w)%N).
    set (m := ((c / 16) mod p)%N). set (r := (c mod 16)%N). lia.
Qed.

Lemma hex_spells (w : nat) (c : N) :
  (c < 16 ^ N.of_nat w)%N -> spells w c (hex w c).
Proof.
  intros H. split; [apply length_hex | split; [apply hex_lower |]].
  rewrite hex_value_hex, N.mod_small by exact H. reflexivity.
Qed.

Lemma take_hex_hex (w : nat) (c : N) (k : text) :
  (c < 16 ^ N.of_nat w)%N -> Literal.take_hex w (hex w c ++ k) = Some (c, k).
Proof.
  intros H. unfold Literal.take_hex.
  replace (w <=? length (hex w c ++ k))%nat with true
    by (symmetry; apply Nat.leb_le; rewrite length_app, length_hex; lia).
  rewrite take_app_length', drop_app_length'
    by (symmetry; apply length_hex).
  destruct (hex_spells w c H) as [_ [_ ->]]. reflexivity.
Qed.

(** *** One character *)

Lemma isprintable_control (c : N) :
  (c < 32)%N \/ c = 127%N -> isprintable c = false.
Proof.
  intros H. rewrite isprintable_ascii by lia.
  destruct H as [H | ->]; [| reflexivity].
  apply andb_false_iff. left. apply N.leb_gt. exact H.
Qed.

(** The cases of [escape], with the tests that lead to each. *)
Lemma escape_cases (q c : N) :
  ((c = q \/ c = backslash) /\ escape q c = [backslash; c]) \/
  (c <> q /\ c <> backslash /\
   ((c = tab /\ escape q c = ustr "\t") \/
    (c = lf /\ escape q c = ustr "\n") \/
    (c = cr /\ escape q c = ustr "\r") \/
    (c <> tab /\ c <> lf /\ c <> cr /\
     ((isprintable c = false /\ (c <= 0xff)%N
       /\ escape q c = ustr "\x" ++ hex 2 c) \/
      (isprintable c = false /\ (0xff < c <= 0xffff)%N
       /\ escape q c = ustr "\u" ++ hex 4 c) \/
      (isprintable c = false /\ (0xffff < c)%N
       /\ escape q c = ustr "\U" ++ hex 8 c) \/
      (isprintable c = true /\ escape q c = [c]))))).
Proof.
  unfold escape.
  destruct (N.eqb_spec c q) as [E1 | E1]; [left; auto |].
  destruct (N.eqb_spec c backslash) as [E2 | E2]; [left; auto |].
  right. split; [exact E1 | split; [exact E2 |]]. cbn [orb].
  destruct (N.eqb_spec c tab) as [E3 | E3]; [left; auto |].
  destruct (N.eqb_spec c lf) as [E4 | E4]; [right; left; auto |].
  destruct (N.eqb_spec c cr) as [E5 | E5]; [right; right; left; auto |].
  right; right; right. split; [exact E3 | split; [exact E4 | split; [exact E5 |]]].
  destruct (N.ltb_spec c 32) as [L1 | L1].
  { left. split; [apply isprintable_control; auto | split; [lia | reflexivity]]. }
  destruct (N.eqb_spec c 127) as [E6 | E6].
  { left. split; [apply isprintable_control; auto | split; [lia | reflexivity]]. }
  cbn [orb].
  destruct (N.ltb_spec c 127) as [L2 | L2].
  { right; right; right. split; [| reflexivity].
    rewrite isprintable_ascii by lia.
    apply andb_true_iff. split; [apply N.leb_le | apply N.ltb_lt]; lia. }
  destruct (isprintable c) eqn:P; cbn [negb].
  { right; right; right. auto. }
  destruct (N.leb_spec c 0xff) as [L3 | L3]; [left; auto |].
  destruct (N.leb_spec c 0xffff) as [L4 | L4].
  - right; left. split; [reflexivity | split; [lia | reflexivity]].
  - right; right; left. auto.
Qed.

Lemma escape_rendered (q c : N) :
  (c <= 0x10FFFF)%N -> rendered q c (escape q c).
Proof.
  intros B.
  destruct (escape_cases q c)
    as [[H ->]
       | [Nq [Nb [[H ->] | [[H ->] | [[H ->]
            | [Nt [Nl [Nc [[P [L ->]] | [[P [L ->]] | [[P [L ->]]
                 | [P ->]]]]]]]]]]]]].
  - now apply rendered_backslash.
  - now apply rendered_tab.
  - now apply rendered_lf.
  - now apply rendered_cr.
  - apply rendered_x; try assumption. apply hex_spells.
    change (16 ^ N.of_nat 2)%N with 256%N. lia.
  - apply rendered_u; try assumption. apply hex_spells.
    change (16 ^ N.of_nat 4)%N with 65536%N. lia.
  - apply rendered_U; try assumption. apply hex_spells.
    change (16 ^ N.of_nat 8)%N with 4294967296%N. lia.
  - now apply rendered_verbatim.
Qed.

(** One escaped character is printable, and ASCII unless the character is
    printable and beyond ASCII. *)
Lemma escape_printable (q c : N) :
  q = squote \/ q = dquote ->
  forallb isprintable (escape q c) = true /\
  forallb (fun x => x <? 0x80)%N (escape q c) = negb (wide c).
Proof.
  intros Hq. unfold wide.
  destruct (escape_cases q c)
    as [[H ->]
       | [Nq [Nb [[H ->] | [[H ->] | [[H ->]
            | [Nt [Nl [Nc [[P [L ->]] | [[P [L ->]] | [[P [L ->]]
                 | [P ->]]]]]]]]]]]]].
  - assert (C : c = squote \/ c = dquote \/ c = backslash)
      by (destruct H as [-> | ->]; [destruct Hq as [-> | ->] |]; auto).
    destruct C as [-> | [-> | ->]]; split; reflexivity.
  - subst c. split; reflexivity.
  - subst c. split; reflexivity.
  - subst c. split; reflexivity.
  - rewrite P, andb_false_r. rewrite !forallb_app.
    destruct (hex_printable 2 c) as [-> ->]. split; reflexivity.
  - rewrite P, andb_false_r. rewrite !forallb_app.
    destruct (hex_printable 4 c) as [-> ->]. split; reflexivity.
  - rewrite P, andb_false_r. rewrite !forallb_app.
    destruct (hex_printable 8 c) as [-> ->]. split; reflexivity.
  - cbn [forallb]. rewrite P. split; [reflexivity |].
    rewrite !andb_true_r. destruct (N.ltb_spec c 0x80) as [L | L].
    + symmetry. apply negb_true_iff, N.leb_gt. exact L.
    + symmetry. apply negb_false_iff, N.leb_le. exact L.
Qed.

Lemma escape_not_nil (q c : N) : (1 <= length (escape q c))%nat.
Proof.
  destruct (escape_cases q c)
    as [[H ->]
       | [Nq [Nb [[H ->] | [[H ->] | [[H ->]
            | [Nt [Nl [Nc [[P [L ->]] | [[P [L ->]] | [[P [L ->]]
                 | [P ->]]]]]]]]]]]]];
    cbn; lia.
Qed.

(** *** Reading back *)

Lemma unescape_hex (fuel : nat) (q e : N) (w : nat) (c : N) (k : text) :
  Literal.hex_width e = Some w -> (c < 16 ^ N.of_nat w)%N ->
  Literal.unescape (S fuel) q (backslash :: e :: hex w c ++ k)
  = match Literal.unescape fuel q k with
    | Some r => Some (c :: r)
    | None => None
    end.
Proof.
  intros He Hc. cbn [Literal.unescape].
  replace (backslash =? backslash)%N with true by reflexivity.
  rewrite He, take_hex_hex by exact Hc. reflexivity.
Qed.

Lemma unescape_letter (fuel : nat) (q e c : N) (k : text) :
  Literal.hex_width e = None -> Literal.unescape1 e = Some c ->
  Literal.unescape (S fuel) q (backslash :: e :: k)
  = match Literal.unescape fuel q k with
    | Some r => Some (c :: r)
    | None => None
    end.
Proof.
  intros He Hc. cbn [Literal.unescape].
  replace (backslash =? backslash)%N with true by reflexivity.
  rewrite He, Hc. reflexivity.
Qed.

(** Reading back one escaped character. *)
Lemma unescape_escape (fuel : nat) (q c : N) (k : text) :
  q = squote \/ q = dquote -> (c <= 0x10FFFF)%N ->
  Literal.unescape (S fuel) q (escape q c ++ k)
  = match Literal.unescape fuel q k with
    | Some r => Some (c :: r)
    | None => None
    end.
Proof.
  intros Hq B.
  destruct (escape_cases q c)
    as [[H ->]
       | [Nq [Nb [[H ->] | [[H ->] | [[H ->]
            | [Nt [Nl [Nc [[P [L ->]] | [[P [L ->]] | [[P [L ->]]
                 | [P ->]]]]]]]]]]]]].
  - assert (C : c = squote \/ c = dquote \/ c = backslash)
      by (destruct H as [-> | ->]; [destruct Hq as [-> | ->] |]; auto).
    apply (unescape_letter fuel q c c k);
      destruct C as [-> | [-> | ->]]; reflexivity.
  - subst c. apply (unescape_letter fuel q 116 tab k); reflexivity.
  - subst c. apply (unescape_letter fuel q 110 lf k); reflexivity.
  - subst c. apply (unescape_letter fuel q 114 cr k); reflexivity.
  - rewrite <- app_assoc.
    apply (unescape_hex fuel q 120 2 c k); [reflexivity |].
    change (16 ^ N.of_nat 2)%N with 256%N. lia.
  - rewrite <- app_assoc.
    apply (unescape_hex fuel q 117 4 c k); [reflexivity |].
    change (16 ^ N.of_nat 4)%N with 65536%N. lia.
  - rewrite <- app_assoc.
    apply (unescape_hex fuel q 85 8 c k); [reflexivity |].
    change (16 ^ N.of_nat 8)%N with 4294967296%N. lia.
  - cbn [app Literal.unescape].
    replace (c =? backslash)%N with false
      by (symmetry; now apply N.eqb_neq).
    replace (c =? q)%N with false by (symmetry; now apply N.eqb_neq).
    reflexivity.
Qed.

Lemma unescape_body (q : N) (s : text) :
  q = squote \/ q = dquote -> code_points s = true ->
  forall fuel,
    (length s < fuel)%nat ->
    Literal.unescape fuel q (flat_map (escape q) s ++ [q]) = Some s.
Proof.
  intros Hq. induction s as [| c s IH]; intros Hs fuel Hf.
  - destruct fuel as [| fuel]; [cbn [length] in Hf; lia |].
    destruct Hq as [-> | ->]; reflexivity.
  - cbn [code_points forallb] in Hs. apply andb_prop in Hs as [Hc Hs].
    apply N.leb_le in Hc.
    destruct fuel as [| fuel]; [lia |]. cbn [length] in Hf.
    cbn [flat_map]. rewrite <- app_assoc, unescape_escape by assumption.
    rewrite IH; [reflexivity | exact Hs | lia].
Qed.

Lemma length_flat_map_escape (q : N) (s : text) :
  (length s <= length (flat_map (escape q) s))%nat.
Proof.
  induction s as [| c s IH]; [reflexivity |].
  cbn [flat_map length]. rewrite length_app.
  pose proof (escape_not_nil q c). lia.
Qed.

End Literal.

(** Every character of the literal is printable, and so can be encoded. *)
Lemma repr_printable (s : text) : forallb isprintable (Repr.repr s) = true.
Proof.
  pose proof (quote_of_cases s) as Hq.
  unfold Repr.repr. cbn [forallb]. rewrite forallb_app. cbn [forallb].
  assert (P : isprintable (Repr.quote_of s) = true)
    by (destruct Hq as [-> | ->]; reflexivity).
  rewrite P. cbn [andb]. rewrite andb_true_r.
  generalize dependent (Repr.quote_of s). intros q Hq _.
  induction s as [| c s IH]; [reflexivity |].
  cbn [flat_map]. rewrite forallb_app, IH.
  now destruct (escape_printable q c Hq) as [-> _].
Qed.

Lemma printable_encodable (t : text) :
  forallb isprintable t = true -> forallb encodable t = true.
Proof.
  induction t as [| c t IH]; [reflexivity |]. cbn [forallb].
  intros H. apply andb_prop in H as [Hc Ht].
  now rewrite (isprintable_encodable c Hc), (IH Ht).
Qed.

Lemma printable_plain (t : text) :
  forallb isprintable t = true -> forallb plain (utf8 t) = true.
Proof.
  induction t as [| c t IH]; [reflexivity |]. cbn [forallb].
  intros H. apply andb_prop in H as [Hc Ht].
  cbn [utf8 flat_map]. fold (utf8 t).
  now rewrite forallb_app, (isprintable_plain c Hc), (IH Ht).
Qed.

(** The literal is ASCII exactly when the string holds no printable
    character beyond ASCII. *)
Lemma repr_ascii_iff (s : text) :
  forallb (fun x => x <? 0x80)%N (Repr.repr s) = negb (existsb wide s).
Proof.
  pose proof (quote_of_cases s) as Hq.
  unfold Repr.repr. cbn [forallb]. rewrite forallb_app. cbn [forallb].
  assert (P : (Repr.quote_of s <? 0x80)%N = true)
    by (destruct Hq as [-> | ->]; reflexivity).
  rewrite P. cbn [andb]. rewrite andb_true_r.
  generalize dependent (Repr.quote_of s). intros q Hq _.
  induction s as [| c s IH]; [reflexivity |].
  cbn [flat_map existsb]. rewrite forallb_app, IH, negb_orb.
  now destruct (escape_printable q c Hq) as [_ ->].
Qed.

Lemma encodable_bound (c : N) : encodable c = true -> (c <= 0x10FFFF)%N.
Proof.
  unfold encodable. intros E. apply orb_prop in E as [E | E].
  - apply N.ltb_lt in E. lia.
  - apply andb_prop in E as [_ E]. now apply N.leb_le in E.
Qed.

(** The bytes of a character are ASCII exactly when the character is. *)
Lemma utf8_char_ascii (c : N) :
  (c <= 0x10FFFF)%N -> forallb is_ascii (utf8_char c) = (c <? 0x80)%N.
Proof.
  intros B. unfold utf8_char, is_ascii.
  destruct (N.ltb_spec c 0x80) as [L | L].
  - cbn [forallb]. rewrite to_N_byte_of by lia.
    rewrite andb_true_r. apply N.ltb_lt. exact L.
  - destruct (N.ltb_spec c 0x800); [| destruct (N.ltb_spec c 0x10000)];
      cbn [forallb]; rewrite to_N_byte_of by dlia;
      apply andb_false_iff; left; apply N.ltb_ge; dlia.
Qed.

Lemma utf8_ascii (t : text) :
  forallb encodable t = true ->
  forallb is_ascii (utf8 t) = forallb (fun x => x <? 0x80)%N t.
Proof.
  induction t as [| c t IH]; [reflexivity |]. cbn [forallb].
  intros H. apply andb_prop in H as [Hc Ht].
  cbn [utf8 flat_map]. fold (utf8 t).
  now rewrite forallb_app, utf8_char_ascii, (IH Ht)
    by now apply encodable_bound.
Qed.

Lemma escape_encode_byte (c : N) :
  (32 <= c <= 126)%N ->
  utf8 (Repr.escape squote c) = flat_map Spec.encode_byte (utf8_char c).
Proof.
  intros H.
  pose proof (ascii_cases
                (fun c => negb ((32 <=? c) && (c <=? 126))%N
                          || bytes_eqb (utf8 (Repr.escape squote c))
                               (flat_map Spec.encode_byte (utf8_char c)))
                ltac:(vm_compute; reflexivity) c ltac:(lia)) as C.
  cbv beta in C.
  replace ((32 <=? c) && (c <=? 126))%N with true in C
    by (symmetry; apply andb_true_iff; split; apply N.leb_le; lia).
  cbn [negb orb] in C. unfold bytes_eqb in C.
  now apply bool_decide_eq_true in C.
Qed.

(** On printable ASCII input whose single quotes come with a double quote,
    the bytes of [repr] are those of the specified encoder. *)
Lemma repr_encode_literal (s : text) :
  forallb (fun c => (32 <=? c) && (c <=? 126))%N s = true ->
  (In squote s -> In dquote s) ->
  utf8 (Repr.repr s) = Spec.encode_literal (utf8 s).
Proof.
  intros Hp Hq.
  assert (Q : Repr.quote_of s = squote).
  { destruct (quote_of_rule s) as [_ Q]. apply Q. intros [H1 H2]. auto. }
  unfold Repr.repr, Spec.encode_literal. rewrite Q.
  change (squote :: flat_map (Repr.escape squote) s ++ [squote])
    with ([squote] ++ flat_map (Repr.escape squote) s ++ [squote]).
  rewrite !utf8_app.
  change (utf8 [squote]) with [SQUOTE]. cbn [app]. do 2 f_equal.
  clear Q Hq. induction s as [| c s IH]; [reflexivity |].
  cbn [forallb] in Hp. apply andb_prop in Hp as [Hc Hs].
  apply andb_prop in Hc as [H1 H2]. apply N.leb_le in H1, H2.
  cbn [flat_map utf8]. fold (utf8 s).
  rewrite !flat_map_app. change (flat_map utf8_char) with utf8.
  now rewrite (IH Hs), escape_encode_byte by lia.
Qed.

(** C5, as stated, fails: the unit separator U+001F is rendered with
    lower-case hex digits, where the specified encoder has them in upper
    case.  The two also part on TAB, which [repr] writes [\t], on a lone
    single quote, which [repr] leaves as it is between double quotes, and
    on the letter e-acute, which is outside 0x20-0x7E and which [repr]
    leaves as it is: it goes out as its two UTF-8 bytes. *)
Lemma repr_hex_is_lower_case :
  utf8 (Repr.repr [0x1f]%N) = bstr "'\x1f'" /\
  Spec.encode_literal (utf8 [0x1f]%N) = bstr "'\x1F'" /\
  utf8 (Repr.repr [0x1f]%N) <> Spec.encode_literal (utf8 [0x1f]%N) /\
  utf8 (Repr.repr [tab]) = bstr "'\t'" /\
  Spec.encode_literal (utf8 [tab]) = bstr "'\x09'" /\
  utf8 (Repr.repr [squote]) = [DQUOTE; SQUOTE; DQUOTE] /\
  Spec.encode_literal (utf8 [squote]) = bstr "'\''" /\
  Repr.repr [0xe9]%N = [squote; 0xe9; squote]%N /\
  utf8 (Repr.repr [0xe9]%N) = [SQUOTE; xc3; xa9; SQUOTE] /\
  Spec.encode_literal (utf8 [0xe9]%N) = bstr "'\xC3\xA9'".
Proof. repeat split; try reflexivity. discriminate. Qed.

(** C5, amended: between its quotes the literal holds, character by
    character, the character itself when it is printable - ASCII or not -
    and neither the quote nor the backslash; a backslash and the character
    for the quote and the backslash; [\t], [\n], [\r] for TAB, LF, CR; and
    for every other character [\x] with two, [\u] with four or [\U] with
    eight lower-case hex digits that spell it, by its size.  The quote is
    the double quote when the input has a single quote and no double quote,
    the single quote otherwise; the empty input gives ['']. *)
Theorem repr_rendering (s : text) :
  code_points s = true ->
  (exists parts : list text,
      Forall2 (rendered (Repr.quote_of s)) s parts /\
      Repr.repr s = Repr.quote_of s :: concat parts ++ [Repr.quote_of s]) /\
  quote_rule s (Repr.quote_of s) /\
  Repr.repr [] = ustr "''".
Proof.
  intros Hs. split; [| split; [apply quote_of_rule | reflexivity]].
  unfold Repr.repr. generalize (Repr.quote_of s) as q. intros q.
  exists (map (Repr.escape q) s). split.
  - induction s as [| c s IH]; constructor.
    + apply escape_rendered. cbn [code_points forallb] in Hs.
      apply andb_prop in Hs as [Hc _]. now apply N.leb_le in Hc.
    + apply IH. cbn [code_points forallb] in Hs.
      now apply andb_prop in Hs as [_ Hs].
  - do 2 f_equal. clear Hs. induction s as [| c s IH]; [reflexivity |].
    cbn [flat_map map concat]. now rewrite IH.
Qed.

(** A string with a quote, a letter beyond ASCII, a control of Latin-1, a
    line separator, an emoji, a tag character, a TAB and a backslash. *)
Lemma repr_rendering_witness :
  Repr.repr [39; 0xe9; 0x85; 0x2028; 0x1f600; 0xe0001; 9; 92]%N
  = [dquote] ++ ustr "'" ++ [0xe9%N] ++ ustr "\x85\u2028" ++ [0x1f600%N]
    ++ ustr "\U000e0001\t\\" ++ [dquote] /\
  exists parts : list text,
    Forall2 (rendered dquote)
            [39; 0xe9; 0x85; 0x2028; 0x1f600; 0xe0001; 9; 92]%N parts /\
    Repr.repr [39; 0xe9; 0x85; 0x2028; 0x1f600; 0xe0001; 9; 92]%N
    = dquote :: concat parts ++ [dquote].
Proof.
  split; [reflexivity |].
  exact (proj1 (repr_rendering
                  [39; 0xe9; 0x85; 0x2028; 0x1f600; 0xe0001; 9; 92]%N
                  eq_refl)).
Defined.

(** C2, as stated, fails: the literal of a lone single quote is put between
    double quotes, and the literal of the letter e-acute holds the letter
    itself, which goes to the device as the bytes 0xC3 0xA9: the literal is
    neither single-quoted nor ASCII throughout. *)
Lemma repr_single_quote_is_double_quoted :
  Repr.repr [squote] = [dquote; squote; dquote] /\
  ~ (exists body, Repr.repr [squote] = squote :: body ++ [squote]) /\
  Repr.repr [0xe9]%N = [squote; 0xe9; squote]%N /\
  utf8 (Repr.repr [0xe9]%N) = [SQUOTE; xc3; xa9; SQUOTE] /\
  forallb is_ascii (utf8 (Repr.repr [0xe9]%N)) = false.
Proof.
  split; [reflexivity |]. split; [| repeat split; reflexivity].
  intros [body H]. discriminate H.
Qed.

(** C2, amended: for every string the literal opens and closes with the
    same quote (the double quote when the input has a single quote and no
    double quote, the single quote otherwise), reversing its escapes gives
    the input back, every character of it is printable and can be encoded,
    and its bytes are ASCII exactly when the input has no printable
    character beyond ASCII. *)
Theorem repr_round_trip (s : text) :
  code_points s = true ->
  (exists q body, quote_rule s q /\ Repr.repr s = q :: body ++ [q]) /\
  Literal.read_literal (Repr.repr s) = Some s /\
  forallb isprintable (Repr.repr s) = true /\
  forallb encodable (Repr.repr s) = true /\
  forallb is_ascii (utf8 (Repr.repr s)) = negb (existsb wide s).
Proof.
  intros Hs. pose proof (quote_of_cases s) as Hq.
  split; [| split; [| split; [apply repr_printable | split]]].
  - exists (Repr.quote_of s), (flat_map (Repr.escape (Repr.quote_of s)) s).
    split; [apply quote_of_rule | reflexivity].
  - unfold Repr.repr, Literal.read_literal.
    assert (E : ((Repr.quote_of s =? squote) || (Repr.quote_of s =? dquote))%N
                = true)
      by (destruct Hq as [-> | ->]; reflexivity).
    rewrite E. apply unescape_body; [exact Hq | exact Hs |].
    rewrite length_app. cbn [length].
    pose proof (length_flat_map_escape (Repr.quote_of s) s). lia.
  - apply printable_encodable, repr_printable.
  - rewrite utf8_ascii by apply printable_encodable, repr_printable.
    apply repr_ascii_iff.
Qed.

(** A name with both quotes, a letter beyond ASCII, a surrogate and a line
    break. *)
Lemma repr_round_trip_witness :
  Repr.repr [39; 34; 0xe9; 0xd800; 13; 10]%N
  = ustr "'\'" ++ [dquote; 0xe9%N] ++ ustr "\ud800\r\n'" /\
  Literal.read_literal (Repr.repr [39; 34; 0xe9; 0xd800; 13; 10]%N)
  = Some [39; 34; 0xe9; 0xd800; 13; 10]%N.
Proof.
  split; [reflexivity |].
  exact (proj1 (proj2 (repr_round_trip [39; 34; 0xe9; 0xd800; 13; 10]%N
                         eq_refl))).
Defined.

(** ** Reading a line *)

Lemma bytes_eqb_eq (x y : bytes) : bytes_eqb x y = true <-> x = y.
Proof. unfold bytes_eqb. apply bool_decide_eq_true. Qed.

Lemma bytes_eqb_neq (x y : bytes) : bytes_eqb x y = false <-> x <> y.
Proof. unfold bytes_eqb. apply bool_decide_eq_false. Qed.

Lemma text_eqb_eq (x y : text) : text_eqb x y = true <-> x = y.
Proof. unfold text_eqb. apply bool_decide_eq_true. Qed.

Lemma text_eqb_neq (x y : text) : text_eqb x y = false <-> x <> y.
Proof. unfold text_eqb. apply bool_decide_eq_false. Qed.

Lemma occurs_app_r (a b : byte) (x y : bytes) :
  occurs a b y = true -> occurs a b (x ++ y) = true.
Proof.
  intros H. induction x as [| c x IH]; [assumption |].
  cbn [app occurs]. destruct (x ++ y) as [| d r] eqn:E.
  - discriminate IH.
  - rewrite IH. apply orb_true_r.
Qed.

Lemma occurs_app_l (a b : byte) (x y : bytes) :
  occurs a b x = true -> occurs a b (x ++ y) = true.
Proof.
  induction x as [| c x IH]; [discriminate |].
  cbn [app occurs]. destruct x as [| d r]; [discriminate |].
  cbn [app]. intros H. apply orb_prop in H as [H | H].
  - rewrite H. reflexivity.
  - specialize (IH H). cbn [app] in IH. rewrite IH. apply orb_true_r.
Qed.

Lemma occurs_pair (a b : byte) : occurs a b [a; b] = true.
Proof.
  cbn [occurs]. rewrite (Byte.byte_dec_lb (eq_refl a)).
  now rewrite (Byte.byte_dec_lb (eq_refl b)).
Qed.

(** When the tail of the accumulator is the terminator, the terminator
    occurs in it. *)
Lemma tail_occurs (a b : byte) (data : bytes) :
  slice_from data (-2) = [a; b] -> occurs a b data = true.
Proof.
  rewrite slice_from_m2. intros H.
  rewrite <- (take_drop (length data - 2) data), H.
  apply occurs_app_r, occurs_pair.
Qed.

Lemma tail_test_false (a b : byte) (data : bytes) :
  occurs a b data = false -> bytes_eqb (slice_from data (-2)) [a; b] = false.
Proof.
  intros H. apply bytes_eqb_neq. intros E.
  apply tail_occurs in E. congruence.
Qed.

Lemma read_line_loop_step (a b c : byte) (data inp : bytes) w fuel :
  occurs a b data = false ->
  read_line_loop (S fuel) [a; b] data (Serial (c :: inp) w)
  = read_line_loop fuel [a; b] (data ++ [c]) (Serial inp w).
Proof.
  intros H. cbn [read_line_loop]. rewrite tail_test_false by assumption.
  reflexivity.
Qed.

Lemma read_line_loop_stop (a b : byte) (data : bytes) s fuel :
  read_line_loop fuel [a; b] (data ++ [a; b]) s = (Ok (data ++ [a; b]), s).
Proof.
  destruct fuel; cbn [read_line_loop];
    rewrite slice_from_m2_app;
    now replace (bytes_eqb [a; b] [a; b]) with true
      by (symmetry; now apply bytes_eqb_eq).
Qed.

(** The loop stops at the first occurrence of a two-byte terminator and
    takes nothing after it. *)
Lemma read_line_loop_clean (a b : byte) (line : bytes) :
  forall (data rest : bytes) w fuel,
    occurs a b (data ++ line ++ [a]) = false ->
    (length line + 2 <= fuel)%nat ->
    read_line_loop fuel [a; b] data (Serial (line ++ [a; b] ++ rest) w)
    = (Ok (data ++ line ++ [a; b]), Serial rest w).
Proof.
  induction line as [| c line IH]; intros data rest w fuel Hocc Hfuel.
  - cbn [app length] in *.
    destruct fuel as [| [| fuel]]; try lia.
    assert (H0 : occurs a b data = false).
    { destruct (occurs a b data) eqn:E; [| reflexivity].
      now rewrite (occurs_app_l _ _ _ [a] E) in Hocc. }
    rewrite read_line_loop_step by assumption.
    rewrite read_line_loop_step by assumption.
    rewrite <- app_assoc. apply read_line_loop_stop.
  - cbn [app length] in *. destruct fuel as [| fuel]; [lia |].
    assert (H0 : occurs a b data = false).
    { destruct (occurs a b data) eqn:E; [| reflexivity].
      now rewrite (occurs_app_l _ _ _ (c :: line ++ [a]) E) in Hocc. }
    rewrite read_line_loop_step by assumption.
    rewrite IH.
    + now rewrite <- app_assoc.
    + now rewrite <- app_assoc.
    + lia.
Qed.

(** [read_line] with a terminator whose encoding is the two bytes [a; b],
    on a port that delivers a clean line and the terminator: the line is
    decoded and the bytes after the terminator stay unread. *)
Lemma read_line_clean (le : text) (a b : byte) (line rest : bytes) w :
  forallb encodable le = true -> utf8 le = [a; b] ->
  clean a b line = true ->
  read_line (PyStr le) (Serial (line ++ [a; b] ++ rest) w)
  = (match utf8_decode line with
     | Some t => Ok t
     | None => Raise UnicodeDecodeError
     end, Serial rest w).
Proof.
  intros He Hu Hc. unfold clean in Hc. apply negb_true_iff in Hc.
  unfold read_line, encode, str_encode. rewrite He, Hu.
  unfold bind at 1. unfold ret at 1.
  unfold bind, bounded. cbn [in_buf].
  rewrite (read_line_loop_clean a b line [] rest w).
  - cbn [app]. rewrite slice_to_m2_app. unfold decode.
    destruct (utf8_decode line); reflexivity.
  - exact Hc.
  - rewrite !length_app. cbn [length]. lia.
Qed.

(** A response line: clean, and decoding to the text [t]. *)
Lemma read_line_text (line : bytes) (t : text) (rest : bytes) w :
  clean CR LF line = true ->
  utf8_decode line = Some t ->
  read_line (PyStr crlf) (Serial (line ++ CRLF ++ rest) w)
  = (Ok t, Serial rest w).
Proof.
  intros Hc Hd.
  pose proof (read_line_clean crlf CR LF line rest w eq_refl eq_refl Hc) as R.
  rewrite Hd in R. exact R.
Qed.

(** A response line that may fail to decode. *)
Lemma read_line_response (line rest : bytes) w :
  clean CR LF line = true ->
  read_line (PyStr crlf) (Serial (line ++ CRLF ++ rest) w)
  = (match utf8_decode line with
     | Some t => Ok t
     | None => Raise UnicodeDecodeError
     end, Serial rest w).
Proof. intros Hc. now apply (read_line_clean crlf CR LF). Qed.

(** A terminator longer than two bytes is never found: the test compares it
    with the last two bytes of the accumulator. *)
Lemma read_line_loop_long (le : bytes) :
  (2 < length le)%nat ->
  forall fuel data s, fst (read_line_loop fuel le data s) = Blocked.
Proof.
  intros Hlen.
  assert (T : forall data, bytes_eqb (slice_from data (-2)) le = false).
  { intros data. apply bytes_eqb_neq. intros E.
    apply (f_equal (@length byte)) in E.
    rewrite slice_from_m2, length_drop in E. lia. }
  induction fuel as [| fuel IH]; intros data s; cbn [read_line_loop];
    rewrite T; [reflexivity |].
  unfold bind, serial_read.
  destruct (Z.to_nat 1 <=? length (in_buf s))%nat; [apply IH | reflexivity].
Qed.

Lemma read_line_long (le : text) s :
  (2 < length (utf8 le))%nat -> forallb encodable le = true ->
  fst (read_line (PyStr le) s) = Blocked.
Proof.
  intros Hlen Henc. unfold read_line, encode, str_encode.
  rewrite Henc. unfold bind at 1. unfold ret at 1.
  unfold bind, bounded.
  pose proof (read_line_loop_long (utf8 le) Hlen (S (length (in_buf s))) [] s)
    as H.
  destruct (read_line_loop _ (utf8 le) [] s) as [[d | e |] s'];
    cbn [fst] in H; try discriminate H. reflexivity.
Qed.

(** A set passed as terminator fails before anything is read. *)
Lemma read_line_set (items : list text) s :
  read_line (PySet items) s = (Raise AttributeError, s).
Proof. reflexivity. Qed.

(** ** Sending a command *)

Lemma repr_encodable (s : text) : forallb encodable (Repr.repr s) = true.
Proof. apply printable_encodable, repr_printable. Qed.

Lemma pos_digits_printable (fuel : nat) :
  forall n acc, forallb isprintable acc = true ->
                forallb isprintable (pos_digits fuel n acc) = true.
Proof.
  induction fuel as [| fuel IH]; intros n acc H; cbn [pos_digits]; [exact H |].
  destruct (hexdigit_printable (n mod 10)) as [P _].
  destruct (n <? 10)%N.
  - cbn [forallb]. now rewrite P, H.
  - apply IH. cbn [forallb]. now rewrite P, H.
Qed.

Lemma str_of_int_printable (z : Z) :
  forallb isprintable (str_of_int z) = true.
Proof.
  unfold str_of_int. destruct (z <? 0); cbn [forallb];
    rewrite pos_digits_printable; reflexivity.
Qed.

Lemma str_of_int_encodable (z : Z) : forallb encodable (str_of_int z) = true.
Proof. apply printable_encodable, str_of_int_printable. Qed.

(** Every command the session builds can be encoded. *)
Ltac encodable :=
  repeat rewrite forallb_app;
  repeat rewrite repr_encodable;
  repeat rewrite str_of_int_encodable;
  reflexivity.

(** Stepping through a sequence of calls. *)
Lemma bind_ok {A B} (c : M A) (k : A -> M B) s a s' :
  c s = (Ok a, s') -> bind c k s = k a s'.
Proof. unfold bind. now intros ->. Qed.

Lemma bind_raise {A B} (c : M A) (k : A -> M B) s e s' :
  c s = (Raise e, s') -> bind c k s = (Raise e, s').
Proof. unfold bind. now intros ->. Qed.

Lemma bind_blocked {A B} (c : M A) (k : A -> M B) s s' :
  c s = (Blocked, s') -> bind c k s = (Blocked, s').
Proof. unfold bind. now intros ->. Qed.

Lemma str_encode_ok (d : text) s :
  forallb encodable d = true -> str_encode d s = (Ok (utf8 d), s).
Proof. unfold str_encode. now intros ->. Qed.

(** The payload of a command: its bytes and CRLF. *)
Lemma utf8_command (cmd : text) : utf8 (cmd ++ crlf) = utf8 cmd ++ CRLF.
Proof. now rewrite utf8_app. Qed.

(** [send_command] writes the command and its CRLF in one payload, then
    absorbs the echoed line, leaving what follows it unread. *)
Lemma send_command_clean (cmd : text) (echo rest : bytes) w :
  forallb encodable cmd = true ->
  clean CR LF echo = true ->
  send_command cmd (Serial (echo ++ CRLF ++ rest) w)
  = (match utf8_decode echo with
     | Some _ => Ok tt
     | None => Raise UnicodeDecodeError
     end, Serial rest (w ++ [utf8 cmd ++ CRLF])).
Proof.
  intros Hcmd Hecho. unfold send_command.
  erewrite bind_ok
    by (apply str_encode_ok; rewrite forallb_app, Hcmd; reflexivity).
  erewrite bind_ok by reflexivity. cbn [in_buf sent].
  rewrite utf8_command.
  pose proof (read_line_response echo rest (w ++ [utf8 cmd ++ CRLF]) Hecho)
    as R.
  destruct (utf8_decode echo).
  - erewrite bind_ok by exact R. reflexivity.
  - erewrite bind_raise by exact R. reflexivity.
Qed.

Lemma send_command_framed (cmd : text) (echo rest : bytes) w :
  forallb encodable cmd = true ->
  framed CR LF echo = true ->
  send_command cmd (Serial (echo ++ CRLF ++ rest) w)
  = (Ok tt, Serial rest (w ++ [utf8 cmd ++ CRLF])).
Proof.
  intros Hcmd Hf. unfold framed in Hf. apply andb_prop in Hf as [Hc Hd].
  apply bool_decide_eq_true in Hd.
  rewrite send_command_clean by assumption.
  destruct (utf8_decode echo); [reflexivity | contradiction].
Qed.

(** C8: with the three-byte terminator [bar] of [test_read_line] the read
    takes every delivered byte, the terminator and what follows it included,
    and never returns; the specification has it return the bytes before
    [bar] and leave [ baz] unread. *)
Theorem read_line_bar_never_returns :
  read_line (PyStr (ustr "bar")) port_read_line = (Blocked, Serial [] []).
Proof. vm_compute. reflexivity. Qed.

(** ** [dofile] *)

(** Whenever the existence check passes and the statement is echoed,
    [dofile] ends in the [AttributeError]. *)
Lemma dofile_existing_file (filename : text) (e1 found e2 rest : bytes)
      (tfound : text) w :
  framed CR LF e1 = true -> framed CR LF e2 = true ->
  clean CR LF found = true -> utf8_decode found = Some tfound ->
  tfound <> ustr "nil" ->
  dofile filename
    (Serial (e1 ++ CRLF ++ found ++ CRLF ++ e2 ++ CRLF ++ rest) w)
  = (Raise AttributeError,
     Serial rest
       (w ++ [utf8 (ustr "=file.list()[" ++ Repr.repr filename ++ ustr "]")
              ++ CRLF]
          ++ [utf8 (ustr "dofile(" ++ Repr.repr filename ++ ustr ")")
              ++ CRLF])).
Proof.
  intros F1 F2 Hc Hd Hn. unfold dofile.
  erewrite bind_ok by (apply send_command_framed; [encodable | exact F1]).
  erewrite bind_ok by (apply (read_line_text found tfound); assumption).
  apply text_eqb_neq in Hn. rewrite Hn.
  erewrite bind_ok by (apply send_command_framed; [encodable | exact F2]).
  rewrite read_line_set. now rewrite <- app_assoc.
Qed.

(** C4: on the exchange of [test_dofile] the file exists, the [dofile]
    statement is sent and echoed, and the read that should take the output
    up to the prompt raises [AttributeError]: the terminator is passed as a
    set.  The output and the prompt stay unread. *)
Theorem dofile_raises_AttributeError :
  dofile (ustr "test.lua") port_dofile
  = (Raise AttributeError,
     Serial (bstr "hello!" ++ CRLF ++ PROMPT)
            [bstr "=file.list()['test.lua']" ++ CRLF;
             bstr "dofile('test.lua')" ++ CRLF]).
Proof. vm_compute. reflexivity. Qed.

(** ** [restart] *)

Lemma except_other_propagates (c : M unit) s e s' :
  c s = (Raise e, s') -> e <> UnicodeDecodeError ->
  except_UnicodeDecodeError_pass c s = (Raise e, s').
Proof.
  unfold except_UnicodeDecodeError_pass. intros -> H.
  destruct e; congruence.
Qed.

(** C7: the port delivers the echo of the command, a first line up to the
    prompt and a second line up to the prompt.  When the echo and the first
    line decode, [restart] returns, whether the second line decodes or not;
    a decode failure of the echo or of the first line is raised to the
    caller, with the later lines unread. *)
Theorem restart_decode_failures (echo first second rest : bytes) w :
  clean CR LF echo = true ->
  clean ">"%byte " "%byte first = true ->
  clean ">"%byte " "%byte second = true ->
  restart (Serial (echo ++ CRLF ++ first ++ PROMPT ++ second ++ PROMPT ++ rest)
                  w)
  = match utf8_decode echo, utf8_decode first with
    | Some _, Some _ =>
      (Ok tt, Serial rest (w ++ [bstr "node.restart()" ++ CRLF]))
    | Some _, None =>
      (Raise UnicodeDecodeError,
       Serial (second ++ PROMPT ++ rest) (w ++ [bstr "node.restart()" ++ CRLF]))
    | None, _ =>
      (Raise UnicodeDecodeError,
       Serial (first ++ PROMPT ++ second ++ PROMPT ++ rest)
              (w ++ [bstr "node.restart()" ++ CRLF]))
    end.
Proof.
  intros He H1 H2. unfold restart.
  pose proof (send_command_clean (ustr "node.restart()") echo
                (first ++ PROMPT ++ second ++ PROMPT ++ rest) w
                eq_refl He) as S0.
  change (utf8 (ustr "node.restart()")) with (bstr "node.restart()") in S0.
  destruct (utf8_decode echo) as [te |].
  2: { erewrite bind_raise by exact S0. reflexivity. }
  erewrite bind_ok by exact S0.
  pose proof (read_line_clean (ustr "> ") ">"%byte " "%byte first
                (second ++ PROMPT ++ rest)
                (w ++ [bstr "node.restart()" ++ CRLF]) eq_refl eq_refl H1)
    as S1.
  destruct (utf8_decode first) as [t1 |].
  2: { erewrite bind_raise by exact S1. reflexivity. }
  erewrite bind_ok by exact S1.
  pose proof (read_line_clean (ustr "> ") ">"%byte " "%byte second rest
                (w ++ [bstr "node.restart()" ++ CRLF]) eq_refl eq_refl H2)
    as S2.
  unfold except_UnicodeDecodeError_pass.
  destruct (utf8_decode second) as [t2 |].
  - erewrite bind_ok by exact S2. reflexivity.
  - erewrite bind_raise by exact S2. reflexivity.
Qed.

(** The exchange of [test_restart]: the garbage of the reboot is the second
    line, and [restart] returns. *)
Lemma restart_decode_failures_witness :
  restart (port [bstr "node.restart()"; CRLF; PROMPT; restart_garbage; PROMPT])
  = (Ok tt, Serial [] [bstr "node.restart()" ++ CRLF]).
Proof.
  exact (restart_decode_failures (bstr "node.restart()") [] restart_garbage
           [] [] eq_refl eq_refl eq_refl).
Defined.

(** ** What a completed read has taken *)

Lemma slice_m2_split (data : bytes) (a b : byte) :
  slice_from data (-2) = [a; b] -> data = slice_to data (-2) ++ [a; b].
Proof.
  intros H. rewrite <- H, slice_to_m2, slice_from_m2.
  symmetry. apply take_drop.
Qed.

Lemma read_line_loop_taken (le : bytes) (fuel : nat) :
  forall data s data' s',
    read_line_loop fuel le data s = (Ok data', s') ->
    slice_from data' (-2) = le /\
    data ++ in_buf s = data' ++ in_buf s' /\
    sent s' = sent s.
Proof.
  induction fuel as [| fuel IH]; intros data s data' s';
    cbn [read_line_loop]; destruct (bytes_eqb _ le) eqn:T;
    try (intros [= <- <-]; apply bytes_eqb_eq in T; now repeat split);
    try discriminate.
  unfold bind, serial_read.
  destruct (Nat.leb_spec (Z.to_nat 1) (length (in_buf s))) as [L | L];
    [| discriminate].
  intros H. apply IH in H as [H1 [H2 H3]]. split; [exact H1 |].
  cbn [in_buf sent] in H2, H3. split; [| exact H3].
  now rewrite <- H2, <- app_assoc, take_drop.
Qed.

(** An occurrence of the pair lies before the last byte, or is the last
    two bytes. *)
Lemma occurs_end (a b : byte) (data : bytes) :
  occurs a b data = true ->
  occurs a b (removelast data) = true \/ slice_from data (-2) = [a; b].
Proof.
  induction data as [| x r IH]; [discriminate |].
  destruct r as [| y r']; [discriminate |].
  destruct r' as [| z r''].
  - cbn [occurs]. rewrite orb_false_r. intros H.
    apply andb_prop in H as [H1 H2].
    apply Byte.byte_dec_bl in H1, H2. subst. right. reflexivity.
  - intros H.
    change (occurs a b (x :: y :: z :: r''))
      with ((Byte.eqb x a && Byte.eqb y b) || occurs a b (y :: z :: r''))
      in H.
    change (removelast (x :: y :: z :: r''))
      with (x :: y :: removelast (z :: r'')).
    change (occurs a b (x :: y :: removelast (z :: r'')))
      with ((Byte.eqb x a && Byte.eqb y b)
            || occurs a b (y :: removelast (z :: r''))).
    apply orb_prop in H as [H | H]; [left; now rewrite H |].
    apply IH in H as [H | H].
    + left. change (removelast (y :: z :: r''))
        with (y :: removelast (z :: r'')) in H.
      rewrite H. apply orb_true_r.
    + right. rewrite slice_from_m2 in H |- *. cbn [length] in H |- *.
      replace (S (S (S (length r''))) - 2)%nat with (S (length r'')) by lia.
      replace (S (S (length r'')) - 2)%nat with (length r'') in H by lia.
      exact H.
Qed.

(** A line read stops at the first occurrence of its two-byte terminator:
    when none lies before the last byte read so far, none lies before the
    last byte of what the read returns. *)
Lemma read_line_loop_first (a b : byte) (fuel : nat) :
  forall data s data' s',
    read_line_loop fuel [a; b] data s = (Ok data', s') ->
    occurs a b (removelast data) = false ->
    occurs a b (removelast data') = false.
Proof.
  induction fuel as [| fuel IH]; intros data s data' s';
    cbn [read_line_loop]; destruct (bytes_eqb _ [a; b]) eqn:T;
    try (intros [= <- <-]; auto); try discriminate.
  unfold bind, serial_read.
  destruct (Nat.leb_spec (Z.to_nat 1) (length (in_buf s))) as [L | L];
    [| discriminate].
  intros H Hocc. apply IH in H; [exact H |].
  destruct (in_buf s) as [| c inp]; [cbn [length] in L; lia |].
  change (firstn (Z.to_nat 1) (c :: inp)) with [c].
  rewrite removelast_last.
  destruct (occurs a b data) eqn:O; [| reflexivity].
  apply occurs_end in O as [O | O]; [congruence |].
  apply bytes_eqb_neq in T. contradiction.
Qed.

(** A line read that returns has taken the line and the terminator from
    the port, and has written nothing. *)
Lemma read_line_taken_bytes (le : text) s t s' :
  read_line (PyStr le) s = (Ok t, s') ->
  exists data,
    in_buf s = data ++ in_buf s' /\
    slice_from data (-2) = utf8 le /\
    utf8_decode (slice_to data (-2)) = Some t /\
    sent s' = sent s.
Proof.
  unfold read_line, encode, str_encode.
  destruct (forallb encodable le); [| discriminate].
  unfold bind at 1. unfold ret at 1. unfold bind, bounded.
  destruct (read_line_loop _ (utf8 le) [] s) as [[data | e |] s1] eqn:E;
    try discriminate.
  apply read_line_loop_taken in E as [E1 [E2 E3]]. unfold decode.
  destruct (utf8_decode _) as [t' |] eqn:D; [| discriminate].
  intros [= <- <-]. exists data. cbn [app] in E2. auto.
Qed.

Lemma read_line_taken (le : text) s t s' :
  length (utf8 le) = 2%nat ->
  read_line (PyStr le) s = (Ok t, s') ->
  (length (in_buf s') + 2 <= length (in_buf s))%nat.
Proof.
  intros Hle H. apply read_line_taken_bytes in H as [data [H1 [H2 _]]].
  apply (f_equal (@length byte)) in H2.
  rewrite slice_from_m2, length_drop, Hle in H2.
  rewrite H1, length_app. lia.
Qed.

(** A line read with the default terminator that returns has taken a clean
    line and its CRLF. *)
Lemma read_line_crlf_taken s t s' :
  read_line (PyStr crlf) s = (Ok t, s') ->
  exists line,
    in_buf s = line ++ CRLF ++ in_buf s' /\
    clean CR LF line = true /\
    utf8_decode line = Some t /\
    sent s' = sent s.
Proof.
  unfold read_line, encode, str_encode.
  replace (forallb encodable crlf) with true by reflexivity.
  unfold bind at 1. unfold ret at 1. unfold bind, bounded.
  change (utf8 crlf) with [CR; LF].
  destruct (read_line_loop _ [CR; LF] [] s) as [[data | e |] s1] eqn:E;
    try discriminate.
  pose proof (read_line_loop_first _ _ _ _ _ _ _ E eq_refl) as F.
  apply read_line_loop_taken in E as [E1 [E2 E3]]. unfold decode.
  destruct (utf8_decode _) as [t' |] eqn:D; [| discriminate].
  intros [= <- <-]. exists (slice_to data (-2)). cbn [app] in E2.
  pose proof (slice_m2_split data CR LF E1) as Sp.
  split; [| split; [| split; [exact D | exact E3]]].
  - rewrite E2. rewrite Sp at 1. now rewrite <- app_assoc.
  - unfold clean. apply negb_true_iff. rewrite Sp in F.
    change [CR; LF] with ([CR] ++ [LF]) in F.
    now rewrite app_assoc, removelast_last in F.
Qed.

(** A command that returns has written its payload and taken exactly the
    echoed line, a clean line, and its CRLF. *)
Lemma send_command_echo (cmd : text) s s' :
  send_command cmd s = (Ok tt, s') ->
  exists echo,
    in_buf s = echo ++ CRLF ++ in_buf s' /\
    clean CR LF echo = true /\
    sent s' = sent s ++ [utf8 cmd ++ CRLF].
Proof.
  unfold send_command, str_encode.
  destruct (forallb encodable (cmd ++ crlf)); [| discriminate].
  unfold bind at 1. unfold ret at 1. unfold bind at 1.
  unfold serial_write at 1. cbn [fst snd].
  unfold bind.
  destruct (read_line (PyStr crlf) _) as [[t | e |] s1] eqn:E;
    try discriminate.
  intros [= <-].
  apply read_line_crlf_taken in E as [echo [H1 [H2 [_ H4]]]].
  cbn [in_buf sent] in H1, H4.
  exists echo. split; [exact H1 | split; [exact H2 |]].
  now rewrite H4, utf8_command.
Qed.

Lemma send_command_taken (cmd : text) s s' :
  send_command cmd s = (Ok tt, s') ->
  (length (in_buf s') + 2 <= length (in_buf s))%nat.
Proof.
  intros H. apply send_command_echo in H as [echo [H _]].
  rewrite H, !length_app. change (length CRLF) with 2%nat. lia.
Qed.

(** ** What the methods do to the port *)

Lemma steady_ret {A} (P : exn -> Prop) (a : A) : steady P (ret a).
Proof.
  intros s. cbn. split; [exists []; now rewrite app_nil_r |].
  split; [lia | discriminate].
Qed.

Lemma steady_raise {A} (P : exn -> Prop) (e : exn) :
  P e -> steady P (@raise A e).
Proof.
  intros He s. cbn. split; [exists []; now rewrite app_nil_r |].
  split; [lia |]. now intros e' [= <-].
Qed.

Lemma steady_blocked {A} (P : exn -> Prop) : steady P (@blocked A).
Proof.
  intros s. cbn. split; [exists []; now rewrite app_nil_r |].
  split; [lia | discriminate].
Qed.

Lemma steady_bind {A B} (P : exn -> Prop) (c : M A) (k : A -> M B) :
  steady P c -> (forall a, steady P (k a)) -> steady P (bind c k).
Proof.
  intros Hc Hk s. unfold bind.
  destruct (Hc s) as [[m1 S1] [L1 R1]].
  destruct (c s) as [[a | e |] s1]; cbn [fst snd] in *.
  - destruct (Hk a s1) as [[m2 S2] [L2 R2]].
    split; [| split].
    + exists (m1 ++ m2). now rewrite S2, S1, app_assoc.
    + lia.
    + exact R2.
  - split; [eauto | split; [exact L1 |]].
    intros e' [= <-]. now apply R1.
  - split; [eauto | split; [exact L1 | discriminate]].
Qed.

Lemma steady_weaken {A} (P Q : exn -> Prop) (c : M A) :
  (forall e, P e -> Q e) -> steady P c -> steady Q c.
Proof.
  intros H Hc s. destruct (Hc s) as [S1 [L1 R1]].
  split; [exact S1 | split; [exact L1 |]]. intros e He. auto.
Qed.

Lemma steady_if {A} (P : exn -> Prop) (b : bool) (c d : M A) :
  steady P c -> steady P d -> steady P (if b then c else d).
Proof. now destruct b. Qed.

Lemma steady_serial_read (P : exn -> Prop) (n : Z) : steady P (serial_read n).
Proof.
  intros s. unfold serial_read.
  destruct (Z.to_nat n <=? length (in_buf s))%nat; cbn [fst snd in_buf sent].
  - split; [exists []; now rewrite app_nil_r |].
    split; [rewrite length_drop; lia | discriminate].
  - split; [exists []; now rewrite app_nil_r |].
    split; [lia | discriminate].
Qed.

Lemma steady_serial_write (P : exn -> Prop) (d : bytes) :
  steady P (serial_write d).
Proof.
  intros s. cbn. split; [eauto | split; [lia | discriminate]].
Qed.

Lemma steady_str_encode (d : text) : steady codec_error (str_encode d).
Proof.
  unfold str_encode. apply steady_if;
    [apply steady_ret | apply steady_raise; right; now left].
Qed.

Lemma steady_read_line_loop (P : exn -> Prop) (le : bytes) (fuel : nat) :
  forall data, steady P (read_line_loop fuel le data).
Proof.
  induction fuel as [| fuel IH]; intros data; cbn [read_line_loop];
    apply steady_if; try apply steady_ret; [apply steady_blocked |].
  apply steady_bind; [apply steady_serial_read | intros c; apply IH].
Qed.

Lemma steady_bounded {A} (P : exn -> Prop) (loop : nat -> M A) :
  (forall fuel, steady P (loop fuel)) -> steady P (bounded loop).
Proof. intros H s. apply (H (S (length (in_buf s)))). Qed.

Lemma steady_read_line (o : pyobj) : steady codec_error (read_line o).
Proof.
  unfold read_line. apply steady_bind.
  - destruct o; [apply steady_str_encode
                | apply steady_raise; right; now right].
  - intros le. apply steady_bind.
    + apply steady_bounded. intros fuel. apply steady_read_line_loop.
    + intros data. unfold decode. destruct (utf8_decode _);
        [apply steady_ret | apply steady_raise; now left].
Qed.

Lemma steady_send_command (cmd : text) : steady codec_error (send_command cmd).
Proof.
  unfold send_command. apply steady_bind; [apply steady_str_encode |].
  intros d. apply steady_bind; [apply steady_serial_write |].
  intros _. apply steady_bind; [apply steady_read_line |].
  intros _. apply steady_ret.
Qed.




Lemma steady_write_file_loop (block_size : Z) (fuel : nat) :
  forall data, steady write_error (write_file_loop fuel data block_size).
Proof.
  induction fuel as [| fuel IH]; intros data; cbn [write_file_loop];
    destruct data as [| c data]; try apply steady_ret;
    [apply steady_blocked |].
  apply steady_bind.
  { eapply steady_weaken; [| apply steady_send_command]. now left. }
  intros _. apply steady_bind.
  { eapply steady_weaken; [| apply steady_read_line]. now left. }
  intros response. apply steady_if; [| apply IH].
  apply steady_raise. right. now exists response.
Qed.

Lemma steady_read_file_loop (block_size : Z) (fuel : nat) :
  forall size data,
    steady codec_error (read_file_loop fuel size block_size data).
Proof.
  induction fuel as [| fuel IH]; intros size data; cbn [read_file_loop];
    apply steady_if; try apply steady_ret; [apply steady_blocked |].
  apply steady_bind; [apply steady_send_command |].
  intros _. apply steady_bind; [apply steady_serial_read | intros c; apply IH].
Qed.

(** ** [read_file] *)

Lemma read_file_loop_done (fuel : nat) (block_size : Z) (data : bytes) s :
  read_file_loop fuel 0 block_size data s = (Ok data, s).
Proof. destruct fuel; reflexivity. Qed.

(** A remaining size below the block size never reaches zero: the block is
    the larger of the two, so the remainder goes negative and stays so. *)
Lemma read_file_loop_overshoots (block_size : Z) :
  0 < block_size ->
  forall fuel size data s d,
    size < block_size -> size <> 0 ->
    fst (read_file_loop fuel size block_size data s) <> Ok d.
Proof.
  intros HB. induction fuel as [| fuel IH]; intros size data s d Hlt Hnz;
    cbn [read_file_loop]; destruct (Z.eqb_spec size 0) as [| _];
    try contradiction; [discriminate |].
  unfold bind at 1.
  destruct (send_command _ s) as [[[] | e |] s1]; try discriminate.
  unfold bind at 1.
  destruct (serial_read _ s1) as [[chunk | e |] s2]; try discriminate.
  apply IH; lia.
Qed.

(** C1: reading the three-byte file of [test_read_file] with block size 2.
    The session sends one block request, for 3 = max(3, 2) bytes, where the
    specification has two, for 2 = min(3, 2) bytes and then 1.  On a device
    that answers the request the three bytes come back in that single block;
    on the script of [test_read_file], which answers a request for two
    bytes, the third byte returned is the first byte of the next echo. *)
Theorem read_file_requests_larger_block :
  read_file (ustr "test.txt") 2 port_read_file_answered
  = (Ok [1; 2; 3]%N,
     Serial []
       [bstr "file.close()" ++ CRLF;
        bstr "=file.list()['test.txt']" ++ CRLF;
        bstr "=file.open('test.txt', 'r')" ++ CRLF;
        bstr "uart.write(0, file.read(3))" ++ CRLF]) /\
  read_file (ustr "test.txt") 2 port_read_file
  = (Ok [1; 2; 117]%N,
     Serial (bstr "art.write(0, file.read(1))" ++ CRLF ++ [x03])
       [bstr "file.close()" ++ CRLF;
        bstr "=file.list()['test.txt']" ++ CRLF;
        bstr "=file.open('test.txt', 'r')" ++ CRLF;
        bstr "uart.write(0, file.read(3))" ++ CRLF]).
Proof. split; vm_compute; reflexivity. Qed.

Lemma py_int_not_nil (t : text) (z : Z) :
  py_int t = Some z -> text_eqb t (ustr "nil") = false.
Proof.
  intros H. apply text_eqb_neq. intros ->. vm_compute in H. discriminate H.
Qed.

(** The exchanges every [read_file] of an existing file starts with, up to
    the echo of the open request. *)
Lemma read_file_opening (filename : text) (block_size size : Z)
      (e1 e2 sz e3 rest : bytes) w :
  forallb (framed CR LF) [e1; e2; e3] = true ->
  clean CR LF sz = true -> int_line sz = Some size ->
  read_file filename block_size
    (Serial (e1 ++ CRLF ++ e2 ++ CRLF ++ sz ++ CRLF ++ e3 ++ CRLF ++ rest) w)
  = (opened <- read_line (PyStr crlf) ;;
     if negb (text_eqb opened (ustr "true"))
     then raise (IOError "Could not open file!" [])
     else (data <- bounded (fun fuel =>
                              read_file_loop fuel size block_size []) ;;
           decode data))
      (Serial rest
         (w ++ [bstr "file.close()" ++ CRLF;
                utf8 (ustr "=file.list()[" ++ Repr.repr filename ++ ustr "]")
                ++ CRLF;
                utf8 (ustr "=file.open(" ++ Repr.repr filename ++ ustr ", 'r')")
                ++ CRLF])).
Proof.
  intros Hf Hsz Hint.
  cbn [forallb] in Hf.
  apply andb_prop in Hf as [F1 Hf]. apply andb_prop in Hf as [F2 Hf].
  apply andb_prop in Hf as [F3 _].
  unfold int_line in Hint.
  destruct (utf8_decode sz) as [tsz |] eqn:Dsz; [| discriminate].
  unfold read_file.
  erewrite bind_ok by (apply send_command_framed; [encodable | exact F1]).
  erewrite bind_ok by (apply send_command_framed; [encodable | exact F2]).
  erewrite bind_ok by (apply (read_line_text sz tsz); assumption).
  rewrite (py_int_not_nil _ _ Hint).
  unfold int at 1. rewrite Hint.
  erewrite bind_ok by reflexivity.
  erewrite bind_ok by (apply send_command_framed; [encodable | exact F3]).
  now rewrite <- !app_assoc.
Qed.

(** The same, once the device has answered the open with [true]. *)
Lemma read_file_opened (filename : text) (block_size size : Z)
      (e1 e2 sz e3 rest : bytes) w :
  forallb (framed CR LF) [e1; e2; e3] = true ->
  clean CR LF sz = true -> int_line sz = Some size ->
  read_file filename block_size
    (Serial (e1 ++ CRLF ++ e2 ++ CRLF ++ sz ++ CRLF
             ++ e3 ++ CRLF ++ bstr "true" ++ CRLF ++ rest) w)
  = (data <- bounded (fun fuel => read_file_loop fuel size block_size []) ;;
     decode data)
      (Serial rest
         (w ++ [bstr "file.close()" ++ CRLF;
                utf8 (ustr "=file.list()[" ++ Repr.repr filename ++ ustr "]")
                ++ CRLF;
                utf8 (ustr "=file.open(" ++ Repr.repr filename ++ ustr ", 'r')")
                ++ CRLF])).
Proof.
  intros Hf Hsz Hint.
  rewrite (read_file_opening _ _ size) by assumption.
  erewrite bind_ok
    by (apply (read_line_text (bstr "true") (ustr "true")); reflexivity).
  reflexivity.
Qed.

(** A file shorter than the block size is never returned: whatever the
    device delivers after the open, [read_file] blocks or raises. *)
Lemma read_file_short_never_returns
      (filename : text) (block_size size : Z)
      (e1 e2 sz e3 rest : bytes) w :
  forallb (framed CR LF) [e1; e2; e3] = true ->
  clean CR LF sz = true ->
  int_line sz = Some size ->
  0 < size < block_size ->
  forall t,
    fst (read_file filename block_size
           (Serial (e1 ++ CRLF ++ e2 ++ CRLF ++ sz ++ CRLF
                    ++ e3 ++ CRLF ++ bstr "true" ++ CRLF ++ rest) w))
    <> Ok t.
Proof.
  intros Hf Hsz Hint Hsize t.
  rewrite (read_file_opened _ _ size) by assumption.
  unfold bind, bounded.
  match goal with
  | |- context [read_file_loop ?f size block_size [] ?s] =>
    pose proof (read_file_loop_overshoots block_size ltac:(lia) f size [] s)
      as H;
    destruct (read_file_loop f size block_size [] s) as [[d | e |] s1]
  end; cbn [fst] in *; try discriminate.
  exfalso. apply (H d); [lia | lia | reflexivity].
Qed.





(** ** [list_files] *)

Lemma partition_tab (l r : text) :
  existsb (N.eqb tab) l = false ->
  partition tab (l ++ tab :: r) = (l, [tab], r).
Proof.
  induction l as [| c l IH]; intros H.
  - reflexivity.
  - cbn [existsb] in H. apply orb_false_elim in H as [Hc Hl].
    cbn [app partition]. rewrite N.eqb_sym, Hc, (IH Hl). reflexivity.
Qed.

Lemma ascii_text_no_tab (l : bytes) :
  existsb (Byte.eqb TAB) l = false ->
  existsb (N.eqb tab) (ascii_text l) = false.
Proof.
  induction l as [| c l IH]; [reflexivity |]. cbn [existsb ascii_text map].
  intros H. apply orb_false_elim in H as [Hc Hl].
  fold (ascii_text l). rewrite (IH Hl), orb_false_r.
  destruct c; first [discriminate Hc | reflexivity].
Qed.

Lemma length_ascii_text (l : bytes) : length (ascii_text l) = length l.
Proof. apply length_map. Qed.

(** One well printed line is read and entered in the mapping. *)
Lemma list_files_loop_step (e : listed) (n : nat) (files : gmap text Z)
      (rest : bytes) w :
  well_printed e = true ->
  list_files_loop (S n) files (Serial (line_bytes e ++ CRLF ++ rest) w)
  = list_files_loop n (<[ascii_text (name e) := size_value e]> files)
      (Serial rest w).
Proof.
  unfold well_printed. intros H.
  apply andb_prop in H as [H H5]. apply andb_prop in H as [H H4].
  apply andb_prop in H as [H H3]. apply andb_prop in H as [H1 H2].
  apply bool_decide_eq_true in H4, H5. apply negb_true_iff in H3.
  cbn [list_files_loop].
  erewrite bind_ok
    by (apply read_line_text; [exact H1 | now apply utf8_decode_ascii]).
  unfold line_bytes. rewrite !ascii_text_app.
  change (ascii_text [TAB]) with [tab]. cbn [app].
  rewrite (partition_tab _ _ (ascii_text_no_tab _ H3)).
  unfold int at 1. rewrite H4. erewrite bind_ok by reflexivity.
  rewrite <- (length_ascii_text (name e)).
  change (ascii_text (name e) ++ tab :: ascii_text (size_field e))
    with (ascii_text (name e) ++ [tab] ++ ascii_text (size_field e)).
  rewrite slice_to_app_length. cbn [app]. rewrite slice_from_app_succ.
  unfold int at 1. rewrite H5. erewrite bind_ok by reflexivity.
  reflexivity.
Qed.

Lemma list_files_loop_all (entries : list listed) :
  forall (files : gmap text Z) (rest : bytes) w,
    forallb well_printed entries = true ->
    list_files_loop (length entries) files
      (Serial (concat (map (fun e => line_bytes e ++ CRLF) entries) ++ rest) w)
    = (Ok (fold_left (fun m e => <[ascii_text (name e) := size_value e]> m)
                     entries files),
       Serial rest w).
Proof.
  induction entries as [| e entries IH]; intros files rest w H.
  - reflexivity.
  - cbn [forallb] in H. apply andb_prop in H as [He Hs].
    cbn [length map concat fold_left]. rewrite <- !app_assoc.
    rewrite list_files_loop_step by exact He. now apply IH.
Qed.

(** The count line and the two statements every listing starts with. *)
Lemma list_files_opening (e1 count e2 rest : bytes) (n : Z) w :
  framed CR LF e1 = true -> framed CR LF e2 = true ->
  clean CR LF count = true -> int_line count = Some n ->
  list_files (Serial (e1 ++ CRLF ++ count ++ CRLF ++ e2 ++ CRLF ++ rest) w)
  = list_files_loop (Z.to_nat n) ∅
      (Serial rest (w ++ [utf8 COUNT_FILES ++ CRLF; utf8 PRINT_FILES ++ CRLF])).
Proof.
  intros F1 F2 Hc Hn. unfold int_line in Hn.
  destruct (utf8_decode count) as [tc |] eqn:Dc; [| discriminate].
  unfold list_files.
  erewrite bind_ok by (apply send_command_framed; [reflexivity | exact F1]).
  erewrite bind_ok by (apply (read_line_text count tc); assumption).
  unfold int at 1. rewrite Hn. erewrite bind_ok by reflexivity.
  erewrite bind_ok by (apply send_command_framed; [reflexivity | exact F2]).
  now rewrite <- app_assoc.
Qed.

(** C3, as stated, fails on its scenario: without a TAB between a name and
    its size the first size is read without its first digit, as 23, and the
    second line has no size left, so that [int] raises.  And the name is
    not cut by bytes: of the line the device prints for a file of 10 bytes
    named [e-acute.txt], six bytes long, the six characters after the
    length are taken, the TAB included, and the size is read as 0. *)
Lemma list_files_untabbed_raises :
  fst (list_files port_list_files_untabbed) = Raise ValueError /\
  fst (list_files port_list_files_untabbed)
  <> Ok (<[ustr "foo.txt" := 123]> (<[tab :: ustr ".tab" := 0]> ∅)) /\
  fst (list_files port_list_files_accented)
  = Ok (<[0xe9%N :: ustr ".txt" ++ [tab] := 0]> ∅) /\
  fst (list_files port_list_files_accented)
  <> Ok (<[0xe9%N :: ustr ".txt" := 10]> ∅).
Proof.
  assert (E : fst (list_files port_list_files_untabbed) = Raise ValueError)
    by (vm_compute; reflexivity).
  assert (F : fst (list_files port_list_files_accented)
              = Ok (<[0xe9%N :: ustr ".txt" ++ [tab] := 0]> ∅))
    by (vm_compute; reflexivity).
  split; [exact E |]. split; [rewrite E; discriminate |].
  split; [exact F |]. rewrite F. intros H.
  apply (f_equal (fun o => match o with
                           | Ok m => m !! (0xe9%N :: ustr ".txt")
                           | _ => None
                           end)) in H.
  vm_compute in H. discriminate H.
Qed.

(** C3, amended: after the count line, which spells the number of entries,
    and the echo of the listing statement, [list_files] reads exactly that
    many lines.  Of each line of ASCII bytes it takes the integer before
    the first TAB as the length N of the name, the first N bytes of the
    remainder as the name, and everything after the TAB that follows the
    name as the size.  It returns the mapping of the names to the sizes and
    leaves what follows the last line unread. *)
Theorem list_files_parses (e1 count e2 : bytes) (entries : list listed)
        (rest : bytes) w :
  framed CR LF e1 = true ->
  framed CR LF e2 = true ->
  clean CR LF count = true ->
  int_line count = Some (Z.of_nat (length entries)) ->
  forallb well_printed entries = true ->
  list_files
    (Serial (e1 ++ CRLF ++ count ++ CRLF ++ e2 ++ CRLF
             ++ concat (map (fun e => line_bytes e ++ CRLF) entries) ++ rest)
            w)
  = (Ok (fold_left (fun m e => <[ascii_text (name e) := size_value e]> m)
                   entries ∅),
     Serial rest (w ++ [utf8 COUNT_FILES ++ CRLF; utf8 PRINT_FILES ++ CRLF])).
Proof.
  intros F1 F2 Hc Hn He.
  rewrite (list_files_opening _ _ _ _ _ _ F1 F2 Hc Hn).
  rewrite Nat2Z.id. now apply list_files_loop_all.
Qed.

(** The two files of the scenario, printed with the TAB before the size:
    [7 foo.txt 123] and [5 <TAB>.tab 0] give the mapping of [foo.txt] to 123
    and of [<TAB>.tab] to 0. *)
Lemma list_files_parses_witness :
  list_files
    (Serial (utf8 COUNT_FILES ++ CRLF ++ bstr "2" ++ CRLF
             ++ utf8 PRINT_FILES ++ CRLF
             ++ concat (map (fun e => line_bytes e ++ CRLF) [foo_txt; tab_tab])
             ++ []) [])
  = (Ok (<[tab :: ustr ".tab" := 0]> (<[ustr "foo.txt" := 123]> ∅)),
     Serial [] [utf8 COUNT_FILES ++ CRLF; utf8 PRINT_FILES ++ CRLF]).
Proof.
  apply (list_files_parses (utf8 COUNT_FILES) (bstr "2") (utf8 PRINT_FILES)
           [foo_txt; tab_tab] [] []); reflexivity.
Defined.

(** ** [write_file] *)

(** A command that can be encoded is written before anything is read. *)
Lemma send_command_writes {B} (cmd : text) (k : unit -> M B) s :
  forallb encodable cmd = true ->
  bind (send_command cmd) k s
  = bind (_ <- read_line (PyStr crlf) ;; ret tt) k
         (Serial (in_buf s) (sent s ++ [utf8 cmd ++ CRLF])).
Proof.
  intros H.
  assert (E : str_encode (cmd ++ crlf) s = (Ok (utf8 cmd ++ CRLF), s))
    by (rewrite <- utf8_command; apply str_encode_ok;
        rewrite forallb_app, H; reflexivity).
  unfold send_command. unfold bind at 1. unfold bind at 1. rewrite E.
  unfold bind at 1. unfold serial_write at 1. cbn [in_buf sent].
  reflexivity.
Qed.

Lemma length_slice_from {A} (data : list A) (block_size : Z) :
  0 < block_size ->
  Z.of_nat (length (slice_from data block_size))
  = Z.max 0 (Z.of_nat (length data) - block_size).
Proof.
  intros H. unfold slice_from, py_index. rewrite length_drop.
  destruct (Z.ltb_spec block_size 0); lia.
Qed.

Lemma length_acknowledged (echoes : list bytes) (tail : bytes) :
  (length echoes <= length (acknowledged echoes ++ tail))%nat.
Proof.
  unfold acknowledged. induction echoes as [| e echoes IH]; cbn [length].
  - lia.
  - cbn [map concat]. rewrite !length_app in *.
    change (length CRLF) with 2%nat. lia.
Qed.

Lemma acknowledged_cons (o : bytes) (oks : list bytes) (tail : bytes) :
  acknowledged (o :: oks) ++ tail
  = o ++ CRLF ++ bstr "true" ++ CRLF ++ acknowledged oks ++ tail.
Proof. unfold acknowledged. cbn [map concat]. now rewrite <- !app_assoc. Qed.

(** After any number of acknowledged blocks, a response other than [true]
    stops the loop: with the error that carries the response when the
    response decodes, with the decode error when it does not. *)
Lemma write_file_loop_fails (block_size : Z) (e r rest : bytes) :
  0 < block_size ->
  framed CR LF e = true ->
  clean CR LF r = true -> utf8_decode r <> Some (ustr "true") ->
  forall (oks : list bytes) (data : text) w fuel,
    forallb (framed CR LF) oks = true ->
    Z.of_nat (length oks) * block_size < Z.of_nat (length data) ->
    (length oks < fuel)%nat ->
    write_file_loop fuel data block_size
      (Serial (acknowledged oks ++ e ++ CRLF ++ r ++ CRLF ++ rest) w)
    = (Raise (match utf8_decode r with
              | Some tr => IOError "Write failed! (Return value: {})" [tr]
              | None => UnicodeDecodeError
              end),
       Serial rest (w ++ write_requests (S (length oks)) data block_size)).
Proof.
  intros HB He Hr Ntrue.
  induction oks as [| o oks IH]; intros data w fuel Hoks Hlen Hfuel.
  - cbn [length] in *. destruct fuel as [| fuel]; [lia |].
    destruct data as [| c data]; [cbn [length] in Hlen; lia |].
    cbn [write_file_loop acknowledged map concat app write_requests].
    erewrite bind_ok by (apply send_command_framed; [encodable | exact He]).
    pose proof (read_line_response r rest
                  (w ++ [utf8 (ustr "=file.write("
                               ++ Repr.repr (slice_to (c :: data) block_size)
                               ++ ustr ")") ++ CRLF]) Hr) as R.
    destruct (utf8_decode r) as [tr |].
    + erewrite bind_ok by exact R.
      assert (N : tr <> ustr "true") by congruence.
      apply text_eqb_neq in N. rewrite N. reflexivity.
    + erewrite bind_raise by exact R. reflexivity.
  - cbn [length forallb] in *. apply andb_prop in Hoks as [Ho Hoks].
    destruct fuel as [| fuel]; [lia |].
    destruct data as [| c data]; [cbn [length] in Hlen; lia |].
    rewrite acknowledged_cons. cbn [write_file_loop].
    erewrite bind_ok by (apply send_command_framed; [encodable | exact Ho]).
    erewrite bind_ok
      by (apply (read_line_text (bstr "true") (ustr "true")); reflexivity).
    replace (negb (text_eqb (ustr "true") (ustr "true"))) with false
      by reflexivity.
    rewrite IH.
    + cbn [write_requests]. now rewrite <- app_assoc.
    + exact Hoks.
    + rewrite length_slice_from by exact HB. lia.
    + lia.
Qed.

(** Once the open is accepted and there is data, the first write-block
    request goes out; what follows only appends to the log and raises, if
    anything, a codec error or the write error. *)
Lemma write_file_blocks_first (data : text) (block_size : Z) s :
  data <> [] ->
  let c := (_ <- bounded (fun fuel => write_file_loop fuel data block_size) ;;
            send_command (ustr "file.close()")) in
  (exists more,
      sent (snd (c s)) = sent s ++ write_requests 1 data block_size ++ more) /\
  (forall e, fst (c s) = Raise e -> write_error e).
Proof.
  intros Hdata. destruct data as [| c0 data]; [contradiction |]. intros c.
  set (req := ustr "=file.write(" ++ Repr.repr (slice_to (c0 :: data) block_size)
              ++ ustr ")").
  set (k := fun _ : unit =>
              response <- read_line (PyStr crlf) ;;
              if negb (text_eqb response (ustr "true"))
              then raise (IOError "Write failed! (Return value: {})" [response])
              else write_file_loop (length (in_buf s))
                     (slice_from (c0 :: data) block_size) block_size).
  set (c' := _ <- (bind (_ <- read_line (PyStr crlf) ;; ret tt) k) ;;
             send_command (ustr "file.close()")).
  assert (E : c s = c' (Serial (in_buf s) (sent s ++ [utf8 req ++ CRLF]))).
  { unfold c, c'. unfold bind at 1. unfold bounded.
    cbn [write_file_loop]. fold req. fold k.
    rewrite send_command_writes by (unfold req; encodable). reflexivity. }
  assert (St : steady write_error c').
  { unfold c'. apply steady_bind.
    - apply steady_bind.
      + eapply steady_weaken; [| apply steady_bind;
                                   [apply steady_read_line
                                   | intros; apply steady_ret]].
        now left.
      + intros u. unfold k. apply steady_bind.
        * eapply steady_weaken; [| apply steady_read_line]. now left.
        * intros response. apply steady_if;
            [| apply steady_write_file_loop].
          apply steady_raise. right. now exists response.
    - intros _. eapply steady_weaken; [| apply steady_send_command].
      now left. }
  rewrite E.
  destruct (St (Serial (in_buf s) (sent s ++ [utf8 req ++ CRLF])))
    as [[more Hs] [_ Hr]].
  split; [| exact Hr].
  exists more. rewrite Hs. cbn [sent write_requests app].
  now rewrite <- app_assoc.
Qed.

Lemma write_error_not_open (e : exn) : write_error e -> e <> OPEN_ERROR.
Proof.
  intros [[-> | [-> | ->]] | [response ->]]; discriminate.
Qed.

(** The two exchanges every [write_file] starts with, and the read of the
    response to the open. *)
Lemma write_file_opening (filename data : text) (block_size : Z)
      (e1 e2 opened rest : bytes) w :
  framed CR LF e1 = true -> framed CR LF e2 = true ->
  clean CR LF opened = true ->
  let opening :=
      [bstr "file.close()" ++ CRLF;
       utf8 (ustr "=file.open(" ++ Repr.repr filename ++ ustr ", 'w')")
       ++ CRLF] in
  write_file filename data block_size
    (Serial (e1 ++ CRLF ++ e2 ++ CRLF ++ opened ++ CRLF ++ rest) w)
  = match utf8_decode opened with
    | None => (Raise UnicodeDecodeError, Serial rest (w ++ opening))
    | Some topened =>
      (if text_eqb topened (ustr "nil")
       then raise OPEN_ERROR
       else (_ <- bounded (fun fuel => write_file_loop fuel data block_size) ;;
             send_command (ustr "file.close()")))
        (Serial rest (w ++ opening))
    end.
Proof.
  intros F1 F2 Hc opening. unfold write_file.
  erewrite bind_ok by (apply send_command_framed; [encodable | exact F1]).
  erewrite bind_ok by (apply send_command_framed; [encodable | exact F2]).
  rewrite <- app_assoc.
  pose proof (read_line_response opened rest (w ++ opening) Hc) as R.
  destruct (utf8_decode opened) as [topened |].
  - erewrite bind_ok by exact R. reflexivity.
  - erewrite bind_raise by exact R. reflexivity.
Qed.

(** C6, as stated, fails: a response to a write-block request that is not
    valid UTF-8 - here the byte 0xFF in answer to the first block - differs
    from [true], yet the error raised is the decode error of [read_line],
    not the write error. *)
Lemma write_file_ff_response_raises :
  write_file (ustr "test.txt") (ustr "123") 2 port_write_file_ff
  = (Raise UnicodeDecodeError,
     Serial []
       [bstr "file.close()" ++ CRLF;
        bstr "=file.open('test.txt', 'w')" ++ CRLF;
        bstr "=file.write('12')" ++ CRLF]) /\
  forall response,
    fst (write_file (ustr "test.txt") (ustr "123") 2 port_write_file_ff)
    <> Raise (IOError "Write failed! (Return value: {})" [response]).
Proof.
  assert (E : write_file (ustr "test.txt") (ustr "123") 2 port_write_file_ff
              = (Raise UnicodeDecodeError,
                 Serial []
                   [bstr "file.close()" ++ CRLF;
                    bstr "=file.open('test.txt', 'w')" ++ CRLF;
                    bstr "=file.write('12')" ++ CRLF]))
    by (vm_compute; reflexivity).
  split; [exact E |]. intros response. rewrite E. discriminate.
Qed.

(** C6, amended: the port delivers the echoes of [file.close()] and of the
    open request, the response to the open, then any number of acknowledged
    block writes, and at last an echo and a response [r] other than [true];
    the data is long enough for that many blocks and one more.
    - When the response to the open is [nil], the open error is raised with
      two payloads written, neither of them a write-block request, and the
      rest of the bytes unread.
    - When it is any other text, the error raised after the write-block
      requests up to the one refused is the write error that carries [r]
      if [r] is valid UTF-8, and the decode error if it is not.
    - When the response to the open is not valid UTF-8, the decode error is
      raised, again before any write-block request. *)
Theorem write_file_errors
        (filename data : text) (block_size : Z)
        (e1 e2 opened : bytes) (oks : list bytes) (e r : bytes)
        (rest : bytes) w :
  forallb (framed CR LF) (e1 :: e2 :: e :: oks) = true ->
  clean CR LF opened = true ->
  clean CR LF r = true -> utf8_decode r <> Some (ustr "true") ->
  0 < block_size ->
  Z.of_nat (length oks) * block_size < Z.of_nat (length data) ->
  let tail := acknowledged oks ++ e ++ CRLF ++ r ++ CRLF ++ rest in
  let opening :=
      [bstr "file.close()" ++ CRLF;
       utf8 (ustr "=file.open(" ++ Repr.repr filename ++ ustr ", 'w')")
       ++ CRLF] in
  write_file filename data block_size
    (Serial (e1 ++ CRLF ++ e2 ++ CRLF ++ opened ++ CRLF ++ tail) w)
  = match utf8_decode opened with
    | None => (Raise UnicodeDecodeError, Serial tail (w ++ opening))
    | Some topened =>
      if text_eqb topened (ustr "nil")
      then (Raise (IOError "Could not open file for writing!" []),
            Serial tail (w ++ opening))
      else (Raise (match utf8_decode r with
                   | Some tr => IOError "Write failed! (Return value: {})" [tr]
                   | None => UnicodeDecodeError
                   end),
            Serial rest
              (w ++ opening
                 ++ write_requests (S (length oks)) data block_size))
    end.
Proof.
  intros Hf Hc Hr Ntrue HB Hlen tail opening.
  cbn [forallb] in Hf.
  apply andb_prop in Hf as [F1 Hf]. apply andb_prop in Hf as [F2 Hf].
  apply andb_prop in Hf as [Fe Hoks].
  rewrite (write_file_opening _ _ _ _ _ _ _ _ F1 F2 Hc).
  fold opening. destruct (utf8_decode opened) as [topened |]; [| reflexivity].
  destruct (text_eqb topened (ustr "nil")); [reflexivity |].
  unfold bind, bounded. cbn [in_buf]. unfold tail.
  rewrite (write_file_loop_fails block_size e r rest) by
      (try assumption; pose proof (length_acknowledged oks
         (e ++ CRLF ++ r ++ CRLF ++ rest)); lia).
  now rewrite <- app_assoc.
Qed.

(** Writing [123] in blocks of two: the first block is acknowledged, the
    second is answered [nil]. *)
Lemma write_file_errors_witness :
  write_file (ustr "test.txt") (ustr "123") 2
    (Serial (bstr "file.close()" ++ CRLF
             ++ bstr "=file.open('test.txt', 'w')" ++ CRLF
             ++ bstr "true" ++ CRLF
             ++ acknowledged [bstr "=file.write('12')"]
             ++ bstr "=file.write('3')" ++ CRLF ++ bstr "nil" ++ CRLF ++ [])
            [])
  = (Raise (IOError "Write failed! (Return value: {})" [ustr "nil"]),
     Serial []
       [bstr "file.close()" ++ CRLF;
        bstr "=file.open('test.txt', 'w')" ++ CRLF;
        bstr "=file.write('12')" ++ CRLF;
        bstr "=file.write('3')" ++ CRLF]).
Proof.
  apply (write_file_errors (ustr "test.txt") (ustr "123") 2
           (bstr "file.close()") (bstr "=file.open('test.txt', 'w')")
           (bstr "true") [bstr "=file.write('12')"]
           (bstr "=file.write('3')") (bstr "nil") [] []);
    try reflexivity; try discriminate.
Defined.

(** C10, as stated, fails: garbage that is not valid UTF-8 in answer to the
    open - the byte 0xFF - is not taken for a successful open: the decode
    error of [read_line] is raised and no write-block request is sent. *)
Lemma write_file_open_ff_raises :
  write_file (ustr "test.txt") (ustr "12") 64 port_write_file_open_ff
  = (Raise UnicodeDecodeError,
     Serial (bstr "=file.write('12')" ++ CRLF ++ bstr "true" ++ CRLF)
       [bstr "file.close()" ++ CRLF;
        bstr "=file.open('test.txt', 'w')" ++ CRLF]).
Proof. vm_compute. reflexivity. Qed.

(** C10, amended: the port delivers the two echoes and a response to the
    open, and there is data to write.  When the response is valid UTF-8,
    the open error is raised exactly when its text is [nil]; for any other
    text - the empty line, garbage, not only [true] - the first write-block
    request is written next, and whatever happens later is not the open
    error.  When the response is not valid UTF-8 the decode error is raised
    and no write-block request is written. *)
Theorem write_file_open_only_nil
        (filename data : text) (block_size : Z)
        (e1 e2 opened : bytes) (rest : bytes) w :
  framed CR LF e1 = true -> framed CR LF e2 = true ->
  clean CR LF opened = true ->
  data <> [] ->
  let r := write_file filename data block_size
             (Serial (e1 ++ CRLF ++ e2 ++ CRLF ++ opened ++ CRLF ++ rest) w) in
  let opening :=
      [bstr "file.close()" ++ CRLF;
       utf8 (ustr "=file.open(" ++ Repr.repr filename ++ ustr ", 'w')")
       ++ CRLF] in
  match utf8_decode opened with
  | None => r = (Raise UnicodeDecodeError, Serial rest (w ++ opening))
  | Some topened =>
    (topened = ustr "nil" ->
     r = (Raise (IOError "Could not open file for writing!" []),
          Serial rest (w ++ opening))) /\
    (topened <> ustr "nil" ->
     fst r <> Raise (IOError "Could not open file for writing!" []) /\
     exists more,
       sent (snd r)
       = w ++ opening ++ write_requests 1 data block_size ++ more)
  end.
Proof.
  intros F1 F2 Hc Hdata r opening.
  unfold r. rewrite (write_file_opening _ _ _ _ _ _ _ _ F1 F2 Hc).
  fold opening. destruct (utf8_decode opened) as [topened |]; [| reflexivity].
  split; intros Hopen.
  - apply text_eqb_eq in Hopen. rewrite Hopen. reflexivity.
  - apply text_eqb_neq in Hopen. rewrite Hopen.
    destruct (write_file_blocks_first data block_size
                (Serial rest (w ++ opening)) Hdata) as [[more Hs] Hr].
    split.
    + intros E. apply Hr in E. now apply write_error_not_open in E.
    + exists more. rewrite Hs. cbn [sent]. now rewrite <- app_assoc.
Qed.

(** An empty line in answer to the open: the block [12] is requested. *)
Lemma write_file_open_only_nil_witness :
  fst (write_file (ustr "test.txt") (ustr "12") 64
         (Serial (bstr "file.close()" ++ CRLF
                  ++ bstr "=file.open('test.txt', 'w')" ++ CRLF
                  ++ [] ++ CRLF ++ []) []))
  <> Raise (IOError "Could not open file for writing!" []) /\
  exists more,
    sent (snd (write_file (ustr "test.txt") (ustr "12") 64
                 (Serial (bstr "file.close()" ++ CRLF
                          ++ bstr "=file.open('test.txt', 'w')" ++ CRLF
                          ++ [] ++ CRLF ++ []) [])))
    = [] ++ [bstr "file.close()" ++ CRLF;
             utf8 (ustr "=file.open(" ++ Repr.repr (ustr "test.txt")
                   ++ ustr ", 'w')") ++ CRLF]
         ++ write_requests 1 (ustr "12") 64 ++ more.
Proof.
  apply (proj2 (write_file_open_only_nil (ustr "test.txt") (ustr "12") 64
                  (bstr "file.close()") (bstr "=file.open('test.txt', 'w')")
                  [] [] [] eq_refl eq_refl eq_refl ltac:(discriminate))).
  discriminate.
Defined.

(** ** Adequacy of the loop bounds

    A loop of the session stops for a reason of its own - the terminator is
    found, the data or the size is used up, an exception, a read that
    blocks - before its bound is reached: with any bound above the number of
    bytes still to come the result is the same. *)

Lemma serial_read_one_blocked s :
  length (in_buf s) = 0%nat -> serial_read 1 s = (Blocked, s).
Proof. unfold serial_read. intros ->. reflexivity. Qed.

Lemma read_line_loop_bound (le : bytes) :
  forall f1 f2 data s,
    (length (in_buf s) <= f1)%nat -> (length (in_buf s) <= f2)%nat ->
    read_line_loop f1 le data s = read_line_loop f2 le data s.
Proof.
  induction f1 as [| f1 IH]; intros [| f2] data s H1 H2;
    cbn [read_line_loop]; destruct (bytes_eqb _ le); try reflexivity.
  - unfold bind. rewrite serial_read_one_blocked by lia. reflexivity.
  - unfold bind. rewrite serial_read_one_blocked by lia. reflexivity.
  - unfold bind, serial_read.
    destruct (Nat.leb_spec (Z.to_nat 1) (length (in_buf s))) as [L | L];
      [| reflexivity].
    apply IH; cbn [in_buf]; rewrite length_drop; lia.
Qed.

Lemma write_file_loop_bound (block_size : Z) :
  forall f1 f2 data s,
    (length (in_buf s) < f1)%nat -> (length (in_buf s) < f2)%nat ->
    write_file_loop f1 data block_size s = write_file_loop f2 data block_size s.
Proof.
  induction f1 as [| f1 IH]; intros [| f2] data s H1 H2; try lia.
  destruct data as [| c data]; [reflexivity |].
  cbn [write_file_loop]. unfold bind at 1 3.
  destruct (send_command _ s) as [[[] | e |] s1] eqn:E1; try reflexivity.
  apply send_command_taken in E1.
  unfold bind.
  destruct (read_line (PyStr crlf) s1) as [[response | e |] s2] eqn:E2;
    try reflexivity.
  apply read_line_taken in E2; [| reflexivity].
  destruct (negb _); [reflexivity |]. apply IH; lia.
Qed.

Lemma read_file_loop_bound (block_size : Z) :
  forall f1 f2 size data s,
    (length (in_buf s) < f1)%nat -> (length (in_buf s) < f2)%nat ->
    read_file_loop f1 size block_size data s
    = read_file_loop f2 size block_size data s.
Proof.
  induction f1 as [| f1 IH]; intros [| f2] size data s H1 H2; try lia.
  cbn [read_file_loop]. destruct (size =? 0); [reflexivity |].
  unfold bind at 1 3.
  destruct (send_command _ s) as [[[] | e |] s1] eqn:E1; try reflexivity.
  apply send_command_taken in E1.
  unfold bind.
  pose proof (steady_serial_read (fun _ => True)
                (Z.max size block_size) s1) as [_ [L _]].
  destruct (serial_read _ s1) as [[chunk | e |] s2]; try reflexivity.
  cbn [snd] in L. apply IH; lia.
Qed.

(** * Further properties of the session *)

(** ** [send_command] and [read_line] *)

(** X1: [send_command] writes the command and its CRLF as one payload, then
    takes the echoed line and nothing more: the response that follows the
    echo is still to be read.  An echo that is not valid UTF-8 is taken all
    the same, and the call raises the decode error after the write. *)
Theorem send_command_absorbs_echo (cmd : text) (echo response : bytes) w :
  forallb encodable cmd = true ->
  clean CR LF echo = true ->
  send_command cmd (Serial (echo ++ CRLF ++ response) w)
  = (match utf8_decode echo with
     | Some _ => Ok tt
     | None => Raise UnicodeDecodeError
     end, Serial response (w ++ [utf8 cmd ++ CRLF])).
Proof. intros Hcmd Hecho. now apply send_command_clean. Qed.

(** [test_send_command]: the prompt comes back before the echo. *)
Lemma send_command_absorbs_echo_witness :
  send_command (ustr "foo()")
    (Serial (bstr "> foo()" ++ CRLF ++ bstr "response!" ++ CRLF) [])
  = (Ok tt, Serial (bstr "response!" ++ CRLF) [bstr "foo()" ++ CRLF]).
Proof.
  exact (send_command_absorbs_echo (ustr "foo()") (bstr "> foo()")
           (bstr "response!" ++ CRLF) [] eq_refl eq_refl).
Defined.

(** X2: with a terminator that encodes to two bytes, [read_line] stops at
    the first occurrence of the terminator, returns the bytes before it
    decoded as UTF-8 (or raises the decode error), and leaves every byte
    after the terminator unread. *)
Theorem read_line_stops_at_terminator
        (le : text) (a b : byte) (line rest : bytes) w :
  forallb encodable le = true -> utf8 le = [a; b] ->
  clean a b line = true ->
  read_line (PyStr le) (Serial (line ++ [a; b] ++ rest) w)
  = (match utf8_decode line with
     | Some t => Ok t
     | None => Raise UnicodeDecodeError
     end, Serial rest w).
Proof. intros He Hu Hc. now apply read_line_clean. Qed.

(** The output of a script up to the prompt, CRLF included. *)
Lemma read_line_stops_at_terminator_witness :
  read_line (PyStr (ustr "> "))
    (Serial ((bstr "hello!" ++ CRLF) ++ PROMPT ++ bstr "next") [])
  = (Ok (ustr "hello!" ++ crlf), Serial (bstr "next") []).
Proof.
  exact (read_line_stops_at_terminator (ustr "> ") ">"%byte " "%byte
           (bstr "hello!" ++ CRLF) (bstr "next") [] eq_refl eq_refl eq_refl).
Defined.

Lemma read_line_loop_missing (a b : byte) :
  forall (inp data : bytes) w fuel,
    occurs a b (data ++ inp) = false ->
    (length inp <= fuel)%nat ->
    read_line_loop fuel [a; b] data (Serial inp w) = (Blocked, Serial [] w).
Proof.
  induction inp as [| c inp IH]; intros data w fuel Hocc Hfuel.
  - rewrite app_nil_r in Hocc. destruct fuel; cbn [read_line_loop];
      rewrite tail_test_false by assumption; reflexivity.
  - cbn [length] in Hfuel. destruct fuel as [| fuel]; [lia |].
    assert (H0 : occurs a b data = false).
    { destruct (occurs a b data) eqn:E; [| reflexivity].
      now rewrite (occurs_app_l _ _ _ (c :: inp) E) in Hocc. }
    rewrite read_line_loop_step by assumption.
    apply IH; [| lia]. now rewrite <- app_assoc.
Qed.

Lemma read_line_missing (le : text) (a b : byte) (inp : bytes) w :
  forallb encodable le = true -> utf8 le = [a; b] ->
  occurs a b inp = false ->
  read_line (PyStr le) (Serial inp w) = (Blocked, Serial [] w).
Proof.
  intros He Hu Hocc. unfold read_line, encode, str_encode.
  rewrite He, Hu.
  unfold bind at 1. unfold ret at 1. unfold bind, bounded. cbn [in_buf].
  rewrite (read_line_loop_missing a b inp [] w) by (assumption || lia).
  reflexivity.
Qed.

Lemma read_line_prompt_missing (inp : bytes) w :
  occurs ">"%byte " "%byte inp = false ->
  read_line (PyStr (ustr "> ")) (Serial inp w) = (Blocked, Serial [] w).
Proof. intros Hocc. now apply (read_line_missing _ ">"%byte " "%byte). Qed.

(** X3: when the two-byte terminator never comes, [read_line] takes every
    delivered byte and does not return: no partial line is handed back. *)
Theorem read_line_without_terminator_blocks
        (le : text) (a b : byte) (inp : bytes) w :
  forallb encodable le = true -> utf8 le = [a; b] ->
  occurs a b inp = false ->
  read_line (PyStr le) (Serial inp w) = (Blocked, Serial [] w).
Proof. intros He Hu Hocc. now apply (read_line_missing le a b). Qed.

(** A response cut off before its CRLF. *)
Lemma read_line_without_terminator_blocks_witness :
  read_line (PyStr crlf) (Serial (bstr "tru") [])
  = (Blocked, Serial [] []).
Proof.
  exact (read_line_without_terminator_blocks crlf CR LF (bstr "tru") []
           eq_refl eq_refl eq_refl).
Defined.

(** X4: with a terminator that is not exactly two bytes long, [read_line]
    never returns any content: if it returns at all, it returns the empty
    string.  (The test is on the last two bytes read, and two bytes are
    cut off the result.) *)
Theorem read_line_other_length_no_content (le : text) s (t : text) s' :
  length (utf8 le) <> 2%nat ->
  read_line (PyStr le) s = (Ok t, s') ->
  t = [].
Proof.
  intros Hlen H. apply read_line_taken_bytes in H as [data [_ [E1 [D _]]]].
  assert (L : (length data < 2)%nat).
  { apply (f_equal (@length byte)) in E1.
    rewrite slice_from_m2, length_drop in E1. lia. }
  rewrite slice_to_m2 in D.
  replace (length data - 2)%nat with 0%nat in D by lia.
  cbn in D. now injection D as <-.
Qed.

(** A one-byte terminator that is the first byte delivered: the read
    returns the empty string. *)
Lemma read_line_other_length_no_content_witness :
  read_line (PyStr (ustr "b")) port_read_line
  = (Ok [], Serial (bstr "a-ba-black sheep bar baz") []) /\
  (@nil N) = [].
Proof.
  assert (E : read_line (PyStr (ustr "b")) port_read_line
              = (Ok [], Serial (bstr "a-ba-black sheep bar baz") []))
    by (vm_compute; reflexivity).
  split; [exact E |].
  exact (read_line_other_length_no_content (ustr "b") port_read_line []
           (Serial (bstr "a-ba-black sheep bar baz") [])
           ltac:(discriminate) E).
Defined.

(** ** [write_file]: the blocks *)

Lemma write_requests_blocks (n : nat) :
  forall data block_size,
    write_requests n data block_size
    = map write_request (blocks n data block_size).
Proof.
  induction n as [| n IH]; intros data block_size; [reflexivity |].
  cbn [write_requests blocks map]. now rewrite IH.
Qed.

Lemma concat_blocks (block_size : Z) (n : nat) :
  0 < block_size ->
  forall data,
    Z.of_nat (length data) <= Z.of_nat n * block_size ->
    concat (blocks n data block_size) = data.
Proof.
  intros HB. induction n as [| n IH]; intros data Hlen.
  - destruct data; [reflexivity | cbn [length] in Hlen; lia].
  - cbn [blocks concat]. rewrite IH.
    + unfold slice_to, slice_from. apply take_drop.
    + rewrite length_slice_from by exact HB. lia.
Qed.

Lemma blocks_bounded (block_size : Z) (n : nat) :
  0 < block_size ->
  forall data,
    Forall (fun b => Z.of_nat (length b) <= block_size)
           (blocks n data block_size).
Proof.
  intros HB. induction n as [| n IH]; intros data; constructor; [| apply IH].
  unfold slice_to, py_index. rewrite length_take.
  destruct (Z.ltb_spec block_size 0); lia.
Qed.

Lemma write_file_loop_completes (block_size : Z) (rest : bytes) :
  0 < block_size ->
  forall (oks : list bytes) (data : text) w fuel,
    forallb (framed CR LF) oks = true ->
    (Z.of_nat (length oks) - 1) * block_size < Z.of_nat (length data)
      <= Z.of_nat (length oks) * block_size ->
    (length oks < fuel)%nat ->
    write_file_loop fuel data block_size (Serial (acknowledged oks ++ rest) w)
    = (Ok tt, Serial rest (w ++ write_requests (length oks) data block_size)).
Proof.
  intros HB. induction oks as [| o oks IH]; intros data w fuel Hoks Hlen Hfuel.
  - cbn [length] in *. destruct data; [| cbn [length] in Hlen; lia].
    destruct fuel; cbn; now rewrite app_nil_r.
  - cbn [length forallb] in *. apply andb_prop in Hoks as [Ho Hoks].
    destruct fuel as [| fuel]; [lia |].
    destruct data as [| c data]; [cbn [length] in Hlen; nia |].
    rewrite acknowledged_cons. cbn [write_file_loop].
    erewrite bind_ok by (apply send_command_framed; [encodable | exact Ho]).
    erewrite bind_ok
      by (apply (read_line_text (bstr "true") (ustr "true")); reflexivity).
    replace (negb (text_eqb (ustr "true") (ustr "true"))) with false
      by reflexivity.
    rewrite IH.
    + cbn [write_requests]. now rewrite <- app_assoc.
    + exact Hoks.
    + rewrite length_slice_from by exact HB. nia.
    + lia.
Qed.

(** X5: when the open is accepted and every block is acknowledged,
    [write_file] returns after the close.  Between the open and the close
    it has written one request per block, in order; the blocks hold at
    most [block_size] characters each and, put end to end, are the data -
    nothing is lost, repeated or reordered.  Empty data gives no request,
    yet the file is opened and closed. *)
Theorem write_file_sends_every_block
        (filename data : text) (block_size : Z)
        (e1 e2 opened : bytes) (topened : text)
        (oks : list bytes) (e3 rest : bytes) w :
  forallb (framed CR LF) (e1 :: e2 :: e3 :: oks) = true ->
  clean CR LF opened = true -> utf8_decode opened = Some topened ->
  topened <> ustr "nil" ->
  0 < block_size ->
  (Z.of_nat (length oks) - 1) * block_size < Z.of_nat (length data)
    <= Z.of_nat (length oks) * block_size ->
  write_file filename data block_size
    (Serial (e1 ++ CRLF ++ e2 ++ CRLF ++ opened ++ CRLF
             ++ acknowledged oks ++ e3 ++ CRLF ++ rest) w)
  = (Ok tt,
     Serial rest
       (w ++ [bstr "file.close()" ++ CRLF;
              utf8 (ustr "=file.open(" ++ Repr.repr filename ++ ustr ", 'w')")
              ++ CRLF]
          ++ map write_request (blocks (length oks) data block_size)
          ++ [bstr "file.close()" ++ CRLF])) /\
  concat (blocks (length oks) data block_size) = data /\
  Forall (fun b => Z.of_nat (length b) <= block_size)
         (blocks (length oks) data block_size).
Proof.
  intros Hf Hc Hd Hopen HB Hlen.
  cbn [forallb] in Hf.
  apply andb_prop in Hf as [F1 Hf]. apply andb_prop in Hf as [F2 Hf].
  apply andb_prop in Hf as [F3 Hoks].
  split; [| split; [apply concat_blocks; [exact HB | lia]
                   | now apply blocks_bounded]].
  rewrite (write_file_opening _ _ _ _ _ _ _ _ F1 F2 Hc), Hd.
  apply text_eqb_neq in Hopen. rewrite Hopen.
  unfold bind at 1. unfold bounded. cbn [in_buf].
  rewrite (write_file_loop_completes block_size (e3 ++ CRLF ++ rest) HB)
    by (try assumption;
        pose proof (length_acknowledged oks (e3 ++ CRLF ++ rest)); lia).
  rewrite send_command_framed by (reflexivity || assumption).
  rewrite write_requests_blocks. now rewrite <- !app_assoc.
Qed.

(** [test_write_file]: the three characters [123] in blocks of two. *)
Lemma write_file_sends_every_block_witness :
  write_file (ustr "test.txt") (ustr "123") 2
    (Serial (bstr "file.close()" ++ CRLF
             ++ bstr "=file.open('test.txt', 'w')" ++ CRLF
             ++ bstr "true" ++ CRLF
             ++ acknowledged [bstr "=file.write('12')"; bstr "=file.write('3')"]
             ++ bstr "file.close()" ++ CRLF ++ []) [])
  = (Ok tt,
     Serial []
       [bstr "file.close()" ++ CRLF;
        bstr "=file.open('test.txt', 'w')" ++ CRLF;
        bstr "=file.write('12')" ++ CRLF;
        bstr "=file.write('3')" ++ CRLF;
        bstr "file.close()" ++ CRLF]).
Proof.
  apply (write_file_sends_every_block (ustr "test.txt") (ustr "123") 2
           (bstr "file.close()") (bstr "=file.open('test.txt', 'w')")
           (bstr "true") (ustr "true")
           [bstr "=file.write('12')"; bstr "=file.write('3')"]
           (bstr "file.close()") [] []);
    try reflexivity; try discriminate; cbn; lia.
Defined.

Lemma slice_from_nonpositive {A} (data : list A) (block_size : Z) :
  block_size <= 0 -> data <> [] -> slice_from data block_size <> [].
Proof.
  intros HB Hdata E. apply (f_equal (@length A)) in E.
  unfold slice_from, py_index in E. rewrite length_drop in E.
  destruct data as [| c data]; [contradiction |]. cbn [length] in E.
  destruct (Z.ltb_spec block_size 0); lia.
Qed.

Lemma write_file_loop_never_ends (block_size : Z) :
  block_size <= 0 ->
  forall fuel data s,
    data <> [] -> fst (write_file_loop fuel data block_size s) <> Ok tt.
Proof.
  intros HB. induction fuel as [| fuel IH]; intros data s Hdata;
    destruct data as [| c data]; try contradiction; cbn [write_file_loop];
    [discriminate |].
  unfold bind at 1.
  destruct (send_command _ s) as [[[] | e |] s1]; try discriminate.
  unfold bind at 1.
  destruct (read_line _ s1) as [[response | e |] s2]; try discriminate.
  destruct (negb _); [discriminate |].
  apply IH. now apply slice_from_nonpositive.
Qed.

(** X6: with a block size of zero or less and data to write, [write_file]
    never returns: each round leaves data behind (the whole of it for zero,
    its tail for a negative size), so the call ends only by an error or by
    waiting on the device for ever. *)
Theorem write_file_nonpositive_block_never_returns
        (filename data : text) (block_size : Z) s :
  block_size <= 0 -> data <> [] ->
  fst (write_file filename data block_size s) <> Ok tt.
Proof.
  intros HB Hdata. unfold write_file.
  unfold bind at 1.
  destruct (send_command _ s) as [[[] | e |] s1]; try discriminate.
  unfold bind at 1.
  destruct (send_command _ s1) as [[[] | e |] s2]; try discriminate.
  unfold bind at 1.
  destruct (read_line _ s2) as [[opened | e |] s3]; try discriminate.
  destruct (text_eqb opened (ustr "nil")); [discriminate |].
  unfold bind, bounded.
  pose proof (write_file_loop_never_ends block_size HB
                (S (length (in_buf s3))) data s3 Hdata) as H.
  destruct (write_file_loop _ data block_size s3) as [[[] | e |] s4];
    cbn [fst] in *; try discriminate.
  now contradiction H.
Qed.

(** A block size of zero: the request for an empty block is repeated until
    the device has nothing more to say. *)
Lemma write_file_nonpositive_block_never_returns_witness :
  fst (write_file (ustr "test.txt") (ustr "1") 0
         (Serial (bstr "file.close()" ++ CRLF
                  ++ bstr "=file.open('test.txt', 'w')" ++ CRLF
                  ++ bstr "true" ++ CRLF
                  ++ acknowledged [bstr "=file.write('')"]) []))
  <> Ok tt.
Proof.
  apply (write_file_nonpositive_block_never_returns (ustr "test.txt")
           (ustr "1") 0); [lia | discriminate].
Defined.

(** ** [read_file]: errors and edges *)

Lemma no_digit_lstrip (t : text) :
  no_digit t = true -> no_digit (lstrip t) = true.
Proof.
  unfold no_digit. induction t as [| c t IH]; [reflexivity |].
  cbn [lstrip]. destruct (is_space c); [| auto].
  cbn [forallb]. intros H. apply andb_prop in H as [_ H]. auto.
Qed.

Lemma no_digit_rev (t : text) : no_digit t = true -> no_digit (rev t) = true.
Proof.
  unfold no_digit. rewrite !forallb_forall. intros H c Hc.
  apply H. now apply in_rev.
Qed.

(** [int] refuses text that holds no digit. *)
Lemma no_digit_py_int (t : text) : no_digit t = true -> py_int t = None.
Proof.
  intros H.
  assert (S : no_digit (strip t) = true)
    by (unfold strip; auto using no_digit_lstrip, no_digit_rev).
  assert (D : forall c r acc, no_digit (c :: r) = true ->
                              digits_value acc (c :: r) = None).
  { intros c r acc Hc. unfold no_digit in Hc. cbn [forallb] in Hc.
    apply andb_prop in Hc as [Hc _]. apply andb_prop in Hc as [_ Hc].
    apply negb_true_iff in Hc. cbn [digits_value]. now rewrite Hc. }
  unfold py_int. destruct (strip t) as [| c r]; [reflexivity |].
  assert (R : no_digit r = true).
  { unfold no_digit in *. cbn [forallb] in S.
    now apply andb_prop in S as [_ S]. }
  destruct (c =? 45)%N; [| destruct (c =? 43)%N].
  - destruct r as [| d r]; [reflexivity |]. now rewrite D.
  - destruct r as [| d r]; [reflexivity |]. now rewrite D.
  - now rewrite D.
Qed.

(** X7: when the size lookup does not answer a size, [read_file] stops
    before the open request is written: on [nil] with the error that the
    file does not exist, on any other line without a digit with the
    [ValueError] of [int], on a line that is not valid UTF-8 with the decode
    error. *)
Theorem read_file_size_lookup_fails
        (filename : text) (block_size : Z)
        (e1 e2 sz : bytes) (rest : bytes) w :
  framed CR LF e1 = true -> framed CR LF e2 = true ->
  clean CR LF sz = true ->
  let r := read_file filename block_size
             (Serial (e1 ++ CRLF ++ e2 ++ CRLF ++ sz ++ CRLF ++ rest) w) in
  let port :=
      Serial rest
        (w ++ [bstr "file.close()" ++ CRLF;
               utf8 (ustr "=file.list()[" ++ Repr.repr filename ++ ustr "]")
               ++ CRLF]) in
  match utf8_decode sz with
  | None => r = (Raise UnicodeDecodeError, port)
  | Some tsz =>
    (tsz = ustr "nil" -> r = (Raise (IOError "File does not exist!" []), port))
    /\
    (tsz <> ustr "nil" -> no_digit tsz = true -> r = (Raise ValueError, port))
  end.
Proof.
  intros F1 F2 Hc r port. unfold r, read_file.
  erewrite bind_ok by (apply send_command_framed; [encodable | exact F1]).
  erewrite bind_ok by (apply send_command_framed; [encodable | exact F2]).
  rewrite <- app_assoc.
  pose proof (read_line_response sz rest
                (w ++ [bstr "file.close()" ++ CRLF]
                   ++ [utf8 (ustr "=file.list()[" ++ Repr.repr filename
                             ++ ustr "]") ++ CRLF]) Hc) as R.
  destruct (utf8_decode sz) as [tsz |].
  - erewrite bind_ok by exact R. split.
    + intros ->. reflexivity.
    + intros N D. apply text_eqb_neq in N. rewrite N.
      unfold int at 1. rewrite (no_digit_py_int _ D).
      now erewrite bind_raise by reflexivity.
  - now erewrite bind_raise by exact R.
Qed.

(** [test_read_file_not_exists], and a device that answers the lookup with
    an error message. *)
Lemma read_file_size_lookup_fails_witness :
  read_file (ustr "test.txt") 64
    (Serial (bstr "file.close()" ++ CRLF
             ++ bstr "=file.list()['test.txt']" ++ CRLF
             ++ bstr "nil" ++ CRLF ++ []) [])
  = (Raise (IOError "File does not exist!" []),
     Serial [] [bstr "file.close()" ++ CRLF;
                bstr "=file.list()['test.txt']" ++ CRLF]) /\
  read_file (ustr "test.txt") 64
    (Serial (bstr "file.close()" ++ CRLF
             ++ bstr "=file.list()['test.txt']" ++ CRLF
             ++ bstr "lua: cannot open" ++ CRLF ++ []) [])
  = (Raise ValueError,
     Serial [] [bstr "file.close()" ++ CRLF;
                bstr "=file.list()['test.txt']" ++ CRLF]).
Proof.
  split.
  - exact (proj1 (read_file_size_lookup_fails (ustr "test.txt") 64
                    (bstr "file.close()") (bstr "=file.list()['test.txt']")
                    (bstr "nil") [] [] eq_refl eq_refl eq_refl) eq_refl).
  - exact (proj2 (read_file_size_lookup_fails (ustr "test.txt") 64
                    (bstr "file.close()") (bstr "=file.list()['test.txt']")
                    (bstr "lua: cannot open") [] [] eq_refl eq_refl eq_refl)
                 ltac:(discriminate) eq_refl).
Defined.

(** X8: when the response to the open is anything but [true], no block is
    requested, whatever the size: [read_file] raises the error that the
    file could not be opened when the response is valid UTF-8, and the
    decode error when it is not. *)
Theorem read_file_open_refused
        (filename : text) (block_size size : Z)
        (e1 e2 sz e3 opened : bytes) (rest : bytes) w :
  forallb (framed CR LF) [e1; e2; e3] = true ->
  clean CR LF sz = true -> int_line sz = Some size ->
  clean CR LF opened = true ->
  utf8_decode opened <> Some (ustr "true") ->
  read_file filename block_size
    (Serial (e1 ++ CRLF ++ e2 ++ CRLF ++ sz ++ CRLF
             ++ e3 ++ CRLF ++ opened ++ CRLF ++ rest) w)
  = (Raise (match utf8_decode opened with
            | Some _ => IOError "Could not open file!" []
            | None => UnicodeDecodeError
            end),
     Serial rest
       (w ++ [bstr "file.close()" ++ CRLF;
              utf8 (ustr "=file.list()[" ++ Repr.repr filename ++ ustr "]")
              ++ CRLF;
              utf8 (ustr "=file.open(" ++ Repr.repr filename ++ ustr ", 'r')")
              ++ CRLF])).
Proof.
  intros Hf Hsz Hint Hc Hopen.
  rewrite (read_file_opening _ _ size) by assumption.
  match goal with
  | |- bind _ _ (Serial _ ?l) = _ =>
    pose proof (read_line_response opened rest l Hc) as R
  end.
  destruct (utf8_decode opened) as [topened |].
  - erewrite bind_ok by exact R.
    assert (N : topened <> ustr "true") by congruence.
    apply text_eqb_neq in N. now rewrite N.
  - now erewrite bind_raise by exact R.
Qed.

(** [test_read_file_not_openable] *)
Lemma read_file_open_refused_witness :
  read_file (ustr "test.txt") 64
    (Serial (bstr "file.close()" ++ CRLF
             ++ bstr "=file.list()['test.txt']" ++ CRLF ++ bstr "123" ++ CRLF
             ++ bstr "=file.open('test.txt', 'r')" ++ CRLF
             ++ bstr "nil" ++ CRLF ++ []) [])
  = (Raise (IOError "Could not open file!" []),
     Serial []
       [bstr "file.close()" ++ CRLF;
        bstr "=file.list()['test.txt']" ++ CRLF;
        bstr "=file.open('test.txt', 'r')" ++ CRLF]).
Proof.
  apply (read_file_open_refused (ustr "test.txt") 64 123
           (bstr "file.close()") (bstr "=file.list()['test.txt']")
           (bstr "123") (bstr "=file.open('test.txt', 'r')")
           (bstr "nil") [] []);
    try reflexivity; discriminate.
Defined.

(** X9: an empty file is read without any block request: after the size
    lookup answers 0 and the open answers [true], [read_file] returns the
    empty string and reads nothing further. *)
Theorem read_file_empty_file
        (filename : text) (block_size : Z)
        (e1 e2 sz e3 rest : bytes) w :
  forallb (framed CR LF) [e1; e2; e3] = true ->
  clean CR LF sz = true -> int_line sz = Some 0 ->
  read_file filename block_size
    (Serial (e1 ++ CRLF ++ e2 ++ CRLF ++ sz ++ CRLF
             ++ e3 ++ CRLF ++ bstr "true" ++ CRLF ++ rest) w)
  = (Ok [],
     Serial rest
       (w ++ [bstr "file.close()" ++ CRLF;
              utf8 (ustr "=file.list()[" ++ Repr.repr filename ++ ustr "]")
              ++ CRLF;
              utf8 (ustr "=file.open(" ++ Repr.repr filename ++ ustr ", 'r')")
              ++ CRLF])).
Proof.
  intros Hf Hsz Hint.
  rewrite (read_file_opened _ _ 0) by assumption.
  reflexivity.
Qed.

Lemma read_file_empty_file_witness :
  read_file (ustr "test.txt") 64
    (Serial (bstr "file.close()" ++ CRLF
             ++ bstr "=file.list()['test.txt']" ++ CRLF ++ bstr "0" ++ CRLF
             ++ bstr "=file.open('test.txt', 'r')" ++ CRLF
             ++ bstr "true" ++ CRLF ++ bstr "> ") [])
  = (Ok [],
     Serial (bstr "> ")
       [bstr "file.close()" ++ CRLF;
        bstr "=file.list()['test.txt']" ++ CRLF;
        bstr "=file.open('test.txt', 'r')" ++ CRLF]).
Proof.
  apply (read_file_empty_file (ustr "test.txt") 64
           (bstr "file.close()") (bstr "=file.list()['test.txt']")
           (bstr "0") (bstr "=file.open('test.txt', 'r')") (bstr "> ") []);
    reflexivity.
Defined.

(** X10: a file whose size is not zero and is below the block size is never
    returned: the block requested is the block size, the remainder goes
    negative and the loop goes on asking.  With the default block size of
    64 this is every file of 1 to 63 bytes. *)
Theorem read_file_below_block_size_never_returns
        (filename : text) (block_size size : Z)
        (e1 e2 sz e3 rest : bytes) w (t : text) :
  forallb (framed CR LF) [e1; e2; e3] = true ->
  clean CR LF sz = true -> int_line sz = Some size ->
  size <> 0 -> size < block_size -> 0 < block_size ->
  fst (read_file filename block_size
         (Serial (e1 ++ CRLF ++ e2 ++ CRLF ++ sz ++ CRLF
                  ++ e3 ++ CRLF ++ bstr "true" ++ CRLF ++ rest) w))
  <> Ok t.
Proof.
  intros Hf Hsz Hint Hnz Hlt HB.
  rewrite (read_file_opened _ _ size) by assumption.
  unfold bind, bounded.
  match goal with
  | |- context [read_file_loop ?f size block_size [] ?s] =>
    pose proof (read_file_loop_overshoots block_size HB f size [] s) as H;
    destruct (read_file_loop f size block_size [] s) as [[d | e |] s1]
  end; cbn [fst] in *; try discriminate.
  exfalso. now apply (H d).
Qed.

(** A file of three bytes read with the default block size. *)
Lemma read_file_below_block_size_never_returns_witness :
  fst (read_file (ustr "test.txt") 64
         (Serial (bstr "file.close()" ++ CRLF
                  ++ bstr "=file.list()['test.txt']" ++ CRLF
                  ++ bstr "3" ++ CRLF
                  ++ bstr "=file.open('test.txt', 'r')" ++ CRLF
                  ++ bstr "true" ++ CRLF
                  ++ (bstr "uart.write(0, file.read(64))" ++ CRLF
                      ++ [x01; x02; x03])) []))
  <> Ok [1; 2; 3]%N.
Proof.
  apply (read_file_below_block_size_never_returns (ustr "test.txt") 64 3
           (bstr "file.close()") (bstr "=file.list()['test.txt']")
           (bstr "3") (bstr "=file.open('test.txt', 'r')"));
    try reflexivity; lia.
Defined.

(** ** [list_files], [dofile], [remove_file], [rename_file] *)

(** X11: a count of zero or less lists nothing: [list_files] still sends
    the listing statement and absorbs its echo, reads no entry line and
    returns the empty mapping. *)
Theorem list_files_no_entries (e1 count e2 rest : bytes) (n : Z) w :
  framed CR LF e1 = true -> framed CR LF e2 = true ->
  clean CR LF count = true -> int_line count = Some n ->
  n <= 0 ->
  list_files (Serial (e1 ++ CRLF ++ count ++ CRLF ++ e2 ++ CRLF ++ rest) w)
  = (Ok ∅,
     Serial rest (w ++ [utf8 COUNT_FILES ++ CRLF; utf8 PRINT_FILES ++ CRLF])).
Proof.
  intros F1 F2 Hc Hn Hle.
  rewrite (list_files_opening _ _ _ _ _ _ F1 F2 Hc Hn).
  replace (Z.to_nat n) with 0%nat by lia. reflexivity.
Qed.

(** [test_list_files_with_no_files], with the statements the session
    sends. *)
Lemma list_files_no_entries_witness :
  list_files (Serial (utf8 COUNT_FILES ++ CRLF ++ bstr "0" ++ CRLF
                      ++ utf8 PRINT_FILES ++ CRLF ++ []) [])
  = (Ok ∅, Serial [] [utf8 COUNT_FILES ++ CRLF; utf8 PRINT_FILES ++ CRLF]).
Proof.
  apply (list_files_no_entries (utf8 COUNT_FILES) (bstr "0")
           (utf8 PRINT_FILES) [] 0 []);
    reflexivity || lia.
Defined.

(** X12: for a file the device does not list, [dofile] raises the error
    that the file does not exist and never writes the [dofile] statement. *)
Theorem dofile_missing_file (filename : text) (e1 rest : bytes) w :
  framed CR LF e1 = true ->
  dofile filename (Serial (e1 ++ CRLF ++ bstr "nil" ++ CRLF ++ rest) w)
  = (Raise (IOError "File does not exist!" []),
     Serial rest
       (w ++ [utf8 (ustr "=file.list()[" ++ Repr.repr filename ++ ustr "]")
              ++ CRLF])).
Proof.
  intros F1. unfold dofile.
  erewrite bind_ok by (apply send_command_framed; [encodable | exact F1]).
  erewrite bind_ok
    by (apply (read_line_text (bstr "nil") (ustr "nil")); reflexivity).
  reflexivity.
Qed.

(** [test_dofile_no_file] *)
Lemma dofile_missing_file_witness :
  dofile (ustr "test.lua")
    (Serial (bstr "=file.list()['test.lua']" ++ CRLF ++ bstr "nil" ++ CRLF
             ++ []) [])
  = (Raise (IOError "File does not exist!" []),
     Serial [] [bstr "=file.list()['test.lua']" ++ CRLF]).
Proof.
  exact (dofile_missing_file (ustr "test.lua")
           (bstr "=file.list()['test.lua']") [] [] eq_refl).
Defined.

(** X13: [dofile] never returns the output of a script, on any port and
    for any file name: every path ends in an exception or waits for ever,
    the last read being given a set for its terminator. *)
Theorem dofile_never_returns (filename : text) s (t : text) :
  fst (dofile filename s) <> Ok t.
Proof.
  unfold dofile. unfold bind at 1.
  destruct (send_command _ s) as [[[] | e |] s1]; try discriminate.
  unfold bind at 1.
  destruct (read_line _ s1) as [[found | e |] s2]; try discriminate.
  destruct (text_eqb found (ustr "nil")); [discriminate |].
  unfold bind.
  destruct (send_command _ s2) as [[[] | e |] s3]; discriminate.
Qed.

(** X14: [remove_file] first looks the file up.  On [nil] it raises the
    error that the file does not exist and the remove statement is never
    written; on an answer that is not valid UTF-8 it raises the decode
    error, and the remove statement is not written either; on any other
    answer it writes the remove statement, absorbs its echo and returns
    without reading a response to it. *)
Theorem remove_file_checks_existence
        (filename : text) (e1 found e2 rest : bytes) w :
  framed CR LF e1 = true -> framed CR LF e2 = true ->
  clean CR LF found = true ->
  let lookup :=
      utf8 (ustr "=file.list()[" ++ Repr.repr filename ++ ustr "]") ++ CRLF in
  remove_file filename
    (Serial (e1 ++ CRLF ++ found ++ CRLF ++ e2 ++ CRLF ++ rest) w)
  = match utf8_decode found with
    | None =>
      (Raise UnicodeDecodeError, Serial (e2 ++ CRLF ++ rest) (w ++ [lookup]))
    | Some tfound =>
      if text_eqb tfound (ustr "nil")
      then (Raise (IOError "File does not exist!" []),
            Serial (e2 ++ CRLF ++ rest) (w ++ [lookup]))
      else (Ok tt,
            Serial rest
              (w ++ [lookup;
                     utf8 (ustr "file.remove(" ++ Repr.repr filename
                           ++ ustr ")") ++ CRLF]))
    end.
Proof.
  intros F1 F2 Hc lookup. unfold remove_file.
  erewrite bind_ok by (apply send_command_framed; [encodable | exact F1]).
  fold lookup.
  pose proof (read_line_response found (e2 ++ CRLF ++ rest) (w ++ [lookup]) Hc)
    as R.
  destruct (utf8_decode found) as [tfound |].
  - erewrite bind_ok by exact R.
    destruct (text_eqb tfound (ustr "nil")); [reflexivity |].
    rewrite send_command_framed by (encodable || assumption).
    now rewrite <- app_assoc.
  - now erewrite bind_raise by exact R.
Qed.

(** [test_remove_file], and the same exchange with the byte 0xFF for an
    answer. *)
Lemma remove_file_checks_existence_witness :
  remove_file (ustr "test.txt")
    (Serial (bstr "=file.list()['test.txt']" ++ CRLF ++ bstr "123" ++ CRLF
             ++ bstr "file.remove('test.txt')" ++ CRLF ++ []) [])
  = (Ok tt,
     Serial [] [bstr "=file.list()['test.txt']" ++ CRLF;
                bstr "file.remove('test.txt')" ++ CRLF]) /\
  remove_file (ustr "test.txt")
    (Serial (bstr "=file.list()['test.txt']" ++ CRLF ++ [xff] ++ CRLF
             ++ bstr "file.remove('test.txt')" ++ CRLF ++ []) [])
  = (Raise UnicodeDecodeError,
     Serial (bstr "file.remove('test.txt')" ++ CRLF ++ [])
            [bstr "=file.list()['test.txt']" ++ CRLF]).
Proof.
  split.
  - exact (remove_file_checks_existence (ustr "test.txt")
             (bstr "=file.list()['test.txt']") (bstr "123")
             (bstr "file.remove('test.txt')") [] []
             eq_refl eq_refl eq_refl).
  - exact (remove_file_checks_existence (ustr "test.txt")
             (bstr "=file.list()['test.txt']") [xff]
             (bstr "file.remove('test.txt')") [] []
             eq_refl eq_refl eq_refl).
Defined.

(** X15: [rename_file] writes one statement and returns exactly when the
    device answers [true]; any other text, [nil] included, raises the error
    that the rename failed, and an answer that is not valid UTF-8 raises
    the decode error. *)
Theorem rename_file_requires_true
        (old new : text) (e1 renamed : bytes) (rest : bytes) w :
  framed CR LF e1 = true ->
  clean CR LF renamed = true ->
  rename_file old new
    (Serial (e1 ++ CRLF ++ renamed ++ CRLF ++ rest) w)
  = (match utf8_decode renamed with
     | Some trenamed =>
       if text_eqb trenamed (ustr "true")
       then Ok tt
       else Raise (IOError "Rename failed!" [])
     | None => Raise UnicodeDecodeError
     end,
     Serial rest
       (w ++ [utf8 (ustr "=file.rename(" ++ Repr.repr old ++ ustr ", "
                    ++ Repr.repr new ++ ustr ")") ++ CRLF])).
Proof.
  intros F1 Hc. unfold rename_file.
  erewrite bind_ok by (apply send_command_framed; [encodable | exact F1]).
  match goal with
  | |- bind _ _ (Serial _ ?l) = _ =>
    pose proof (read_line_response renamed rest l Hc) as R
  end.
  destruct (utf8_decode renamed) as [trenamed |].
  - erewrite bind_ok by exact R.
    destruct (text_eqb trenamed (ustr "true")); reflexivity.
  - now erewrite bind_raise by exact R.
Qed.

(** [test_rename_file_fails], and the same exchange with the byte 0xFF for
    an answer. *)
Lemma rename_file_requires_true_witness :
  rename_file (ustr "old.txt") (ustr "new.txt")
    (Serial (bstr "=file.rename('old.txt', 'new.txt')" ++ CRLF
             ++ bstr "nil" ++ CRLF ++ []) [])
  = (Raise (IOError "Rename failed!" []),
     Serial [] [bstr "=file.rename('old.txt', 'new.txt')" ++ CRLF]) /\
  rename_file (ustr "old.txt") (ustr "new.txt")
    (Serial (bstr "=file.rename('old.txt', 'new.txt')" ++ CRLF
             ++ [xff] ++ CRLF ++ []) [])
  = (Raise UnicodeDecodeError,
     Serial [] [bstr "=file.rename('old.txt', 'new.txt')" ++ CRLF]).
Proof.
  split.
  - exact (rename_file_requires_true (ustr "old.txt") (ustr "new.txt")
             (bstr "=file.rename('old.txt', 'new.txt')") (bstr "nil")
             [] [] eq_refl eq_refl).
  - exact (rename_file_requires_true (ustr "old.txt") (ustr "new.txt")
             (bstr "=file.rename('old.txt', 'new.txt')") [xff]
             [] [] eq_refl eq_refl).
Defined.

(** ** [get_version] and the gate of [main] *)

Lemma split_no_tab (f : text) :
  existsb (N.eqb tab) f = false -> split tab f = [f].
Proof.
  induction f as [| c f IH]; intros H; [reflexivity |].
  cbn [existsb] in H. apply orb_false_elim in H as [Hc Hf].
  cbn [split]. rewrite N.eqb_sym, Hc, (IH Hf). reflexivity.
Qed.

Lemma split_app_tab (f x : text) :
  existsb (N.eqb tab) f = false ->
  split tab (f ++ tab :: x) = f :: split tab x.
Proof.
  induction f as [| c f IH]; intros H; [reflexivity |].
  cbn [existsb] in H. apply orb_false_elim in H as [Hc Hf].
  cbn [app split]. rewrite N.eqb_sym, Hc, (IH Hf). reflexivity.
Qed.

(** Splitting what was joined gives the fields back. *)
Lemma split_join (fields : list text) :
  fields <> [] ->
  forallb (fun f => negb (existsb (N.eqb tab) f)) fields = true ->
  split tab (join tab fields) = fields.
Proof.
  induction fields as [| f r IH]; intros Hne H; [contradiction |].
  cbn [forallb] in H. apply andb_prop in H as [Hf Hr].
  apply negb_true_iff in Hf.
  destruct r as [| g r].
  - now apply split_no_tab.
  - change (join tab (f :: g :: r)) with (f ++ tab :: join tab (g :: r)).
    rewrite split_app_tab by exact Hf. rewrite IH; [reflexivity | | exact Hr].
    discriminate.
Qed.

Lemma map_int_ints (fields : list text) s :
  map_int fields s
  = (match ints fields with
     | Some zs => Ok zs
     | None => Raise ValueError
     end, s).
Proof.
  induction fields as [| f r IH]; [reflexivity |].
  cbn [map_int ints]. unfold int. destruct (py_int f) as [z |].
  - erewrite bind_ok by reflexivity. unfold bind. rewrite IH.
    destruct (ints r); reflexivity.
  - reflexivity.
Qed.

(** One field without a digit, and the fields spell no list of integers. *)
Lemma no_digit_ints (fields : list text) :
  existsb no_digit fields = true -> ints fields = None.
Proof.
  induction fields as [| f r IH]; [discriminate |].
  cbn [existsb ints]. intros H. apply orb_prop in H as [H | H].
  - now rewrite (no_digit_py_int f H).
  - rewrite (IH H). now destruct (py_int f).
Qed.

(** X16: [get_version] converts every tab-separated field of the response
    with [int] and returns the first two.  When every field spells an
    integer, the result is the pair of the first two, or [IndexError] when
    there is only one.  One field without any digit - also one after the
    second - raises [ValueError]. *)
Theorem get_version_reads_fields
        (e1 line : bytes) (fields : list text) (rest : bytes) w :
  framed CR LF e1 = true ->
  clean CR LF line = true -> utf8_decode line = Some (join tab fields) ->
  fields <> [] ->
  forallb (fun f => negb (existsb (N.eqb tab) f)) fields = true ->
  let r := get_version (Serial (e1 ++ CRLF ++ line ++ CRLF ++ rest) w) in
  snd r = Serial rest (w ++ [bstr "=node.info()" ++ CRLF]) /\
  (forall zs,
      ints fields = Some zs ->
      fst r = Ok (match zs with
                  | major :: minor :: _ => Item (major, minor)
                  | _ => IndexError
                  end)) /\
  (existsb no_digit fields = true -> fst r = Raise ValueError).
Proof.
  intros F1 Hc Hd Hne Htab r.
  assert (R : r = (match ints fields with
                   | Some (major :: minor :: _) => Ok (Item (major, minor))
                   | Some _ => Ok IndexError
                   | None => Raise ValueError
                   end, Serial rest (w ++ [bstr "=node.info()" ++ CRLF]))).
  { unfold r, get_version.
    erewrite bind_ok by (apply send_command_framed; [reflexivity | exact F1]).
    erewrite bind_ok by (apply (read_line_text line); eassumption).
    rewrite split_join by assumption.
    unfold bind. rewrite map_int_ints.
    destruct (ints fields) as [[| major [| minor info]] |]; reflexivity. }
  rewrite R. cbn [fst snd]. split; [reflexivity | split].
  - intros zs ->. destruct zs as [| major [| minor info]]; reflexivity.
  - intros H. now rewrite (no_digit_ints _ H).
Qed.

(** [test_get_version], and a response whose third field is a word. *)
Lemma get_version_reads_fields_witness :
  fst (get_version
         (Serial (bstr "=node.info()" ++ CRLF
                  ++ (bstr "1" ++ [TAB] ++ bstr "4" ++ [TAB] ++ bstr "1234"
                      ++ [TAB] ++ bstr "4321") ++ CRLF ++ []) []))
  = Ok (Item (1, 4)) /\
  fst (get_version
         (Serial (bstr "=node.info()" ++ CRLF
                  ++ (bstr "1" ++ [TAB] ++ bstr "4" ++ [TAB] ++ bstr "float")
                  ++ CRLF ++ []) []))
  = Raise ValueError.
Proof.
  split.
  - apply (proj1 (proj2 (get_version_reads_fields (bstr "=node.info()")
             (bstr "1" ++ [TAB] ++ bstr "4" ++ [TAB] ++ bstr "1234"
              ++ [TAB] ++ bstr "4321")
             [ustr "1"; ustr "4"; ustr "1234"; ustr "4321"] [] []
             eq_refl eq_refl eq_refl ltac:(discriminate) eq_refl))
             [1; 4; 1234; 4321]).
    reflexivity.
  - apply (proj2 (proj2 (get_version_reads_fields (bstr "=node.info()")
             (bstr "1" ++ [TAB] ++ bstr "4" ++ [TAB] ++ bstr "float")
             [ustr "1"; ustr "4"; ustr "float"] [] []
             eq_refl eq_refl eq_refl ltac:(discriminate) eq_refl))).
    reflexivity.
Defined.

(** X17: the gate of [main] compares the version pair as tuples between
    [(1, 4)] and [(2, 0)].  It lets through the versions 1.4 and later of
    major version 1 - and also a major version 2 with a negative minor,
    which the tuple order puts below [(2, 0)]. *)
Theorem compatible_versions (major minor : Z) :
  compatible (major, minor) = true
  <-> (major = 1 /\ 4 <= minor) \/ (major = 2 /\ minor < 0).
Proof.
  unfold compatible, tuple_le, tuple_lt. cbn [fst snd].
  rewrite andb_true_iff, !orb_true_iff, !andb_true_iff.
  rewrite !Z.ltb_lt, !Z.eqb_eq, Z.leb_le. lia.
Qed.

(** ** [restart] waits for the second prompt *)

(** X18: [restart] does not return on the first prompt: when the echo and
    the line up to the first prompt have come and no second prompt follows,
    it takes every remaining byte and waits - the handler for the decode
    error does not cut the wait short. *)
Theorem restart_waits_for_second_prompt (echo first tail : bytes) w :
  framed CR LF echo = true ->
  framed ">"%byte " "%byte first = true ->
  occurs ">"%byte " "%byte tail = false ->
  restart (Serial (echo ++ CRLF ++ first ++ PROMPT ++ tail) w)
  = (Blocked, Serial [] (w ++ [bstr "node.restart()" ++ CRLF])).
Proof.
  intros Fe F1 Ht. unfold restart.
  erewrite bind_ok by (apply send_command_framed; [reflexivity | exact Fe]).
  change (utf8 (ustr "node.restart()")) with (bstr "node.restart()").
  unfold framed in F1. apply andb_prop in F1 as [C1 D1].
  apply bool_decide_eq_true in D1.
  destruct (utf8_decode first) as [t1 |] eqn:E1; [| contradiction].
  pose proof (read_line_clean (ustr "> ") ">"%byte " "%byte first tail
                (w ++ [bstr "node.restart()" ++ CRLF]) eq_refl eq_refl C1)
    as R1.
  rewrite E1 in R1. erewrite bind_ok by exact R1.
  unfold except_UnicodeDecodeError_pass.
  erewrite bind_blocked
    by (apply (read_line_prompt_missing tail); exact Ht).
  reflexivity.
Qed.

(** The reboot banner without the prompt after it. *)
Lemma restart_waits_for_second_prompt_witness :
  restart (Serial (bstr "node.restart()" ++ CRLF ++ [] ++ PROMPT
                   ++ restart_garbage) [])
  = (Blocked, Serial [] [bstr "node.restart()" ++ CRLF]).
Proof.
  exact (restart_waits_for_second_prompt (bstr "node.restart()") []
           restart_garbage [] eq_refl eq_refl eq_refl).
Defined.

(** ** What the session writes *)

Lemma keeps_ret {A} (I : serial -> Prop) (a : A) : keeps I (ret a).
Proof. intros s H. exact H. Qed.

Lemma keeps_raise {A} (I : serial -> Prop) (e : exn) : keeps I (@raise A e).
Proof. intros s H. exact H. Qed.

Lemma keeps_blocked {A} (I : serial -> Prop) : keeps I (@blocked A).
Proof. intros s H. exact H. Qed.

Lemma keeps_bind {A B} (I : serial -> Prop) (c : M A) (k : A -> M B) :
  keeps I c -> (forall a, keeps I (k a)) -> keeps I (bind c k).
Proof.
  intros Hc Hk s H. unfold bind. specialize (Hc s H).
  destruct (c s) as [[a | e |] s1]; cbn [snd] in *; [now apply Hk | |];
    exact Hc.
Qed.

Lemma keeps_if {A} (I : serial -> Prop) (b : bool) (c d : M A) :
  keeps I c -> keeps I d -> keeps I (if b then c else d).
Proof. now destruct b. Qed.

Lemma keeps_bounded {A} (I : serial -> Prop) (loop : nat -> M A) :
  (forall fuel, keeps I (loop fuel)) -> keeps I (bounded loop).
Proof. intros H s. apply (H (S (length (in_buf s)))). Qed.

Lemma keeps_serial_read (n : Z) : keeps writes_lines (serial_read n).
Proof.
  intros s H. unfold serial_read.
  destruct (Z.to_nat n <=? length (in_buf s))%nat; exact H.
Qed.

Lemma keeps_read_line_loop (le : bytes) (fuel : nat) :
  forall data, keeps writes_lines (read_line_loop fuel le data).
Proof.
  induction fuel as [| fuel IH]; intros data; cbn [read_line_loop];
    apply keeps_if; try apply keeps_ret; [apply keeps_blocked |].
  apply keeps_bind; [apply keeps_serial_read | intros c; apply IH].
Qed.

Lemma keeps_read_line (o : pyobj) : keeps writes_lines (read_line o).
Proof.
  unfold read_line. apply keeps_bind.
  - destruct o; [| apply keeps_raise]. unfold encode, str_encode.
    apply keeps_if; [apply keeps_ret | apply keeps_raise].
  - intros le. apply keeps_bind.
    + apply keeps_bounded. intros fuel. apply keeps_read_line_loop.
    + intros data. unfold decode.
      destruct (utf8_decode _); [apply keeps_ret | apply keeps_raise].
Qed.

(** The one place where the session writes: a command of printable
    characters goes out as a line. *)
Lemma keeps_send_command (cmd : text) :
  forallb isprintable cmd = true ->
  keeps writes_lines (send_command cmd).
Proof.
  intros Hcmd s H. unfold send_command, str_encode.
  destruct (forallb encodable (cmd ++ crlf)); [| exact H].
  unfold bind at 1. unfold ret at 1. unfold bind at 1.
  unfold serial_write at 1.
  apply (keeps_bind writes_lines (read_line (PyStr crlf)) (fun _ => ret tt));
    [apply keeps_read_line | intros; apply keeps_ret |].
  unfold writes_lines in *. cbn [sent]. apply Forall_app. split; [exact H |].
  constructor; [| constructor]. exists cmd.
  split; [apply utf8_command | split; [exact Hcmd |]].
  now apply printable_plain.
Qed.

Ltac printable :=
  repeat rewrite forallb_app;
  repeat rewrite repr_printable;
  repeat rewrite str_of_int_printable;
  reflexivity.

Lemma keeps_write_file_loop (block_size : Z) (fuel : nat) :
  forall data, keeps writes_lines (write_file_loop fuel data block_size).
Proof.
  induction fuel as [| fuel IH]; intros data; cbn [write_file_loop];
    destruct data as [| c data]; try apply keeps_ret;
    [apply keeps_blocked |].
  apply keeps_bind; [apply keeps_send_command; printable |].
  intros _. apply keeps_bind; [apply keeps_read_line |].
  intros response. apply keeps_if; [apply keeps_raise | apply IH].
Qed.

Lemma keeps_read_file_loop (block_size : Z) (fuel : nat) :
  forall size data,
    keeps writes_lines (read_file_loop fuel size block_size data).
Proof.
  induction fuel as [| fuel IH]; intros size data; cbn [read_file_loop];
    apply keeps_if; try apply keeps_ret; [apply keeps_blocked |].
  apply keeps_bind; [apply keeps_send_command; printable |].
  intros _. apply keeps_bind; [apply keeps_serial_read | intros c; apply IH].
Qed.

Lemma keeps_list_files_loop (n : nat) :
  forall files, keeps writes_lines (list_files_loop n files).
Proof.
  induction n as [| n IH]; intros files; cbn [list_files_loop];
    [apply keeps_ret |].
  apply keeps_bind; [apply keeps_read_line |]. intros line.
  destruct (partition tab line) as [[filename_length sep] line'].
  unfold int.
  apply keeps_bind;
    [destruct (py_int _); [apply keeps_ret | apply keeps_raise] |].
  intros len. apply keeps_bind;
    [destruct (py_int _); [apply keeps_ret | apply keeps_raise] |].
  intros size. apply IH.
Qed.

Lemma keeps_map_int (fields : list text) : keeps writes_lines (map_int fields).
Proof.
  induction fields as [| f r IH]; cbn [map_int]; [apply keeps_ret |].
  apply keeps_bind;
    [unfold int; destruct (py_int _); [apply keeps_ret | apply keeps_raise] |].
  intros z. apply keeps_bind; [exact IH | intros; apply keeps_ret].
Qed.

(** X19: whatever characters the file names and the data hold - quotes,
    CR, LF, controls, characters beyond ASCII - and whatever the device
    answers, every payload a method of the session writes is one line: the
    UTF-8 bytes of printable characters, with no ASCII control among them,
    followed by CRLF.  An argument cannot break a command in two. *)
Theorem session_writes_lines
        (filename data old new : text) (block_size : Z) :
  keeps writes_lines (write_file filename data block_size) /\
  keeps writes_lines (read_file filename block_size) /\
  keeps writes_lines list_files /\
  keeps writes_lines (dofile filename) /\
  keeps writes_lines restart /\
  keeps writes_lines (remove_file filename) /\
  keeps writes_lines (rename_file old new) /\
  keeps writes_lines get_version /\
  keeps writes_lines format.
Proof.
  repeat split.
  - unfold write_file.
    apply keeps_bind; [apply keeps_send_command; printable | intros _].
    apply keeps_bind; [apply keeps_send_command; printable | intros _].
    apply keeps_bind; [apply keeps_read_line | intros opened].
    apply keeps_if; [apply keeps_raise |].
    apply keeps_bind; [| intros _; apply keeps_send_command; printable].
    apply keeps_bounded. intros fuel. apply keeps_write_file_loop.
  - unfold read_file.
    apply keeps_bind; [apply keeps_send_command; printable | intros _].
    apply keeps_bind; [apply keeps_send_command; printable | intros _].
    apply keeps_bind; [apply keeps_read_line | intros size].
    apply keeps_if; [apply keeps_raise |].
    apply keeps_bind;
      [unfold int; destruct (py_int _); [apply keeps_ret | apply keeps_raise]
      | intros n].
    apply keeps_bind; [apply keeps_send_command; printable | intros _].
    apply keeps_bind; [apply keeps_read_line | intros opened].
    apply keeps_if; [apply keeps_raise |].
    apply keeps_bind.
    + apply keeps_bounded. intros fuel. apply keeps_read_file_loop.
    + intros d. unfold decode.
      destruct (utf8_decode _); [apply keeps_ret | apply keeps_raise].
  - unfold list_files.
    apply keeps_bind; [apply keeps_send_command; reflexivity | intros _].
    apply keeps_bind; [apply keeps_read_line | intros n].
    apply keeps_bind;
      [unfold int; destruct (py_int _); [apply keeps_ret | apply keeps_raise]
      | intros z].
    apply keeps_bind; [apply keeps_send_command; reflexivity | intros _].
    apply keeps_list_files_loop.
  - unfold dofile.
    apply keeps_bind; [apply keeps_send_command; printable | intros _].
    apply keeps_bind; [apply keeps_read_line | intros found].
    apply keeps_if; [apply keeps_raise |].
    apply keeps_bind; [apply keeps_send_command; printable | intros _].
    apply keeps_read_line.
  - unfold restart.
    apply keeps_bind; [apply keeps_send_command; reflexivity | intros _].
    apply keeps_bind; [apply keeps_read_line | intros _].
    intros s H. unfold except_UnicodeDecodeError_pass.
    pose proof (keeps_bind writes_lines (read_line (PyStr (ustr "> ")))
                  (fun _ => ret tt) (keeps_read_line _)
                  (fun _ => keeps_ret _ tt) s H) as K.
    destruct (bind _ _ s) as [[[] | [] |] s1]; exact K.
  - unfold remove_file.
    apply keeps_bind; [apply keeps_send_command; printable | intros _].
    apply keeps_bind; [apply keeps_read_line | intros found].
    apply keeps_if; [apply keeps_raise |].
    apply keeps_send_command; printable.
  - unfold rename_file.
    apply keeps_bind; [apply keeps_send_command; printable | intros _].
    apply keeps_bind; [apply keeps_read_line | intros renamed].
    apply keeps_if; [apply keeps_raise | apply keeps_ret].
  - unfold get_version.
    apply keeps_bind; [apply keeps_send_command; reflexivity | intros _].
    apply keeps_bind; [apply keeps_read_line | intros line].
    apply keeps_bind; [apply keeps_map_int | intros; apply keeps_ret].
  - apply keeps_send_command. reflexivity.
Qed.

(** A file name with a line break, the letter e-acute and a single quote:
    once [file.close()] is echoed the open request goes out, one line in
    which the line break is spelled [\r\n] and the letter is its two UTF-8
    bytes. *)
Lemma session_writes_lines_witness :
  sent (snd (write_file [cr; lf; 0xe9%N; squote] (ustr "data") 64
               (Serial (bstr "file.close()" ++ CRLF) [])))
  = [bstr "file.close()" ++ CRLF;
     bstr "=file.open(" ++ [DQUOTE] ++ bstr "\r\n" ++ [xc3; xa9; SQUOTE; DQUOTE]
     ++ bstr ", 'w')" ++ CRLF] /\
  writes_lines
    (snd (write_file [cr; lf; 0xe9%N; squote] (ustr "data") 64
            (Serial (bstr "file.close()" ++ CRLF) []))).
Proof.
  split; [vm_compute; reflexivity |].
  exact (proj1 (session_writes_lines [cr; lf; 0xe9%N; squote] (ustr "data")
                  [] [] 64)
               (Serial (bstr "file.close()" ++ CRLF) [])
               (List.Forall_nil line_payload)).
Defined.

(** ** The default serial port *)

Lemma str_le_refl (a : text) : str_le a a = true.
Proof.
  induction a as [| x a IH]; [reflexivity |].
  cbn [str_le]. rewrite N.eqb_refl, IH. apply orb_true_r.
Qed.

Lemma str_le_total (a : text) :
  forall b, str_le a b = false -> str_le b a = true.
Proof.
  induction a as [| x a IH]; intros [| y b]; cbn [str_le]; try discriminate;
    try reflexivity.
  intros H. apply orb_false_elim in H as [H1 H2].
  apply N.ltb_ge in H1.
  destruct (N.eqb_spec x y) as [E | E].
  - cbn [andb] in H2. rewrite E, N.eqb_refl, (IH _ H2). apply orb_true_r.
  - assert (L : (y <? x)%N = true) by (apply N.ltb_lt; lia).
    now rewrite L.
Qed.

Lemma str_le_trans (a : text) :
  forall b c, str_le a b = true -> str_le b c = true -> str_le a c = true.
Proof.
  induction a as [| x a IH]; intros [| y b] [| z c]; cbn [str_le];
    try discriminate; try reflexivity.
  intros H1 H2.
  apply orb_prop in H1. apply orb_prop in H2.
  destruct H1 as [H1 | H1]; destruct H2 as [H2 | H2].
  - apply N.ltb_lt in H1, H2.
    assert (L : (x <? z)%N = true) by (apply N.ltb_lt; lia).
    now rewrite L.
  - apply andb_prop in H2 as [E2 _]. apply N.eqb_eq in E2.
    rewrite <- E2, H1. reflexivity.
  - apply andb_prop in H1 as [E1 _]. apply N.eqb_eq in E1.
    rewrite E1, H2. reflexivity.
  - apply andb_prop in H1 as [E1 L1]. apply andb_prop in H2 as [E2 L2].
    apply N.eqb_eq in E1, E2. rewrite E1, E2, N.eqb_refl, (IH _ _ L1 L2).
    apply orb_true_r.
Qed.

Lemma key_le_refl (a : bool * text) : key_le a a = true.
Proof. unfold key_le. destruct (fst a); apply str_le_refl. Qed.

Lemma key_le_total (a b : bool * text) :
  key_le a b = false -> key_le b a = true.
Proof.
  unfold key_le. destruct (fst a), (fst b); try discriminate;
    try reflexivity; apply str_le_total.
Qed.

Lemma key_le_trans (a b c : bool * text) :
  key_le a b = true -> key_le b c = true -> key_le a c = true.
Proof.
  unfold key_le. destruct (fst a), (fst b), (fst c); try discriminate;
    try reflexivity; apply str_le_trans.
Qed.

Lemma insert_port_not_nil (p : text) (l : list text) : insert_port p l <> [].
Proof. destruct l as [| q r]; cbn; [| destruct (key_le _ _)]; discriminate. Qed.

(** The head of the sorted ports is one of the ports and has the least
    key. *)
Lemma sorted_ports_head (ports : list text) :
  forall p r,
    sorted_ports ports = p :: r ->
    In p ports /\
    forall q, In q ports -> key_le (port_key p) (port_key q) = true.
Proof.
  induction ports as [| x l IH]; intros p r H; [discriminate |].
  cbn [sorted_ports fold_right] in H. fold (sorted_ports l) in H.
  destruct (sorted_ports l) as [| h t] eqn:E.
  - assert (l = []) as ->.
    { destruct l as [| y l']; [reflexivity |].
      cbn [sorted_ports fold_right] in E.
      now apply insert_port_not_nil in E. }
    cbn in H. injection H as <- _. split; [now left |].
    intros q [<- | []]. apply key_le_refl.
  - destruct (IH h t eq_refl) as [Hin Hmin].
    cbn [insert_port] in H.
    destruct (key_le (port_key x) (port_key h)) eqn:K.
    + injection H as <- _. split; [now left |].
      intros q [<- | Hq]; [apply key_le_refl |].
      eapply key_le_trans; [exact K | now apply Hmin].
    + injection H as <- _. split; [now right |].
      intros q [<- | Hq]; [now apply key_le_total | now apply Hmin].
Qed.

(** X20: the default port of [main].  With no port there is none.
    Otherwise it is one of the ports; if any port has [ttyUSB] in its name,
    so has the default; and among the ports that agree with it on
    [ttyUSB], no name comes before it in the order of strings. *)
Theorem default_port_prefers_ttyUSB (comports : list (text * text * text)) :
  match default_port comports with
  | None => comports = []
  | Some p =>
    let names := map (fun info => fst (fst info)) comports in
    In p names /\
    (forall q, In q names ->
               contains (ustr "ttyUSB") q = true ->
               contains (ustr "ttyUSB") p = true) /\
    (forall q, In q names ->
               contains (ustr "ttyUSB") q = contains (ustr "ttyUSB") p ->
               str_le p q = true)
  end.
Proof.
  unfold default_port.
  destruct (sorted_ports _) as [| p r] eqn:E.
  - destruct comports as [| c l]; [reflexivity |].
    cbn [map sorted_ports fold_right] in E.
    now apply insert_port_not_nil in E.
  - destruct (sorted_ports_head _ _ _ E) as [Hin Hmin].
    cbv zeta. split; [exact Hin | split]; intros q Hq Hc;
      specialize (Hmin q Hq); unfold key_le, port_key in Hmin;
      cbn [fst snd] in Hmin.
    + rewrite Hc in Hmin. cbn [negb] in Hmin.
      destruct (contains (ustr "ttyUSB") p); [reflexivity | discriminate].
    + rewrite Hc in Hmin.
      destruct (contains (ustr "ttyUSB") p); exact Hmin.
Qed.

(** ** [list_files]: a line without a TAB *)

Lemma partition_no_tab (t : text) :
  existsb (N.eqb tab) t = false -> partition tab t = (t, [], []).
Proof.
  induction t as [| c t IH]; intros H; [reflexivity |].
  cbn [existsb] in H. apply orb_false_elim in H as [Hc Ht].
  cbn [partition]. rewrite N.eqb_sym, Hc, (IH Ht). reflexivity.
Qed.

Lemma slice_from_nil {A} (i : Z) : slice_from (@nil A) i = [].
Proof. unfold slice_from. apply drop_nil. Qed.

(** X21: an entry line without a TAB makes [list_files] raise
    [ValueError], whatever the line holds: either the line is not an
    integer, or it is and nothing is left to be the size. *)
Theorem list_files_line_without_tab
        (e1 count e2 line rest : bytes) (n : Z) (t : text) w :
  framed CR LF e1 = true -> framed CR LF e2 = true ->
  clean CR LF count = true -> int_line count = Some n -> 0 < n ->
  clean CR LF line = true -> utf8_decode line = Some t ->
  existsb (N.eqb tab) t = false ->
  list_files
    (Serial (e1 ++ CRLF ++ count ++ CRLF ++ e2 ++ CRLF
             ++ line ++ CRLF ++ rest) w)
  = (Raise ValueError,
     Serial rest (w ++ [utf8 COUNT_FILES ++ CRLF; utf8 PRINT_FILES ++ CRLF])).
Proof.
  intros F1 F2 Hc Hn Hpos Hl Hd Htab.
  rewrite (list_files_opening _ _ _ _ _ _ F1 F2 Hc Hn).
  destruct (Z.to_nat n) as [| k] eqn:E; [lia |].
  cbn [list_files_loop].
  erewrite bind_ok by (apply (read_line_text line t); assumption).
  rewrite (partition_no_tab _ Htab).
  unfold int at 1. destruct (py_int t) as [len |].
  - erewrite bind_ok by reflexivity. rewrite slice_from_nil.
    unfold int at 1. cbn [py_int strip lstrip rev app].
    now erewrite bind_raise by reflexivity.
  - now erewrite bind_raise by reflexivity.
Qed.

(** The listing of [test_list_files], where the length of a name stands on
    a line of its own. *)
Lemma list_files_line_without_tab_witness :
  list_files
    (Serial (utf8 COUNT_FILES ++ CRLF ++ bstr "2" ++ CRLF
             ++ utf8 PRINT_FILES ++ CRLF
             ++ bstr "7" ++ CRLF ++ (bstr "foo.txt123" ++ CRLF)) [])
  = (Raise ValueError,
     Serial (bstr "foo.txt123" ++ CRLF)
            [utf8 COUNT_FILES ++ CRLF; utf8 PRINT_FILES ++ CRLF]).
Proof.
  apply (list_files_line_without_tab (utf8 COUNT_FILES) (bstr "2")
           (utf8 PRINT_FILES)
           (bstr "7") (bstr "foo.txt123" ++ CRLF) 2 (ustr "7") []);
    reflexivity || lia.
Defined.
